(** * Resume analysis engine: a shallow embedding of [utils/analysis.py]

    The Python module is embedded function by function.  Python strings are
    sequences of Unicode code points, Python integers are [Z], Python floats
    are IEEE-754 binary64 values (the executable specification [SpecFloat] of
    the standard library, precision 53 and maximal exponent 1024), sets and
    dictionaries are stdpp's [gset] and [gmap], and an operation that can
    raise returns in the [result] monad. *)

From Stdlib Require Import ZArith NArith QArith Qround Qminmax Lia String Ascii.
From Stdlib Require Import SpecFloat.
From stdpp Require Import base option list sorting gmap.

Local Open Scope Z_scope.

(** ** Python strings *)

(** A character is a code point; a string is the list of its code points.
    [len] is then the number of code points, as in Python. *)
Abbreviation char := N (only parsing).
Abbreviation str := (list N) (only parsing).

(** ASCII literals of the source are written [py "..."]. *)
Definition py (s : string) : str :=
  List.map N_of_ascii (list_ascii_of_string s).

Definition len {A} (l : list A) : Z := Z.of_nat (length l).

Module Char.
Definition LF : char := 10%N.
Definition CR : char := 13%N.
Definition UNDERSCORE : char := 95%N.
Definition HYPHEN : char := 45%N.
Definition ASTERISK : char := 42%N.
Definition BULLET : char := 8226%N.   (* U+2022 *)

Definition between (lo hi c : char) : bool := ((lo <=? c) && (c <=? hi))%N.

(** [str.isspace] on one code point; the same set is used by [str.strip],
    [str.split] and the regular-expression class [\s]. *)
Definition isspace (c : char) : bool :=
  between 9 13 c || between 28 32 c || (c =? 133)%N || (c =? 160)%N
  || (c =? 5760)%N || between 8192 8202 c || (c =? 8232)%N || (c =? 8233)%N
  || (c =? 8239)%N || (c =? 8287)%N || (c =? 12288)%N.

(** Line boundaries of [str.splitlines]. *)
Definition islinebreak (c : char) : bool :=
  between 10 13 c || between 28 30 c || (c =? 133)%N
  || (c =? 8232)%N || (c =? 8233)%N.

Definition isupper_ascii (c : char) : bool := between 65 90 c.
Definition islower_ascii (c : char) : bool := between 97 122 c.
Definition isalpha_ascii (c : char) : bool := isupper_ascii c || islower_ascii c.
Definition isdigit_ascii (c : char) : bool := between 48 57 c.
End Char.

(** The parts of the Unicode character database that the module reaches
    through [str.lower] and through the [re] flags and classes [IGNORECASE]
    and [\b].  They are a parameter of the development: every theorem below
    holds for every database. *)
Class Unicode := {
  (** [str.lower] *)
  lower : str -> str;
  (** [str.isalnum] on one code point: with the underscore, the class [\w] *)
  isalnum : char -> bool;
  (** does the pattern character [p] match the subject character [c] under
      [re.IGNORECASE] *)
  ci_eq : char -> char -> bool
}.

(** The database restricted to Basic Latin, on which the examples are run.
    It agrees with CPython on every text whose code points lie in
    U+0000..U+007F or are caseless and not alphanumeric, as the bullet glyph
    U+2022 is. *)
Module BasicLatin.
Definition lower_char (c : char) : char :=
  if Char.isupper_ascii c then (c + 32)%N else c.

Definition lower (s : str) : str := List.map lower_char s.

Definition isalnum (c : char) : bool :=
  Char.isalpha_ascii c || Char.isdigit_ascii c.

Definition ci_eq (p c : char) : bool :=
  (p =? c)%N
  || (Char.islower_ascii p && (c =? p - 32)%N)
  || (Char.isupper_ascii p && (c =? p + 32)%N).

Definition db : Unicode := Build_Unicode lower isalnum ci_eq.
End BasicLatin.

(** *** String methods *)

Module Str.
Fixpoint lstrip (s : str) : str :=
  match s with
  | c :: s' => if Char.isspace c then lstrip s' else s
  | [] => []
  end.

Definition rstrip (s : str) : str := reverse (lstrip (reverse s)).

Definition strip (s : str) : str := rstrip (lstrip s).

(** [str.splitlines()]: [cur] is the line being read, in reverse;
    [after_cr] holds right after a carriage return, whose following line
    feed belongs to the same boundary.  A final line is kept only when it
    is not empty. *)
Fixpoint splitlines_from (after_cr : bool) (cur : str) (s : str) : list str :=
  match s with
  | [] => match cur with [] => [] | _ => [reverse cur] end
  | c :: s' =>
      if after_cr && (c =? Char.LF)%N then splitlines_from false cur s'
      else if Char.islinebreak c
           then reverse cur :: splitlines_from (c =? Char.CR)%N [] s'
           else splitlines_from false (c :: cur) s'
  end.

Definition splitlines (s : str) : list str := splitlines_from false [] s.

(** [str.split()] with no argument: the maximal runs of non-whitespace. *)
Fixpoint split_from (cur : str) (s : str) : list str :=
  match s with
  | [] => match cur with [] => [] | _ => [reverse cur] end
  | c :: s' =>
      if Char.isspace c
      then match cur with
           | [] => split_from [] s'
           | _ => reverse cur :: split_from [] s'
           end
      else split_from (c :: cur) s'
  end.

Definition split (s : str) : list str := split_from [] s.

(** [sep.join(parts)] *)
Fixpoint join (sep : str) (parts : list str) : str :=
  match parts with
  | [] => []
  | [p] => p
  | p :: ps => p ++ sep ++ join sep ps
  end.

Fixpoint startswith (p s : str) : bool :=
  match p, s with
  | [], _ => true
  | a :: p', c :: s' => (a =? c)%N && startswith p' s'
  | _ :: _, [] => false
  end.

(** [sub in s] *)
Fixpoint contains (sub s : str) : bool :=
  startswith sub s ||
  match s with
  | [] => false
  | _ :: s' => contains sub s'
  end.

(** [s.count(c)] for a one-character [c] *)
Definition count (c : char) (s : str) : Z :=
  len (List.filter (fun x => (x =? c)%N) s).

(** Python compares strings code point by code point. *)
Fixpoint leb (a b : str) : bool :=
  match a, b with
  | [], _ => true
  | _ :: _, [] => false
  | x :: a', y :: b' => (x <? y)%N || ((x =? y)%N && leb a' b')
  end.

Definition le (a b : str) : Prop := leb a b = true.
End Str.

(** ** Exceptions *)

Inductive exn := ZeroDivisionError | KeyError | OverflowError | ValueError.

Inductive result (A : Type) : Type :=
  | Ok (a : A)
  | Raise (e : exn).
Arguments Ok {A} a.
Arguments Raise {A} e.

#[global] Instance result_ret : MRet result := fun A a => Ok a.
#[global] Instance result_bind : MBind result :=
  fun A B f m => match m with Ok a => f a | Raise e => Raise e end.

(** [for x in xs: s = body s x] *)
Fixpoint for_each {S A} (body : S -> A -> result S) (xs : list A) (s : S)
  : result S :=
  match xs with
  | [] => Ok s
  | x :: xs' => s' ← body s x; for_each body xs' s'
  end.

(** ** Python numbers *)

(** [a // b] on integers *)
Definition floordiv (a b : Z) : result Z :=
  if b =? 0 then Raise ZeroDivisionError else Ok (a / b).

(** Binary64 floats, with the operations of [SpecFloat]: each rounds its
    exact result to the nearest float, ties to even. *)
Module Float.
Definition prec : Z := 53.
Definition emax : Z := 1024.

Abbreviation float := spec_float (only parsing).

Definition add : float -> float -> float := SFadd prec emax.
Definition sub : float -> float -> float := SFsub prec emax.
Definition mul : float -> float -> float := SFmul prec emax.
Definition div : float -> float -> float := SFdiv prec emax.
Definition ltb : float -> float -> bool := SFltb.

Definition is_finite (x : float) : bool :=
  match x with
  | S754_zero _ | S754_finite _ _ _ => true
  | _ => false
  end.

Definition is_zero (x : float) : bool :=
  match x with S754_zero _ => true | _ => false end.

(** The float nearest to an integer; the literals [1.0], [6.0], [200.0]
    and the integer constants that meet a float operand are such. *)
Definition of_Z (z : Z) : float := binary_normalize prec emax z 0 false.

(** An integer as an unrounded operand. *)
Definition exact (z : Z) : float :=
  match z with
  | Z0 => S754_zero false
  | Zpos p => S754_finite false p 0
  | Zneg p => S754_finite true p 0
  end.

(** [float(n)], implicit when an [int] meets a [float] operand *)
Definition of_int (n : Z) : result float :=
  let x := of_Z n in
  if is_finite x then Ok x else Raise OverflowError.

(** [a / b] on two integers.  CPython rounds the exact quotient once,
    whatever the size of the operands; so does [SFdiv] on the unrounded
    operands.  The quotient is too large for a float only when it rounds to
    infinity. *)
Definition int_truediv (a b : Z) : result float :=
  if b =? 0 then Raise ZeroDivisionError
  else let q := div (exact a) (exact b) in
       if is_finite q then Ok q else Raise OverflowError.

(** [x / y] on two floats *)
Definition truediv (x y : float) : result float :=
  if is_zero y then Raise ZeroDivisionError else Ok (div x y).

(** [min(x, y)]: the first argument unless the second is smaller *)
Definition min (x y : float) : float := if ltb y x then y else x.

(** [int(x)]: truncation toward zero *)
Definition to_int (x : float) : result Z :=
  match x with
  | S754_zero _ => Ok 0
  | S754_finite s m e =>
      Ok (cond_Zopp s (if 0 <=? e then Zpos m * 2 ^ e
                       else Zpos m / 2 ^ (- e)))
  | S754_infinity _ => Raise OverflowError
  | S754_nan => Raise ValueError
  end.

(** The integer part, for the values on which [int] does not raise *)
Definition trunc (x : float) : Z :=
  match to_int x with Ok z => z | Raise _ => 0 end.

(** [round(x, 2)]: the decimal with two digits nearest to the exact value
    of [x] (ties to even), then the float nearest to that decimal. *)
Definition round2 (x : float) : result float :=
  match x with
  | S754_finite s m e =>
      let num := Zpos m * 100 in
      let n := if 0 <=? e then num * 2 ^ e
               else let d := 2 ^ (- e) in
                    let q := num / d in
                    match 2 * (num mod d) ?= d with
                    | Lt => q
                    | Gt => q + 1
                    | Eq => if Z.even q then q else q + 1
                    end in
      match n with
      | Z0 => Ok (S754_zero s)
      | _ => let r := div (exact (cond_Zopp s n)) (exact 100) in
             if is_finite r then Ok r else Raise OverflowError
      end
  | _ => Ok x
  end.
End Float.

(** ** The regular expressions of the module *)

Module Re.
(** The classes of [[A-Za-z][A-Za-z\-\+\#/0-9]*]. *)
Definition token_start (c : char) : bool := Char.isalpha_ascii c.

Definition token_char (c : char) : bool :=
  Char.isalpha_ascii c || (c =? 45)%N || (c =? 43)%N || (c =? 35)%N
  || (c =? 47)%N || Char.isdigit_ascii c.

(** [re.findall] of that pattern: the matches are the maximal runs of
    token characters that start at a letter, left to right.  [cur] is the
    match being read, in reverse. *)
Fixpoint findall_tokens (cur : option str) (s : str) : list str :=
  match s with
  | [] => match cur with Some t => [reverse t] | None => [] end
  | c :: s' =>
      match cur with
      | Some t =>
          if token_char c then findall_tokens (Some (c :: t)) s'
          else reverse t :: findall_tokens None s'
      | None =>
          if token_start c then findall_tokens (Some [c]) s'
          else findall_tokens None s'
      end
  end.

(** The pieces of [(?:^|\n)[\-\u2022\*]\s+(.+)]. *)
Definition glyph (c : char) : bool :=
  (c =? Char.HYPHEN)%N || (c =? Char.BULLET)%N || (c =? Char.ASTERISK)%N.

(** [.] matches everything but a line feed. *)
Definition dot (c : char) : bool := negb (c =? Char.LF)%N.

Fixpoint span (p : char -> bool) (s : str) : str * str :=
  match s with
  | c :: s' => if p c then let '(a, b) := span p s' in (c :: a, b) else ([], s)
  | [] => ([], [])
  end.

(** [(.+)] at the head of [s]: the group and the text after the match *)
Definition dot_plus (s : str) : option (str * str) :=
  match span dot s with
  | ([], _) => None
  | r => Some r
  end.

(** [\s*(.+)]: the greedy star takes a whitespace character when it can
    and gives it back when the rest then fails. *)
Fixpoint spaces_line (s : str) : option (str * str) :=
  match s with
  | c :: s' =>
      if Char.isspace c
      then match spaces_line s' with
           | Some r => Some r
           | None => dot_plus s
           end
      else dot_plus s
  | [] => None
  end.

(** [[\-\u2022\*]\s+(.+)] *)
Definition glyph_spaces_line (s : str) : option (str * str) :=
  match s with
  | g :: c :: s' => if glyph g && Char.isspace c then spaces_line s' else None
  | _ => None
  end.

(** The whole pattern at one position; [^] holds at the start of the text
    only (the pattern is compiled without [re.MULTILINE]). *)
Definition bullet_at (at_start : bool) (s : str) : option (str * str) :=
  match (if at_start then glyph_spaces_line s else None) with
  | Some r => Some r
  | None =>
      match s with
      | c :: s' => if (c =? Char.LF)%N then glyph_spaces_line s' else None
      | [] => None
      end
  end.

(** [re.findall]: the positions are tried from left to right, and after a
    match the search goes on where the match ended; [skip] counts the
    positions still covered by the last match. *)
Fixpoint findall_bullets (skip : nat) (at_start : bool) (s : str) : list str :=
  match s with
  | [] => []
  | _ :: s' =>
      match skip with
      | S k => findall_bullets k false s'
      | O =>
          match bullet_at at_start s with
          | Some (group, rest) =>
              group :: findall_bullets (length s' - length rest) false s'
          | None => findall_bullets 0 false s'
          end
      end
  end.
End Re.

(** ** The static tables *)

Definition CANONICAL_SECTIONS : list str :=
  [py "summary"; py "experience"; py "education"; py "skills"; py "projects";
     py "certifications"; py "publications"].

Definition SECTION_ALIASES : list (str * str) :=
  [
    (py "professional summary", py "summary");
    (py "profile", py "summary");
    (py "objective", py "summary");
    (py "work experience", py "experience");
    (py "employment", py "experience");
    (py "work history", py "experience");
    (py "professional experience", py "experience");
    (py "education", py "education");
    (py "academics", py "education");
    (py "skills", py "skills");
    (py "technical skills", py "skills");
    (py "projects", py "projects");
    (py "personal projects", py "projects");
    (py "certifications", py "certifications");
    (py "licenses", py "certifications");
    (py "publications", py "publications")
  ].

Definition ROLE_PRESETS : list (str * gset str) :=
  [
    (py "data scientist",
     list_to_set [py "python"; py "pandas"; py "numpy"; py "sklearn"; py "tensorflow";
                   py "pytorch"; py "sql"; py "statistics"; py "ml"; py "classification";
                   py "regression"; py "nlp"; py "feature engineering";
                   py "model deployment"; py "experiment tracking"; py "tableau";
                   py "powerbi"; py "aws"; py "gcp"; py "azure"; py "airflow";
                   py "mlflow"]);
    (py "data analyst",
     list_to_set [py "sql"; py "excel"; py "powerbi"; py "tableau"; py "python";
                   py "pandas"; py "visualization"; py "dashboard"; py "a/b testing";
                   py "forecasting"; py "etl"; py "reporting"; py "statistics";
                   py "segmentation"; py "ga4"; py "lookerstudio"]);
    (py "software engineer",
     list_to_set [py "java"; py "python"; py "javascript"; py "react"; py "node";
                   py "api"; py "rest"; py "graphql"; py "docker"; py "kubernetes";
                   py "git"; py "ci/cd"; py "unit testing"; py "microservices"; py "sql";
                   py "nosql"; py "design patterns"; py "testing"]);
    (py "frontend developer",
     list_to_set [py "javascript"; py "typescript"; py "react"; py "next.js"; py "redux";
                   py "html"; py "css"; py "tailwind"; py "vite"; py "webpack";
                   py "accessibility"; py "lighthouse"; py "jest"; py "cypress"]);
    (py "backend developer",
     list_to_set [py "node"; py "express"; py "java"; py "spring"; py "python";
                   py "django"; py "flask"; py "fastapi"; py "rest"; py "graphql";
                   py "sql"; py "postgres"; py "mysql"; py "redis"; py "docker";
                   py "kubernetes"; py "microservices"; py "auth"; py "queue";
                   py "rabbitmq"; py "kafka"]);
    (py "devops engineer",
     list_to_set [py "docker"; py "kubernetes"; py "terraform"; py "ansible"; py "aws";
                   py "gcp"; py "azure"; py "ci/cd"; py "github actions"; py "gitlab ci";
                   py "monitoring"; py "prometheus"; py "grafana"; py "helm"; py "istio";
                   py "argocd"]);
    (py "cloud architect",
     list_to_set [py "aws"; py "gcp"; py "azure"; py "iam"; py "vpc"; py "load balancer";
                   py "scalability"; py "cost optimization"; py "serverless";
                   py "lambda"; py "cloudformation"; py "terraform"; py "kubernetes";
                   py "disaster recovery"]);
    (py "product manager",
     list_to_set [py "roadmap"; py "stakeholders"; py "requirements"; py "user research";
                   py "kpi"; py "okrs"; py "backlog"; py "prioritization";
                   py "go to market"; py "a/b testing"; py "analytics"; py "jira";
                   py "wireframes"; py "specs"]);
    (py "ux designer",
     list_to_set [py "ux research"; py "wireframing"; py "prototyping"; py "figma";
                   py "usability testing"; py "information architecture";
                   py "heuristic evaluation"; py "design system"; py "accessibility";
                   py "persona"; py "journey map"]);
    (py "business analyst",
     list_to_set [py "requirements"; py "process mapping"; py "sql"; py "excel";
                   py "dashboards"; py "stakeholder management"; py "gap analysis";
                   py "kpi"; py "user stories"; py "confluence"; py "jira"]);
    (py "marketing manager",
     list_to_set [py "seo"; py "sem"; py "content strategy"; py "campaigns";
                   py "google ads"; py "facebook ads"; py "analytics"; py "crm";
                   py "a/b testing"; py "email marketing"; py "automation";
                   py "brand strategy"; py "roi"]);
    (py "cybersecurity analyst",
     list_to_set [py "siem"; py "splunk"; py "wazuh"; py "ids/ips";
                   py "vulnerability management"; py "threat hunting";
                   py "incident response"; py "nmap"; py "wireshark"; py "linux";
                   py "mitre att&ck"; py "risk assessment"]);
    (py "qa engineer",
     list_to_set [py "test cases"; py "test plans"; py "manual testing"; py "automation";
                   py "selenium"; py "cypress"; py "jest"; py "pytest"; py "ci/cd";
                   py "regression"; py "integration"; py "performance testing"]);
    (py "housekeeper",
     list_to_set [py "cleaning"; py "sanitizing"; py "laundry"; py "organization";
                   py "time management"; py "attention to detail"; py "inventory";
                   py "safety procedures"; py "guest service"; py "housekeeping";
                   py "vacuuming"; py "mopping"; py "disinfection"])
  ].

Definition DOMAIN_PRESETS : list (str * gset str) :=
  [
    (py "data scientist",
     list_to_set [py "regression"; py "classification"; py "nlp";
                   py "feature engineering"; py "model deployment";
                   py "experiment tracking"; py "ml"]);
    (py "data analyst",
     list_to_set [py "a/b testing"; py "forecasting"; py "etl"; py "segmentation"; py "reporting"]);
    (py "frontend developer",
     list_to_set [py "accessibility"; py "lighthouse"; py "performance"; py "ux"]);
    (py "backend developer",
     list_to_set [py "microservices"; py "queue"; py "auth"; py "caching"]);
    (py "devops engineer",
     list_to_set [py "monitoring"; py "observability"; py "infrastructure as code";
                   py "sre"; py "blue/green"]);
    (py "cloud architect",
     list_to_set [py "disaster recovery"; py "cost optimization"; py "scalability";
                   py "multi region"]);
    (py "product manager",
     list_to_set [py "roadmap"; py "prioritization"; py "okrs"; py "kpi"; py "go to market"]);
    (py "ux designer",
     list_to_set [py "usability testing"; py "journey map"; py "persona";
                   py "heuristic evaluation"]);
    (py "business analyst",
     list_to_set [py "gap analysis"; py "process mapping"; py "requirements"]);
    (py "marketing manager",
     list_to_set [py "campaigns"; py "roi"; py "funnel"; py "brand strategy"]);
    (py "cybersecurity analyst",
     list_to_set [py "threat hunting"; py "incident response"; py "risk assessment"]);
    (py "qa engineer",
     list_to_set [py "test plans"; py "regression"; py "performance testing"]);
    (py "housekeeper",
     list_to_set [py "cleaning"; py "sanitizing"; py "housekeeping"; py "laundry";
                   py "organization"; py "safety procedures"; py "guest service";
                   py "disinfection"; py "vacuuming"; py "mopping"])
  ].

(** Lookup in a table by the first key that is a substring of the role. *)
Fixpoint preset_for {V} (presets : list (str * V)) (role_text : str) : option V :=
  match presets with
  | [] => None
  | (key, vocab) :: rest =>
      if Str.contains key role_text then Some vocab else preset_for rest role_text
  end.

(** [d[k]] on a table *)
Fixpoint getitem {V} (d : list (str * V)) (k : str) : result V :=
  match d with
  | [] => Raise KeyError
  | (k', v) :: d' => if decide (k = k') then Ok v else getitem d' k
  end.

(** ** [collections.Counter] *)

Module Counter.
(** A counter keeps its keys in the order of their first occurrence. *)
Fixpoint incr (k : str) (c : list (str * Z)) : list (str * Z) :=
  match c with
  | [] => [(k, 1)]
  | (k', n) :: c' =>
      if decide (k = k') then (k', n + 1) :: c' else (k', n) :: incr k c'
  end.

Definition of_list (tokens : list str) : list (str * Z) :=
  fold_left (fun c t => incr t c) tokens [].

(** [counter.get(k, 0)] *)
Fixpoint get (c : list (str * Z)) (k : str) : Z :=
  match c with
  | [] => 0
  | (k', n) :: c' => if decide (k = k') then n else get c' k
  end.

(** Stable insertion by decreasing count: [x] comes from before every
    entry of [l], so it goes in front of the entries that do not beat it. *)
Fixpoint insert (x : str * Z) (l : list (str * Z)) : list (str * Z) :=
  match l with
  | [] => [x]
  | y :: l' => if x.2 <? y.2 then y :: insert x l' else x :: l
  end.

(** [counter.most_common(n)]: the [n] largest counts, equal counts in the
    order of first occurrence. *)
Definition most_common (n : nat) (c : list (str * Z)) : list (str * Z) :=
  take n (foldr insert [] c).
End Counter.

#[global] Instance str_le_dec : RelDecision Str.le :=
  fun a b => decide (Str.leb a b = true).

(** [sorted(xs)] on strings *)
Definition sorted (xs : list str) : list str := merge_sort Str.le xs.

(** Truth value of a string: [if s:] *)
Definition truthy (s : str) : bool :=
  match s with [] => false | _ => true end.

(** [sum(xs)] *)
Definition sum (xs : list Z) : Z := foldr Z.add 0 xs.

(** [d[k]] on a dictionary *)
Definition dict_get {V} (d : gmap str V) (k : str) : result V :=
  match d !! k with
  | Some v => Ok v
  | None => Raise KeyError
  end.

Definition keys {V} (d : gmap str V) : list str := (map_to_list d).*1.
Definition values {V} (d : gmap str V) : list V := (map_to_list d).*2.

(** ** The analysis functions *)

Record ats_result := {
  score : Z;
  missing_keywords : list str;
  detected_sections : gmap str Z
}.

Record recruiter_scan := {
  highlights : str;
  ignored : str
}.

Record readability := {
  avg_sentence_length : spec_float;
  word_count : Z;
  estimated_read_time_min : spec_float
}.

Record visual_insights := {
  keyword_density : list (str * Z);
  section_balance : gmap str Z;
  readability_metrics : readability
}.

Record rewrite := {
  original : str;
  suggestion : str
}.

Definition soft : gset str :=
  list_to_set [py "communication"; py "leadership"; py "collaboration";
               py "time management"; py "attention to detail";
               py "customer service"; py "problem solving"; py "teamwork";
               py "stakeholder management"; py "presentation"].

Definition tools : gset str :=
  list_to_set [py "python"; py "java"; py "sql"; py "excel"; py "tableau";
               py "powerbi"; py "docker"; py "kubernetes"; py "git"; py "jira";
               py "react"; py "node"; py "tensorflow"; py "pytorch";
               py "terraform"; py "ansible"; py "aws"; py "gcp"; py "azure";
               py "postgres"; py "mysql"; py "redis"; py "kafka"; py "figma";
               py "selenium"; py "cypress"].

Definition heuristics : list (str * list str) :=
  [ (py "summary", [py "summary"; py "objective"; py "profile"]);
    (py "experience", [py "experience"; py "managed"; py "lead"; py "developed";
                       py "responsible"; py "achieved"]);
    (py "education", [py "bsc"; py "msc"; py "university"; py "degree"; py "gpa";
                      py "bachelor"; py "master"]);
    (py "skills", [py "skills"; py "python"; py "java"; py "sql"; py "excel";
                   py "communication"]);
    (py "projects", [py "project"; py "built"; py "implemented"; py "designed"]);
    (py "certifications", [py "certified"; py "certificate"; py "certification"]);
    (py "publications", [py "publication"; py "journal"; py "conference"]) ].

Definition vague_patterns : list str :=
  [py "responsible for"; py "worked on"; py "helped with"; py "assisted";
   py "involved in"].

Definition REWRITE_ADVICE : str :=
  py "Rewrite with action + metric. Example: 'Led a team of 8 to deliver X, achieving Y% improvement.'".

Definition NO_HIGHLIGHTS : str := py "No immediate highlights detected.".
Definition SHORT_HEADER : str := py "Short resume header; focus on punchy summary.".

Definition SOFT_SKILLS : str := py "Soft skills".
Definition TOOLS_TECH : str := py "Tools/Tech".
Definition DOMAIN : str := py "Domain".
Definition OTHER : str := py "Other".

Section Analysis.
Context {U : Unicode}.

Definition simple_tokenize (text : str) : list str :=
  Re.findall_tokens None (lower text).

Definition role_keywords_for (job_role job_desc : option str)
    (resume_text : str) : gset str :=
  let role_text := lower (default [] job_role) in
  match preset_for ROLE_PRESETS role_text with
  | Some vocab => vocab
  | None =>
      if truthy (default [] job_desc) then
        let tokens :=
          List.filter (fun t => 3 <=? len t)
                      (simple_tokenize (default [] job_desc)) in
        let common := Counter.most_common 60 (Counter.of_list tokens) in
        list_to_set (common.*1)
      else
        list_to_set
          ((Counter.most_common 40
              (Counter.of_list (simple_tokenize resume_text))).*1)
  end.

(** [cats[bucket].append(k)] *)
Definition append_to (cats : gmap str (list str)) (bucket k : str)
  : result (gmap str (list str)) :=
  l ← dict_get cats bucket;
  Ok (<[bucket := l ++ [k]]> cats).

Definition categorize_keywords (job_role : option str) (keywords : gset str)
  : result (gmap str (list str)) :=
  let role_text := lower (default [] job_role) in
  let domain : gset str := default ∅ (preset_for DOMAIN_PRESETS role_text) in
  let cats : gmap str (list str) :=
    <[SOFT_SKILLS := []]> (<[TOOLS_TECH := []]> (<[DOMAIN := []]>
      (<[OTHER := []]> ∅))) in
  for_each
    (fun cats k =>
       if decide (k ∈ soft) then append_to cats SOFT_SKILLS k
       else if decide (k ∈ tools) then append_to cats TOOLS_TECH k
       else if decide (k ∈ domain) then append_to cats DOMAIN k
       else append_to cats OTHER k)
    (sorted (elements keywords)) cats.

(** *** Section detection *)

(** [\w] at a position that may lie outside the subject *)
Definition is_word (c : option char) : bool :=
  match c with
  | Some c => isalnum c || (c =? Char.UNDERSCORE)%N
  | None => false
  end.

(** [\b] between two neighbouring positions *)
Definition word_boundary (before after : option char) : bool :=
  xorb (is_word before) (is_word after).

(** The escaped literal [lit] followed by [\b], with [re.IGNORECASE] *)
Fixpoint literal_boundary (lit : str) (before : option char) (s : str) : bool :=
  match lit with
  | [] => word_boundary before (head s)
  | p :: lit' =>
      match s with
      | c :: s' => ci_eq p c && literal_boundary lit' (Some c) s'
      | [] => false
      end
  end.

(** [pat.search(s)] for [pat = \b lit \b] *)
Fixpoint search_word (lit : str) (before : option char) (s : str) : bool :=
  (word_boundary before (head s) && literal_boundary lit before s)
  || match s with
     | c :: s' => search_word lit (Some c) s'
     | [] => false
     end.

Definition alias_patterns : list str := SECTION_ALIASES.*1.

(** The inner loop: the section of the first alias found in the line. *)
Definition match_heading (lowered : str) : result (option str) :=
  match List.find (fun alias => search_word alias None lowered) alias_patterns with
  | Some alias => sec ← getitem SECTION_ALIASES alias; Ok (Some sec)
  | None => Ok None
  end.

(** One turn of the loop over the lines; the state is [current] and
    [section_lengths]. *)
Definition heading_step (st : str * gmap str Z) (line : str)
  : result (str * gmap str Z) :=
  let '(current, section_lengths) := st in
  let is_heading := len line <=? 120 in
  matched ← match_heading (lower line);
  let current :=
    match matched with
    | Some sec => if truthy sec && is_heading then sec else current
    | None => current
    end in
  q ← floordiv (len line) 60;
  Ok (current,
      <[current := default 0 (section_lengths !! current) + Z.max 1 q]>
        section_lengths).

(** Pass 1: the weights collected under the headings. *)
Definition heading_pass (text : str) : result (gmap str Z) :=
  let lines :=
    List.map Str.rstrip
      (List.filter (fun l => truthy (Str.strip l)) (Str.splitlines text)) in
  st ← for_each heading_step lines (py "summary", ∅);
  Ok (filter (fun kv => kv.1 ∈ CANONICAL_SECTIONS) st.2).

(** Pass 2: the estimation from keyword counts. *)
Definition keyword_fallback (text : str) : result (gmap str Z) :=
  let counts := Counter.of_list (simple_tokenize text) in
  let fallback : gmap str Z :=
    fold_left
      (fun fb '(sec, kws) => <[sec := sum (List.map (Counter.get counts) kws)]> fb)
      heuristics ∅ in
  fallback ← for_each
    (fun fb k =>
       v ← dict_get fb k;
       if 0 <? v then q ← floordiv v 2; Ok (<[k := Z.max 1 q]> fb)
       else Ok fb)
    (keys fallback) fallback;
  Ok (filter (fun kv => 0 < kv.2) fallback).

Definition detect_sections (text : str) : result (gmap str Z) :=
  non_other ← heading_pass text;
  if bool_decide (non_other = ∅) || (sum (values non_other) <? 3)
  then keyword_fallback text
  else Ok non_other.

(** *** ATS score *)

Definition missing_of (resume_text : str) (role_keywords : gset str) : list str :=
  let token_set : gset str := list_to_set (simple_tokenize resume_text) in
  sorted (filter (fun k => k ∉ token_set) (elements role_keywords)).

Definition coverage_of (missing : list str) (role_keywords : gset str)
  : result spec_float :=
  ratio ← Float.int_truediv (len missing)
                            (Z.max 1 (Z.of_nat (size role_keywords)));
  Ok (Float.sub (Float.of_Z 1) ratio).

Definition compute_ats_score (resume_text : str) (role_keywords : gset str)
  : result ats_result :=
  let missing := missing_of resume_text role_keywords in
  coverage ← coverage_of missing role_keywords;
  section_info ← detect_sections resume_text;
  n ← Float.of_int (Z.of_nat (size section_info));
  richness ← Float.truediv n (Float.of_Z 6);
  score ← Float.to_int
    (Float.add (Float.mul (Float.of_Z 60) coverage)
               (Float.mul (Float.of_Z 40) (Float.min (Float.of_Z 1) richness)));
  Ok {| score := Z.max 0 (Z.min 100 score);
        missing_keywords := take 100 missing;
        detected_sections := section_info |}.

(** *** Recruiter scan *)

Definition first_lines (resume_text : str) : list str :=
  List.map Str.strip
    (List.filter (fun l => truthy (Str.strip l))
                 (take 20 (Str.splitlines resume_text))).

Definition analyze_recruiter_scan (resume_text : str) : recruiter_scan :=
  let first_lines := first_lines resume_text in
  let highlights := Str.join [Char.LF] (take 8 first_lines) in
  let ignored :=
    if 8 <? len first_lines then Str.join [Char.LF] (drop 8 first_lines)
    else SHORT_HEADER in
  {| highlights := if truthy highlights then highlights else NO_HIGHLIGHTS;
     ignored := ignored |}.

(** *** Visual insights *)

Definition analyze_visual_insights (resume_text : str) (role_keywords : gset str)
  : result visual_insights :=
  let tokens := simple_tokenize resume_text in
  let counter := Counter.of_list tokens in
  let keyword_counts :=
    List.map (fun k => (k, Counter.get counter k))
             (take 25 (sorted (elements role_keywords))) in
  sections ← detect_sections resume_text;
  let words := len tokens in
  let sentences :=
    Z.max 1 (Str.count 46%N resume_text + Str.count 33%N resume_text
             + Str.count 63%N resume_text) in
  avg_sentence_len ← Float.int_truediv words sentences;
  avg ← Float.round2 avg_sentence_len;
  w ← Float.of_int words;
  minutes ← Float.truediv w (Float.of_Z 200);
  read_time ← Float.round2 minutes;
  Ok {| keyword_density := keyword_counts;
        section_balance := sections;
        readability_metrics :=
          {| avg_sentence_length := avg;
             word_count := words;
             estimated_read_time_min := read_time |} |}.

(** *** Achievement bullets *)

Definition is_vague (bullet : str) : bool :=
  let lowered := lower bullet in
  existsb (fun pat => Str.contains pat lowered) vague_patterns.

Definition flagged (bullet : str) : bool :=
  is_vague bullet && (4 <=? len (Str.split bullet)).

Definition suggest_quantified_achievements (resume_text : str) : list rewrite :=
  let bullet_like := Re.findall_bullets 0 true resume_text in
  let suggestions :=
    fold_left
      (fun suggestions bullet =>
         if flagged bullet
         then suggestions ++ [{| original := Str.strip bullet;
                                 suggestion := REWRITE_ADVICE |}]
         else suggestions)
      (take 60 bullet_like) [] in
  take 20 suggestions.
End Analysis.

(** ** The score in closed form *)

(** What [compute_ats_score] computes from the number of missing keywords,
    the size of the keyword set and the number of detected sections: binary64
    arithmetic, then [int], which drops the fraction. *)
Definition score_formula (missing keywords sections : Z) : Z :=
  let coverage :=
    Float.sub (Float.of_Z 1)
      (Float.div (Float.exact missing) (Float.exact (Z.max 1 keywords))) in
  let richness :=
    Float.min (Float.of_Z 1) (Float.div (Float.of_Z sections) (Float.of_Z 6)) in
  Z.max 0 (Z.min 100
    (Float.trunc (Float.add (Float.mul (Float.of_Z 60) coverage)
                            (Float.mul (Float.of_Z 40) richness)))).

(** The score as the specification words it: the same expression over the
    rationals, rounded to the nearest integer. *)
Definition nearest_integer (x : Q) : Z := Qfloor (x + (1 # 2))%Q.

Definition specified_score (missing keywords sections : Z) : Z :=
  let coverage := (1 - inject_Z missing / inject_Z (Z.max 1 keywords))%Q in
  let richness := Qmin 1 (inject_Z sections / 6)%Q in
  Z.max 0 (Z.min 100 (nearest_integer (60 * coverage + 40 * richness)%Q)).

(** The value of the expression over the rationals, and how the score
    relates to it: the score is its floor, or one less when the value is an
    integer that the binary64 sum falls short of. *)
Definition exact_value (missing keywords sections : Z) : Q :=
  (60 * (1 - inject_Z missing / inject_Z (Z.max 1 keywords))
   + 40 * Qmin 1 (inject_Z sections / 6))%Q.

Definition near_floor (missing keywords sections : Z) : bool :=
  let v := exact_value missing keywords sections in
  let s := score_formula missing keywords sections in
  (s =? Qfloor v) || ((s =? Qfloor v - 1) && Qeq_bool v (inject_Z (Qfloor v))).

Definition near_floor_upto (keywords : nat) : bool :=
  forallb (fun k =>
    forallb (fun m =>
      forallb (fun n => near_floor (Z.of_nat m) (Z.of_nat k) (Z.of_nat n))
              (seq 0 8))
      (seq 0 (S k)))
    (seq 0 (S keywords)).

(** ** Predicates of the properties *)

(** Magnitude bound: the value is below [2 ^ B] in absolute value. *)
Definition mag_le (B : Z) (x : spec_float) : Prop :=
  match x with
  | S754_zero _ => True
  | S754_finite _ m e => Zpos (digits2_pos m) + e <= B
  | _ => False
  end.

(** Every weight of a section map is at least 1. *)
Definition weights_positive (m : gmap str Z) : Prop :=
  forall k w, m !! k = Some w -> 1 <= w.

(** The keys of a section map are canonical section names. *)
Definition canonical_keys (m : gmap str Z) : Prop :=
  forall k w, m !! k = Some w -> k ∈ CANONICAL_SECTIONS.

(** ** The worked example of the specification *)

Definition example_resume : str :=
  Str.join [Char.LF]
    [py "John Doe"; py "Summary"; py "Experienced engineer."; py "Experience";
     py "- responsible for managing a team of five people"].

Definition software_engineer_preset : gset str :=
  list_to_set [py "java"; py "python"; py "javascript"; py "react"; py "node";
               py "api"; py "rest"; py "graphql"; py "docker"; py "kubernetes";
               py "git"; py "ci/cd"; py "unit testing"; py "microservices";
               py "sql"; py "nosql"; py "design patterns"; py "testing"].

(** A resume of three lines without any heading. *)
Definition headless_resume : str :=
  Str.join [Char.LF]
    [py "Jane Roe"; py "Python developer since 2015"; py "Built data pipelines"].

(** ** The claims as the specification words them *)

(** The recruiter scan over the first 20 non-blank lines of the document. *)
Definition specified_recruiter_scan (resume_text : str) : recruiter_scan :=
  let non_blank :=
    List.map Str.strip
      (List.filter (fun l => truthy (Str.strip l)) (Str.splitlines resume_text)) in
  let selected := take 20 non_blank in
  {| highlights :=
       match selected with
       | [] => NO_HIGHLIGHTS
       | _ => Str.join [Char.LF] (take 8 selected)
       end;
     ignored :=
       if len non_blank <=? 8 then SHORT_HEADER
       else Str.join [Char.LF] (drop 8 selected) |}.

(** A page of 20 empty lines followed by a name and a title. *)
Definition name_after_blank_page : str :=
  replicate 20 Char.LF ++ py "Jane Doe, Senior Site Reliability Engineer".

(** A bullet line: optional leading whitespace, a glyph, whitespace, content. *)
Definition specified_bullet (line : str) : option str :=
  match Str.lstrip line with
  | g :: c :: rest =>
      if Re.glyph g && Char.isspace c
      then match Str.strip rest with [] => None | content => Some content end
      else None
  | _ => None
  end.

Definition specified_bullet_like (text : str) : list str :=
  omap specified_bullet (Str.splitlines text).

Definition indented_bullet : str :=
  py "  - worked on the customer data pipeline".

(** A run of whitespace. *)
Definition spaces (ws : str) : Prop := Forall (fun c => Char.isspace c = true) ws.

(** [group] is a non-empty piece of one line, up to the end of that line:
    the text [rest] after it is empty or starts with a line feed. *)
Definition line_tail (group rest : str) : Prop :=
  group <> [] /\ (Char.LF ∉ group)
  /\ (rest = [] \/ exists rest', rest = (Char.LF :: rest')).

(** Where a bullet of [suggest_quantified_achievements] sits in the text:
    its glyph is the first character of the text or follows a line feed
    directly, one or more whitespace characters follow the glyph, and the
    bullet is what is left of that line. *)
Definition bullet_occurrence (text bullet : str) : Prop :=
  exists before g ws after,
    text = before ++ g :: ws ++ bullet ++ after
    /\ (before = [] \/ exists before', before = (before' ++ [Char.LF]))
    /\ Re.glyph g = true
    /\ ws <> [] /\ spaces ws
    /\ line_tail bullet after.

(** The largest length of a Python string, [sys.maxsize]. *)
Definition PY_SSIZE_T_MAX : Z := 2 ^ 63 - 1.

(** The section detector with the trigger as the specification words it:
    fewer than 2 sections after pass 1, or a combined weight below 3. *)
Definition specified_detect_sections `{U : Unicode} (text : str)
  : result (gmap str Z) :=
  non_other ← heading_pass text;
  if (size non_other <? 2)%nat || (sum (values non_other) <? 3)
  then keyword_fallback text
  else Ok non_other.

(** ** The bullet pattern in words *)

(** The whitespace after the glyph is taken as far as it goes: in the text
    from the bullet on, no further run of whitespace is followed by a
    character that could start the bullet. *)
Definition greedy (tail : str) : Prop :=
  forall x c t, tail = x ++ c :: t -> x <> [] -> spaces x -> c = Char.LF.

(** One match of the pattern at the head of [s]: the start of the text or a
    line feed, a glyph, one or more whitespace characters, as many as
    possible, and the rest of the line, which is the group; [rest] is the
    text after the match. *)
Definition bullet_match (at_start : bool) (s group rest : str) : Prop :=
  exists before g ws,
    s = before ++ g :: ws ++ group ++ rest
    /\ (before = [] /\ at_start = true \/ before = [Char.LF])
    /\ Re.glyph g = true
    /\ ws <> [] /\ spaces ws
    /\ line_tail group rest
    /\ greedy (group ++ rest).

(** The matches that [re.findall] reports: the text is read from left to
    right; a position where the pattern does not match is passed over, and
    after a match the reading goes on where the match ended. *)
Inductive bullets_from : bool -> str -> list str -> Prop :=
  | bullets_end at_start : bullets_from at_start [] []
  | bullets_skip at_start c s bs :
      (forall group rest, ~ bullet_match at_start (c :: s) group rest) ->
      bullets_from false s bs ->
      bullets_from at_start (c :: s) bs
  | bullets_here at_start s group rest bs :
      bullet_match at_start s group rest ->
      bullets_from false rest bs ->
      bullets_from at_start s (group :: bs).

(** ** A law of [str.lower] *)

(** [str.lower] leaves the whitespace around a text in place: whitespace
    has no case and does not bear on the case of what it surrounds. *)
Definition lower_keeps_margins (U : Unicode) : Prop :=
  forall ws1 m ws2 : str,
    spaces ws1 -> spaces ws2 -> lower (ws1 ++ m ++ ws2) = ws1 ++ lower m ++ ws2.

(** A bullet with whitespace after its text. *)
Definition padded_bullet : str :=
  py "-  helped with the quarterly sales report  ".

(** ** Predicates of the further properties *)

(** [re.fullmatch] of the token pattern: a letter followed by token
    characters. *)
Definition is_token (t : str) : bool :=
  match t with
  | c :: rest => Re.token_start c && forallb Re.token_char rest
  | [] => false
  end.

(** The number of occurrences of a string in a list, [xs.count(k)]. *)
Definition occurrences (k : str) (xs : list str) : Z :=
  len (filter (fun x => x = k) xs).

(** The order of [most_common]: no entry is followed by a larger count. *)
Definition by_count : relation (str * Z) := fun a b => b.2 <= a.2.

(** ** Further examples *)

Definition data_analyst_preset : gset str :=
  list_to_set [py "sql"; py "excel"; py "powerbi"; py "tableau"; py "python";
               py "pandas"; py "visualization"; py "dashboard"; py "a/b testing";
               py "forecasting"; py "etl"; py "reporting"; py "statistics";
               py "segmentation"; py "ga4"; py "lookerstudio"].

(** A role label that names two presets. *)
Definition two_roles : str := py "Software Engineer and Data Analyst".

(** A job description for a role that has no preset. *)
Definition chef_description : str :=
  py "We are hiring a chef who cooks fresh pasta and bakes bread; the chef leads the kitchen".

(** ** The category map *)

Definition BUCKETS : gset str := {[ SOFT_SKILLS; TOOLS_TECH; DOMAIN; OTHER ]}.

(** A category map with its four lists. *)
Definition buckets (cats : gmap str (list str)) (a b c d : list str) : Prop :=
  dom cats = BUCKETS
  /\ cats !! SOFT_SKILLS = Some a /\ cats !! TOOLS_TECH = Some b
  /\ cats !! DOMAIN = Some c /\ cats !! OTHER = Some d.

(** ** Section weights *)

(** The lines that [detect_sections] reads: the non-blank lines, without
    their trailing whitespace. *)
Definition content_lines (text : str) : list str :=
  List.map Str.rstrip
    (List.filter (fun l => truthy (Str.strip l)) (Str.splitlines text)).

(** What one line adds to its section: [max(1, len(line) // 60)]. *)
Definition line_weight (line : str) : Z := Z.max 1 (len line / 60).

(** The number of tokens that are one of the keywords of a heuristic. *)
Definition heuristic_total (tokens : list str) (kws : list str) : Z :=
  sum (List.map (fun k => occurrences k tokens) kws).

(** ** Lines *)

(** A string that holds no line boundary of [str.splitlines]. *)
Definition one_line (l : str) : Prop := Forall (fun c => Char.islinebreak c = false) l.

(** A string that [str.strip] leaves as it is and that is not empty. *)
Definition stripped (l : str) : Prop := l <> [] /\ Str.strip l = l.

(** The head of a resume with ten non-blank lines. *)
Definition ten_lines : str :=
  Str.join [Char.LF]
    [py "Jane Roe"; py "Data Analyst"; py "jane.roe@example.org"; py "";
     py "Summary"; py "Analyst with six years in retail reporting.";
     py "Skills"; py "SQL, Excel, Tableau"; py "Experience";
     py "Acme Stores, 2019 to 2024"; py "  - built weekly sales dashboards"].

(** ** The parser: [utils/parser.py] *)

(** [s.endswith(suffix)] *)
Definition endswith (suffix s : str) : bool :=
  Str.startswith (reverse suffix) (reverse s).

(** The PDF libraries and the codec are outside the repository.  What each
    returns on the bytes of a file is a parameter: the text of each page
    ([None] where the library gives none) for [pdfplumber] and [fitz], the
    text of the document for [pdfminer], the decoded text for
    [bytes.decode("utf-8", errors="ignore")]; [None] as a whole stands for a
    raised exception.  The libraries read the file from its start: the
    upload is a fresh stream, [fitz] is given [getvalue()], and the stream is
    rewound before [pdfminer] and after every failed attempt. *)
Record libraries (bytes : Type) := {
  pdfplumber : bytes -> option (list (option str));
  fitz : bytes -> option (list (option str));
  pdfminer : bytes -> option (option str);
  decode : bytes -> option str
}.
Arguments pdfplumber {bytes}.
Arguments fitz {bytes}.
Arguments pdfminer {bytes}.
Arguments decode {bytes}.

Section Parser.
Context {U : Unicode} {bytes : Type} (lib : libraries bytes).

Definition _extract_pdf_text_pdfplumber (file_like : bytes) : option str :=
  match pdfplumber lib file_like with
  | Some pages => Some (Str.strip (Str.join [Char.LF] (List.map (default []) pages)))
  | None => None
  end.

Definition _extract_pdf_text_pymupdf (file_like : bytes) : option str :=
  match fitz lib file_like with
  | Some pages => Some (Str.strip (Str.join [Char.LF] (List.map (default []) pages)))
  | None => None
  end.

Definition _extract_pdf_text_pdfminer (file_like : bytes) : option str :=
  match pdfminer lib file_like with
  | Some text => Some (Str.strip (default [] text))
  | None => None
  end.

(** The loop of [extract_text_from_pdf] over the extractors. *)
Fixpoint first_text (fns : list (bytes -> option str)) (file_like : bytes) : str :=
  match fns with
  | [] => []
  | fn :: fns' =>
      match fn file_like with
      | Some text =>
          if truthy text && (0 <? len (Str.strip text)) then text
          else first_text fns' file_like
      | None => first_text fns' file_like
      end
  end.

Definition extract_text_from_pdf (file_like : bytes) : str :=
  first_text [_extract_pdf_text_pdfplumber; _extract_pdf_text_pymupdf;
              _extract_pdf_text_pdfminer] file_like.

Definition extract_text_from_any (file_like : bytes) (mime_or_name : option str)
  : str :=
  let lowered := lower (default [] mime_or_name) in
  if endswith (py ".pdf") lowered || Str.contains (py "pdf") lowered
  then extract_text_from_pdf file_like
  else default [] (decode lib file_like).
End Parser.

(** ** The review of the application: [app.py] and [prompts.py] *)

(** A template of [str.format]: literal text and named fields, as the
    braces of the source delimit them. *)
Inductive piece :=
  | Lit (s : str)
  | Field (name : str).

(** [template.format] with keyword arguments that are strings: the fields
    are looked up from left to right. *)
Fixpoint format (template : list piece) (kwargs : list (str * str)) : result str :=
  match template with
  | [] => Ok []
  | Lit s :: rest => tail ← format rest kwargs; Ok (s ++ tail)
  | Field name :: rest =>
      v ← getitem kwargs name;
      tail ← format rest kwargs;
      Ok (v ++ tail)
  end.

Definition FEEDBACK_PROMPT_TEMPLATE : list piece :=
  [ Lit (py "You are an expert resume reviewer and ATS. Analyze the provided resume text."
         ++ [Char.LF] ++ py "Target role: ");
    Field (py "role");
    Lit (py ". Job description (optional): ");
    Field (py "job_desc");
    Lit (py "." ++ [Char.LF] ++ py "Key role keywords: ");
    Field (py "keywords");
    Lit (py "." ++ [Char.LF]
         ++ py "Return STRICT JSON with keys: sections (object with summary, experience, education, skills, projects ...),"
         ++ [Char.LF]
         ++ py "scores (object numeric 0-100 per section), improved_resume (string)."
         ++ [Char.LF]
         ++ py "Be concise and focus on: missing skills/keywords, formatting & clarity, vague language, "
         ++ [Char.LF]
         ++ py "and tailoring experience to the role with quantified outcomes."
         ++ [Char.LF; Char.LF] ++ py "RESUME:<<<" ++ [Char.LF]);
    Field (py "resume_text");
    Lit ([Char.LF] ++ py ">>>") ].

(** The result of [run_review]; [F] is the type of what the language model
    client returns. *)
Record review (F : Type) := {
  ats : ats_result;
  recruiter : recruiter_scan;
  visuals : visual_insights;
  feedback : F;
  quantified : list rewrite
}.
Arguments ats {F}.
Arguments recruiter {F}.
Arguments visuals {F}.
Arguments feedback {F}.
Arguments quantified {F}.

(** [x or default] on an optional string *)
Definition or_else (x : option str) (d : str) : str :=
  if truthy (default [] x) then default [] x else d.

Section Review.
Context {U : Unicode} {F : Type}.

(** [run_review], and the closure [_run] of [main] that repeats it.  The
    client that [get_llm_client] builds from the environment is outside the
    repository's pure code: its method [generate_structured_feedback] is a
    parameter. *)
Definition run_review (generate_structured_feedback : str -> F)
    (resume_text : str) (job_role job_desc : option str) : result (review F) :=
  let role_keywords := role_keywords_for job_role job_desc resume_text in
  ats ← compute_ats_score resume_text role_keywords;
  let recruiter := analyze_recruiter_scan resume_text in
  visuals ← analyze_visual_insights resume_text role_keywords;
  prompt ← format FEEDBACK_PROMPT_TEMPLATE
    [ (py "role", or_else job_role (py "(unspecified role)"));
      (py "job_desc", or_else job_desc []);
      (py "keywords",
       take 1500 (Str.join (py ", ") (sorted (elements role_keywords))));
      (py "resume_text", take (Z.to_nat 12000) resume_text) ];
  let feedback := generate_structured_feedback prompt in
  let quantified_suggestions := suggest_quantified_achievements resume_text in
  Ok {| ats := ats; recruiter := recruiter; visuals := visuals;
        feedback := feedback; quantified := quantified_suggestions |}.
End Review.

(** ** The score over the keyword sets of the resolver *)

(** The score does not fall when one section more is found or one keyword
    fewer is missing: the check over all keyword sets of up to [keywords]
    entries. *)
Definition score_steps_up (keywords : nat) : bool :=
  forallb (fun k =>
    forallb (fun m =>
      forallb (fun n =>
        let s := score_formula (Z.of_nat m) (Z.of_nat k) (Z.of_nat n) in
        (s <=? score_formula (Z.of_nat m) (Z.of_nat k) (Z.of_nat (S n)))
        && (s <=? score_formula (Z.of_nat (pred m)) (Z.of_nat k) (Z.of_nat n)))
        (seq 0 8))
      (seq 0 (S k)))
    (seq 0 (S keywords)).

(** A resume that adds a skills section to the worked example. *)
Definition example_with_skills : str :=
  example_resume ++ [Char.LF] ++ py "Skills" ++ [Char.LF]
    ++ py "Python, Java and SQL; Docker and Git".

(** ** The rewrite prompt of the application *)

Definition ACHIEVEMENT_REWRITE_PROMPT : list piece :=
  [ Lit (py "You are an expert resume coach. Rewrite vague resume bullets to be quantified and specific."
         ++ [Char.LF]
         ++ py "Return STRICT JSON with an array 'suggestions', each item: {original: str, suggestion: str}."
         ++ [Char.LF] ++ py "Context: Target role: ");
    Field (py "role");
    Lit (py ". Job description (optional): ");
    Field (py "job_desc");
    Lit (py "." ++ [Char.LF]
         ++ py "Focus on making each bullet action-oriented and include realistic metrics inferred from context."
         ++ [Char.LF; Char.LF] ++ py "BULLETS:<<<" ++ [Char.LF]);
    Field (py "bullets");
    Lit ([Char.LF] ++ py ">>>") ].

(** [_orig(q)] of [main] on a rewrite [q] of the flagger, a dictionary with
    the keys "original" and "suggestion": its original, or [str(q)] when
    that is empty.  [repr] stands for [str] on such a dictionary. *)
Definition _orig (repr : rewrite -> str) (q : rewrite) : str :=
  if truthy (original q) then original q else repr q.

(** The rewrite prompt [prompt_q] of [main]: one line ["- " + _orig(q)] for
    each suggestion, joined by line feeds and cut to 4000 characters, goes
    into the template with the role and the job description. *)
Definition prompt_q (repr : rewrite -> str) (quantified : list rewrite)
    (job_role job_desc : option str) : result str :=
  let bullets :=
    Str.join [Char.LF] (List.map (fun q => py "- " ++ _orig repr q) quantified) in
  format ACHIEVEMENT_REWRITE_PROMPT
    [ (py "role", or_else job_role (py "(unspecified)"));
      (py "job_desc", or_else job_desc []);
      (py "bullets", take 4000 bullets) ].

(** * Properties *)

(** ** Binary64 arithmetic stays finite on bounded operands *)

Lemma digits2_pos_size p : digits2_pos p = Pos.size p.
Proof. induction p; simpl; congruence. Qed.

Lemma Zdigits2_nonneg m : 0 <= Zdigits2 m.
Proof. destruct m; simpl; lia. Qed.

Lemma Zdigits2_pos_bounds p :
  2 ^ (Zpos (digits2_pos p) - 1) <= Zpos p < 2 ^ Zpos (digits2_pos p).
Proof.
  rewrite digits2_pos_size. split.
  - pose proof (Pos.size_le p) as H.
    assert (H' : 2 ^ Zpos (Pos.size p) <= 2 * Zpos p).
    { change 2 with (Zpos 2) at 1. rewrite <- Pos2Z.inj_pow. lia. }
    replace (Zpos (Pos.size p)) with (Z.succ (Zpos (Pos.size p) - 1)) in H' by lia.
    rewrite Z.pow_succ_r in H' by lia. lia.
  - pose proof (Pos.size_gt p) as H.
    change 2 with (Zpos 2). rewrite <- Pos2Z.inj_pow. lia.
Qed.

Lemma Zdigits2_le m d : 0 <= m -> 0 <= d -> m < 2 ^ d -> Zdigits2 m <= d.
Proof.
  intros Hm Hd Hlt. destruct m as [|p|p]; simpl; [lia| |lia].
  destruct (Zdigits2_pos_bounds p) as [Hlo _].
  destruct (Z.le_gt_cases (Zpos (digits2_pos p)) d) as [|Hgt]; [assumption|].
  exfalso. assert (2 ^ d <= 2 ^ (Zpos (digits2_pos p) - 1))
    by (apply Z.pow_le_mono_r; lia). lia.
Qed.

Lemma Zdigits2_lt m : 0 <= m -> m < 2 ^ Zdigits2 m.
Proof.
  intros Hm. destruct m as [|p|p]; simpl; [lia| |lia].
  apply Zdigits2_pos_bounds.
Qed.

Lemma mag_le_weaken B B' x : mag_le B x -> B <= B' -> mag_le B' x.
Proof. destruct x; simpl; auto; lia. Qed.

Lemma shr_1_digits mrs :
  Zdigits2 (shr_m (shr_1 mrs)) = Z.max 0 (Zdigits2 (shr_m mrs) - 1)
  /\ (0 <= shr_m mrs -> 0 <= shr_m (shr_1 mrs)).
Proof.
  destruct mrs as [m r s]. destruct m as [|[p|p|]|[p|p|]]; simpl; split; lia.
Qed.

Lemma iter_shr_digits p : forall mrs,
  Zdigits2 (shr_m (SpecFloat.iter_pos shr_1 p mrs)) = Z.max 0 (Zdigits2 (shr_m mrs) - Zpos p)
  /\ (0 <= shr_m mrs -> 0 <= shr_m (SpecFloat.iter_pos shr_1 p mrs)).
Proof.
  induction p as [p IH|p IH|]; intros mrs; simpl.
  - destruct (shr_1_digits mrs) as [E1 N1].
    destruct (IH (shr_1 mrs)) as [E2 N2].
    destruct (IH (SpecFloat.iter_pos shr_1 p (shr_1 mrs))) as [E3 N3].
    split; [|tauto]. rewrite E3, E2, E1. lia.
  - destruct (IH mrs) as [E2 N2].
    destruct (IH (SpecFloat.iter_pos shr_1 p mrs)) as [E3 N3].
    split; [|tauto]. rewrite E3, E2. lia.
  - apply shr_1_digits.
Qed.

Lemma shr_record_of_loc_m m l : shr_m (shr_record_of_loc m l) = m.
Proof. destruct l as [|[]]; reflexivity. Qed.

Section Binary64.
Local Abbreviation prec := Float.prec.
Local Abbreviation emax := Float.emax.

Lemma fexp_le x B : x <= B -> -1074 <= B -> fexp prec emax x <= B.
Proof. unfold fexp, emin, Float.prec, Float.emax. lia. Qed.

Lemma shr_fexp_bound m e l B :
  0 <= m -> Zdigits2 m + e <= B -> -1074 <= B ->
  0 <= shr_m (fst (shr_fexp prec emax m e l))
  /\ Zdigits2 (shr_m (fst (shr_fexp prec emax m e l)))
      + snd (shr_fexp prec emax m e l) <= B.
Proof.
  intros Hm Hd HB. unfold shr_fexp, shr.
  pose proof (fexp_le (Zdigits2 m + e) B Hd HB) as Hf.
  pose proof (Zdigits2_nonneg m) as Hn.
  destruct (fexp prec emax (Zdigits2 m + e) - e) as [|p|p] eqn:E; simpl;
    rewrite ?shr_record_of_loc_m; try (split; lia).
  destruct (iter_shr_digits p (shr_record_of_loc m l)) as [E1 N1].
  rewrite shr_record_of_loc_m in *. split; [auto|]. rewrite E1. lia.
Qed.

Lemma round_nearest_even_bound m l :
  0 <= m ->
  0 <= round_nearest_even m l
  /\ Zdigits2 (round_nearest_even m l) <= Zdigits2 m + 1.
Proof.
  intros Hm.
  assert (Hs : Zdigits2 (m + 1) <= Zdigits2 m + 1).
  { apply Zdigits2_le; [lia|pose proof (Zdigits2_nonneg m); lia|].
    pose proof (Zdigits2_lt m Hm). rewrite Z.pow_add_r by (pose proof (Zdigits2_nonneg m); lia).
    lia. }
  unfold round_nearest_even. destruct l as [|[]]; try destruct (Z.even m); split; lia.
Qed.

(** Rounding does not overflow below [2 ^ 970]. *)
Lemma binary_round_aux_bound s m e l B :
  0 <= m -> Zdigits2 m + e <= B -> -1074 <= B <= 970 ->
  mag_le (B + 1) (binary_round_aux prec emax s m e l).
Proof.
  intros Hm Hd HB. unfold binary_round_aux.
  destruct (shr_fexp_bound m e l B Hm Hd ltac:(lia)) as [N1 D1].
  destruct (shr_fexp prec emax m e l) as [mrs1 e1]; simpl in N1, D1.
  destruct (round_nearest_even_bound (shr_m mrs1) (loc_of_shr_record mrs1) N1)
    as [N2 D2].
  set (mr := round_nearest_even (shr_m mrs1) (loc_of_shr_record mrs1)) in *.
  destruct (shr_fexp_bound mr e1 loc_Exact (B + 1) N2 ltac:(lia) ltac:(lia))
    as [N3 D3].
  destruct (shr_fexp prec emax mr e1 loc_Exact) as [mrs2 e2]; simpl in N3, D3.
  destruct (shr_m mrs2) as [|p|p]; simpl in *; [exact I| |lia].
  assert (He : e2 <= emax - prec) by (unfold Float.emax, Float.prec; lia).
  apply Z.leb_le in He. rewrite He. simpl. lia.
Qed.

Lemma pos_iter_xO p d : Zpos (Pos.iter xO p d) = Zpos p * 2 ^ Zpos d.
Proof.
  induction d as [|d IH] using Pos.peano_ind.
  - simpl. lia.
  - rewrite Pos.iter_succ, Pos2Z.inj_xO, IH, Pos2Z.inj_succ, Z.pow_succ_r by lia.
    lia.
Qed.

Lemma shl_align_bound mx ex ex' B :
  Zpos (digits2_pos mx) + ex <= B ->
  Zpos (digits2_pos (fst (shl_align mx ex ex'))) + snd (shl_align mx ex ex') <= B.
Proof.
  intros Hd. unfold shl_align.
  destruct (ex' - ex) as [|d|d] eqn:E; simpl; try lia.
  pose proof (pos_iter_xO mx d) as Hv.
  pose proof (Zdigits2_pos_bounds mx) as [_ Hlt].
  assert (Zdigits2 (Zpos (Pos.iter xO mx d)) <= Zpos (digits2_pos mx) + Zpos d).
  { apply Zdigits2_le; [lia|lia|]. rewrite Hv, Z.pow_add_r by lia.
    apply Z.mul_lt_mono_pos_r; [apply Z.pow_pos_nonneg; lia|lia]. }
  simpl in H. lia.
Qed.

Lemma shl_align_value mx ex ez :
  ez <= ex -> Zpos (fst (shl_align mx ex ez)) = Zpos mx * 2 ^ (ex - ez).
Proof.
  intros Hle. unfold shl_align.
  destruct (ez - ex) as [|d|d] eqn:E; simpl.
  - replace (ex - ez) with 0 by lia. lia.
  - lia.
  - rewrite pos_iter_xO. f_equal. f_equal. lia.
Qed.

Lemma binary_round_bound s m e B :
  Zpos (digits2_pos m) + e <= B -> -1074 <= B <= 970 ->
  mag_le (B + 1) (binary_round prec emax s m e).
Proof.
  intros Hd HB. unfold binary_round.
  pose proof (shl_align_bound m e
    (fexp prec emax (Zpos (digits2_pos m) + e)) B Hd) as Ha.
  destruct (shl_align m e _) as [mz ez]; simpl in Ha.
  apply binary_round_aux_bound; simpl; lia.
Qed.

Lemma binary_normalize_bound z e B :
  Zdigits2 z + e <= B -> -1074 <= B <= 970 ->
  mag_le (B + 1) (binary_normalize prec emax z e false).
Proof.
  intros Hd HB. destruct z; simpl in *; [exact I| |];
    apply binary_round_bound; lia.
Qed.

Lemma mul_bound Bx By x y :
  mag_le Bx x -> mag_le By y -> -1074 <= Bx + By <= 970 ->
  mag_le (Bx + By + 1) (SFmul prec emax x y).
Proof.
  intros Hx Hy HB.
  destruct x as [sx|sx| |sx mx ex], y as [sy|sy| |sy my ey];
    simpl in Hx, Hy; try contradiction; try exact I.
  unfold SFmul. apply binary_round_aux_bound; [lia| |lia].
  pose proof (Zdigits2_pos_bounds mx) as [_ Hmx].
  pose proof (Zdigits2_pos_bounds my) as [_ Hmy].
  assert (Zdigits2 (Zpos (mx * my)) <= Zpos (digits2_pos mx) + Zpos (digits2_pos my)).
  { apply Zdigits2_le; [lia|lia|]. rewrite Z.pow_add_r, Pos2Z.inj_mul by lia.
    nia. }
  lia.
Qed.

(** The exact sum of two aligned mantissas. *)
Lemma aligned_sum_bound sx mx ex sy my ey B (neg : bool) :
  Zpos (digits2_pos mx) + ex <= B -> Zpos (digits2_pos my) + ey <= B ->
  let ez := Z.min ex ey in
  let a := cond_Zopp sx (Zpos (fst (shl_align mx ex ez))) in
  let b := cond_Zopp sy (Zpos (fst (shl_align my ey ez))) in
  Zdigits2 (if neg then a - b else a + b) + ez <= B + 1.
Proof.
  intros Hx Hy ez a b.
  assert (Ha : Z.abs a < 2 ^ (B - ez)).
  { subst a. rewrite (shl_align_value mx ex ez) by lia.
    pose proof (Zdigits2_pos_bounds mx) as [_ Hmx].
    assert (Zpos mx * 2 ^ (ex - ez) < 2 ^ (B - ez)).
    { replace (B - ez) with ((B - ex) + (ex - ez)) by lia.
      rewrite Z.pow_add_r by lia.
      apply Z.mul_lt_mono_pos_r; [apply Z.pow_pos_nonneg; lia|].
      eapply Z.lt_le_trans; [exact Hmx|]. apply Z.pow_le_mono_r; lia. }
    destruct sx; simpl; lia. }
  assert (Hb : Z.abs b < 2 ^ (B - ez)).
  { subst b. rewrite (shl_align_value my ey ez) by lia.
    pose proof (Zdigits2_pos_bounds my) as [_ Hmy].
    assert (Zpos my * 2 ^ (ey - ez) < 2 ^ (B - ez)).
    { replace (B - ez) with ((B - ey) + (ey - ez)) by lia.
      rewrite Z.pow_add_r by lia.
      apply Z.mul_lt_mono_pos_r; [apply Z.pow_pos_nonneg; lia|].
      eapply Z.lt_le_trans; [exact Hmy|]. apply Z.pow_le_mono_r; lia. }
    destruct sy; simpl; lia. }
  assert (HBz : 0 <= B - ez).
  { destruct (Z.le_gt_cases 0 (B - ez)); [assumption|].
    rewrite Z.pow_neg_r in Ha by lia. lia. }
  set (z := if neg then a - b else a + b).
  assert (Hz : Z.abs z < 2 ^ (B - ez + 1)).
  { rewrite Z.pow_add_r by lia. subst z. destruct neg; lia. }
  assert (Zdigits2 (Z.abs z) <= B - ez + 1) by (apply Zdigits2_le; lia).
  assert (Zdigits2 (Z.abs z) = Zdigits2 z) by (destruct z; reflexivity).
  lia.
Qed.

Lemma add_bound B x y :
  mag_le B x -> mag_le B y -> -1074 <= B + 1 <= 970 ->
  mag_le (B + 2) (SFadd prec emax x y).
Proof.
  intros Hx Hy HB.
  destruct x as [sx|sx| |sx mx ex], y as [sy|sy| |sy my ey];
    simpl in Hx, Hy; try contradiction.
  - destruct sx, sy; exact I.
  - simpl. lia.
  - simpl. lia.
  - unfold SFadd.
    replace (B + 2) with ((B + 1) + 1) by lia.
    apply binary_normalize_bound; [|lia].
    apply (aligned_sum_bound sx mx ex sy my ey B false); assumption.
Qed.

Lemma sub_bound B x y :
  mag_le B x -> mag_le B y -> -1074 <= B + 1 <= 970 ->
  mag_le (B + 2) (SFsub prec emax x y).
Proof.
  intros Hx Hy HB.
  destruct x as [sx|sx| |sx mx ex], y as [sy|sy| |sy my ey];
    simpl in Hx, Hy; try contradiction.
  - destruct sx, sy; exact I.
  - simpl. lia.
  - simpl. lia.
  - unfold SFsub.
    replace (B + 2) with ((B + 1) + 1) by lia.
    apply binary_normalize_bound; [|lia].
    apply (aligned_sum_bound sx mx ex sy my ey B true); assumption.
Qed.

Lemma div_core_bound mx ex my ey B :
  Zpos (digits2_pos mx) + ex - (Zpos (digits2_pos my) + ey) + 1 <= B ->
  -1074 <= B ->
  0 <= fst (fst (SFdiv_core_binary prec emax (Zpos mx) ex (Zpos my) ey))
  /\ Zdigits2 (fst (fst (SFdiv_core_binary prec emax (Zpos mx) ex (Zpos my) ey)))
      + snd (fst (SFdiv_core_binary prec emax (Zpos mx) ex (Zpos my) ey)) <= B.
Proof.
  intros Hd HB. unfold SFdiv_core_binary.
  set (d1 := Zdigits2 (Zpos mx)). set (d2 := Zdigits2 (Zpos my)).
  set (e' := Z.min (fexp prec emax (d1 + ex - (d2 + ey))) (ex - ey)).
  set (s := ex - ey - e').
  set (m' := match s with Z.pos _ => Z.shiftl (Zpos mx) s | 0 => Zpos mx
             | Z.neg _ => 0 end).
  assert (Hs : 0 <= s) by (subst s e'; lia).
  assert (Hm' : m' = Zpos mx * 2 ^ s).
  { subst m'. destruct s as [|p|p] eqn:E; [simpl; lia| |lia].
    rewrite Z.shiftl_mul_pow2 by lia. reflexivity. }
  pose proof (Z_div_mod m' (Zpos my) ltac:(lia)) as Hdm.
  destruct (Z.div_eucl m' (Zpos my)) as [q r]. simpl.
  destruct Hdm as [Heq Hr].
  pose proof (Zdigits2_pos_bounds mx) as [_ Hmx].
  pose proof (Zdigits2_pos_bounds my) as [Hmy _].
  assert (Ed1 : d1 = Zpos (digits2_pos mx)) by reflexivity.
  assert (Ed2 : d2 = Zpos (digits2_pos my)) by reflexivity.
  rewrite <- Ed1 in Hmx, Hd. rewrite <- Ed2 in Hmy, Hd.
  assert (Hd1 : 0 < d1) by lia.
  assert (Hd2 : 0 < d2) by lia.
  assert (Hq : 0 <= q) by nia.
  assert (Hm'lt : m' < 2 ^ (d1 + s)).
  { rewrite Hm', Z.pow_add_r by lia.
    apply Z.mul_lt_mono_pos_r; [apply Z.pow_pos_nonneg; lia|exact Hmx]. }
  assert (Hp2 : 0 < 2 ^ (d2 - 1)) by (apply Z.pow_pos_nonneg; lia).
  assert (Hdq : Zdigits2 q <= Z.max 0 (d1 + s - d2 + 1)).
  { destruct (Z.le_gt_cases 0 (d1 + s - d2 + 1)) as [Hk|Hk].
    - rewrite Z.max_r by lia. apply Zdigits2_le; [lia|lia|].
      destruct (Z.lt_ge_cases q (2 ^ (d1 + s - d2 + 1))) as [|Hge]; [assumption|].
      exfalso.
      assert (2 ^ (d1 + s) = 2 ^ (d1 + s - d2 + 1) * 2 ^ (d2 - 1)).
      { rewrite <- Z.pow_add_r by lia. f_equal. lia. }
      assert (2 ^ (d1 + s - d2 + 1) * 2 ^ (d2 - 1) <= q * Zpos my).
      { apply Z.mul_le_mono_nonneg; [apply Z.pow_nonneg| | |]; lia. }
      lia.
    - assert (2 ^ (d1 + s) <= 2 ^ (d2 - 1)) by (apply Z.pow_le_mono_r; lia).
      assert (q = 0) by nia. subst q. simpl. lia. }
  split; [exact Hq|].
  assert (He' : e' <= B).
  { subst e'. pose proof (fexp_le (d1 + ex - (d2 + ey)) B ltac:(lia) HB). lia. }
  subst s. lia.
Qed.

Lemma div_bound Bx Ly B x sy my ey :
  mag_le Bx x -> Ly <= Zpos (digits2_pos my) + ey ->
  Bx - Ly + 1 <= B -> -1074 <= B <= 970 ->
  mag_le (B + 1) (SFdiv prec emax x (S754_finite sy my ey)).
Proof.
  intros Hx Hy HB Hr.
  destruct x as [sx|sx| |sx mx ex]; simpl in Hx; try contradiction; [exact I|].
  unfold SFdiv.
  destruct (div_core_bound mx ex my ey B ltac:(lia) ltac:(lia)) as [Hq Hd].
  destruct (SFdiv_core_binary prec emax (Zpos mx) ex (Zpos my) ey) as [[q e'] l].
  simpl in Hq, Hd. apply binary_round_aux_bound; lia.
Qed.

Lemma Zdigits2_mono a b : 0 <= a <= b -> Zdigits2 a <= Zdigits2 b.
Proof.
  intros [Ha Hab]. apply Zdigits2_le; [lia|apply Zdigits2_nonneg|].
  pose proof (Zdigits2_lt b ltac:(lia)). lia.
Qed.

Lemma mag_le_finite B x : mag_le B x -> Float.is_finite x = true.
Proof. destruct x; simpl; intros H; auto; contradiction. Qed.

Lemma to_int_ok B x : mag_le B x -> exists z, Float.to_int x = Ok z.
Proof. destruct x; simpl; intros H; try contradiction; eauto. Qed.

Lemma int_truediv_ok a b B :
  0 <= a -> 0 < b -> Zdigits2 a - Zdigits2 b + 1 <= B -> -1074 <= B <= 970 ->
  exists q, Float.int_truediv a b = Ok q /\ mag_le (B + 1) q.
Proof.
  intros Ha Hb Hd HB. unfold Float.int_truediv.
  destruct (Z.eqb_spec b 0) as [|_]; [lia|].
  destruct b as [|pb|pb]; try lia. simpl Float.exact at 2.
  assert (Hm : mag_le (B + 1) (Float.div (Float.exact a) (S754_finite false pb 0))).
  { unfold Float.div.
    apply (div_bound (Zdigits2 a) (Zdigits2 (Zpos pb))); simpl in *; try lia.
    destruct a; simpl; first [exact I|lia]. }
  rewrite (mag_le_finite _ _ Hm). eauto.
Qed.

Lemma of_int_ok n B :
  Zdigits2 n <= B -> -1074 <= B <= 970 ->
  exists x, Float.of_int n = Ok x /\ mag_le (B + 1) x.
Proof.
  intros Hd HB. unfold Float.of_int.
  assert (Hm : mag_le (B + 1) (Float.of_Z n)).
  { unfold Float.of_Z. apply binary_normalize_bound; lia. }
  rewrite (mag_le_finite _ _ Hm). eauto.
Qed.

Lemma round2_ok B x :
  mag_le B x -> 0 <= B <= 900 -> exists r, Float.round2 x = Ok r.
Proof.
  intros Hx HB. destruct x as [s|s| |s m e]; simpl in Hx; try contradiction;
    [simpl; eauto|].
  unfold Float.round2.
  set (num := Zpos m * 100).
  set (n := if 0 <=? e then num * 2 ^ e
            else let d := 2 ^ (- e) in
                 let q := num / d in
                 match 2 * (num mod d) ?= d with
                 | Lt => q | Gt => q + 1
                 | Eq => if Z.even q then q else q + 1 end).
  pose proof (Zdigits2_pos_bounds m) as [_ Hm].
  set (dm := Zpos (digits2_pos m)) in *.
  assert (Hdm : 0 < dm) by (subst dm; lia).
  assert (Hnum : 0 <= num < 2 ^ (dm + 7)).
  { subst num. rewrite Z.pow_add_r by lia. change (2 ^ 7) with 128. lia. }
  assert (Hn : 0 <= n < 2 ^ (B + 8)).
  { subst n. destruct (Z.leb_spec 0 e) as [He|He].
    - assert (0 < 2 ^ e) by (apply Z.pow_pos_nonneg; lia).
      split; [nia|].
      assert (num * 2 ^ e < 2 ^ (dm + 7) * 2 ^ e) by nia.
      rewrite <- Z.pow_add_r in H0 by lia.
      eapply Z.lt_le_trans; [exact H0|]. apply Z.pow_le_mono_r; lia.
    - cbv zeta.
      assert (Hd : 0 < 2 ^ (- e)) by (apply Z.pow_pos_nonneg; lia).
      pose proof (Z.div_pos num (2 ^ (- e)) ltac:(lia) Hd) as Hq0.
      pose proof (Z.mul_div_le num (2 ^ (- e)) Hd) as Hqd.
      assert (Hq : num / 2 ^ (- e) + 1 < 2 ^ (B + 8)).
      { assert (Hp : 2 ^ (B + 8) = 2 * 2 ^ (B + 7)).
        { replace (B + 8) with (Z.succ (B + 7)) by lia.
          rewrite Z.pow_succ_r by lia. reflexivity. }
        assert (1 <= 2 ^ (B + 7)).
        { change 1 with (2 ^ 0). apply Z.pow_le_mono_r; lia. }
        assert (num / 2 ^ (- e) < 2 ^ (B + 7)); [|lia].
        destruct (Z.le_gt_cases 0 (dm + 7 + e)) as [Hk|Hk].
        - assert (num / 2 ^ (- e) < 2 ^ (dm + 7 + e)).
          { apply Z.div_lt_upper_bound; [lia|].
            rewrite <- Z.pow_add_r by lia.
            replace (- e + (dm + 7 + e)) with (dm + 7) by lia. lia. }
          assert (2 ^ (dm + 7 + e) <= 2 ^ (B + 7))
            by (apply Z.pow_le_mono_r; lia).
          lia.
        - assert (2 ^ (dm + 7) <= 2 ^ (- e)) by (apply Z.pow_le_mono_r; lia).
          rewrite Z.div_small by lia. lia. }
      destruct (2 * (num mod 2 ^ (- e)) ?= 2 ^ (- e));
        try destruct (Z.even (num / 2 ^ (- e))); lia. }
  clearbody n. destruct n as [|pn|pn]; [eauto| |lia].
  destruct s; simpl cond_Zopp; simpl Float.exact.
  all: match goal with
       | |- context [Float.div ?a ?b] =>
           assert (Hr : mag_le (B + 2 + 1) (Float.div a b))
       end.
  1,3: unfold Float.div;
       apply (div_bound (B + 8) 7 (B + 2)); simpl; try lia;
       pose proof (Zdigits2_le (Zpos pn) (B + 8) ltac:(lia) ltac:(lia) ltac:(lia));
       simpl in *; lia.
  all: rewrite (mag_le_finite _ _ Hr); eauto.
Qed.
End Binary64.

(** ** The monad and its loops *)

Lemma bind_Ok {A B} (f : A -> result B) (a : A) : (Ok a ≫= f) = f a.
Proof. reflexivity. Qed.

Lemma for_each_invariant {S A} (P : S -> Prop) (body : S -> A -> result S) xs :
  forall s,
  P s ->
  (forall s x, x ∈ xs -> P s -> exists s', body s x = Ok s' /\ P s') ->
  exists s', for_each body xs s = Ok s' /\ P s'.
Proof.
  induction xs as [|x xs IH]; intros s Hs Hbody; simpl.
  - eauto.
  - destruct (Hbody s x ltac:(left) Hs) as (s1 & E1 & P1).
    rewrite E1, bind_Ok. apply IH; [exact P1|].
    intros s2 y Hy. apply Hbody. by right.
Qed.

Lemma floordiv_ok a b : b ≠ 0 -> floordiv a b = Ok (a / b).
Proof. intros Hb. unfold floordiv. destruct (Z.eqb_spec b 0); [lia|done]. Qed.

Lemma getitem_ok {V} (d : list (str * V)) k :
  k ∈ d.*1 -> exists v, getitem d k = Ok v /\ (k, v) ∈ d.
Proof.
  induction d as [|[k' v] d IH]; simpl; intros Hk.
  - by apply elem_of_nil in Hk.
  - destruct (decide (k = k')) as [->|Hne].
    + exists v. split; [done|left].
    + apply elem_of_cons in Hk as [|Hk]; [done|].
      destruct (IH Hk) as (w & E & Hin). exists w. split; [done|by right].
Qed.

(** ** Section detection *)

Section SectionDetection.
Context {U : Unicode}.

Lemma match_heading_ok lowered : exists r, match_heading lowered = Ok r.
Proof.
  unfold match_heading.
  destruct (List.find _ alias_patterns) as [alias|] eqn:E; [|eauto].
  apply List.find_some in E as [Hin _]. apply list_elem_of_In in Hin.
  destruct (getitem_ok SECTION_ALIASES alias Hin) as (sec & Es & _).
  rewrite Es. simpl. eauto.
Qed.

Lemma heading_step_ok st line :
  weights_positive st.2 ->
  exists st', heading_step st line = Ok st' /\ weights_positive st'.2.
Proof.
  destruct st as [current lengths]. simpl. intros Hpos.
  unfold heading_step.
  destruct (match_heading_ok (lower line)) as [matched E].
  rewrite E, bind_Ok. cbn beta zeta.
  eexists. split; [reflexivity|]. simpl.
  intros k w. rewrite lookup_insert. case_decide as Hk.
  - intros [= <-]. destruct (lengths !! _) as [w0|] eqn:E0; simpl.
    + specialize (Hpos _ _ E0). lia.
    + lia.
  - apply Hpos.
Qed.

Lemma heading_pass_ok text :
  exists m, heading_pass text = Ok m
            /\ weights_positive m /\ canonical_keys m.
Proof.
  unfold heading_pass.
  edestruct (for_each_invariant (fun st => weights_positive st.2) heading_step)
    as (st & E & Hst); [| |rewrite E, bind_Ok].
  - simpl. intros k w. by rewrite lookup_empty.
  - intros s x _. apply heading_step_ok.
  - eexists. split; [reflexivity|]. split.
    + intros k w [Hk _]%map_lookup_filter_Some. eapply Hst, Hk.
    + intros k w [_ Hk]%map_lookup_filter_Some. exact Hk.
Qed.

Lemma elem_of_keys (m : gmap str Z) k : k ∈ keys m <-> is_Some (m !! k).
Proof.
  unfold keys. rewrite list_elem_of_fmap. split.
  - intros ([k' v] & -> & Hin). apply elem_of_map_to_list in Hin. by exists v.
  - intros [v Hv]. exists (k, v). split; [done|]. by apply elem_of_map_to_list.
Qed.

Lemma heuristic_sums_keys counts (l : list (str * list str)) : forall (m0 : gmap str Z) k,
  is_Some (fold_left
             (fun fb '(sec, kws) =>
                <[sec := sum (List.map (Counter.get counts) kws)]> fb) l m0 !! k) ->
  k ∈ l.*1 \/ is_Some (m0 !! k).
Proof.
  induction l as [|[sec kws] l IH]; simpl; intros m0 k Hk; [by right|].
  destruct (IH _ _ Hk) as [Hin|Hin].
  - left. by right.
  - rewrite lookup_insert in Hin. case_decide as Hd.
    + left. subst k. left.
    + by right.
Qed.

Lemma keyword_fallback_ok text :
  exists m, keyword_fallback text = Ok m
            /\ weights_positive m /\ canonical_keys m.
Proof.
  unfold keyword_fallback. cbv zeta.
  set (counts := Counter.of_list (simple_tokenize text)).
  set (fb0 := fold_left _ heuristics ∅).
  assert (Hcanon : forall k, is_Some (fb0 !! k) -> k ∈ CANONICAL_SECTIONS).
  { intros k Hk. destruct (heuristic_sums_keys counts _ _ _ Hk) as [Hin|Hin].
    - exact Hin.
    - rewrite lookup_empty in Hin. by destruct Hin. }
  match goal with
  | |- context [for_each ?body ?xs ?s] =>
      edestruct (for_each_invariant
                   (fun fb : gmap str Z =>
                      forall k, is_Some (fb !! k) <-> is_Some (fb0 !! k))
                   body xs s)
        as (fb & E & Hfb); [| |rewrite E, bind_Ok]
  end.
  - done.
  - intros fb k Hk Hdom. apply elem_of_keys in Hk.
    destruct (proj2 (Hdom k) Hk) as [v Hv].
    unfold dict_get. rewrite Hv, bind_Ok.
    destruct (0 <? v).
    + rewrite floordiv_ok, bind_Ok by lia. eexists. split; [done|].
      intros k'. rewrite lookup_insert. case_decide as Hd; [|apply Hdom].
      subst k'. split; [done|]. by intros _.
    + eauto.
  - eexists. split; [reflexivity|]. split.
    + intros k w [_ Hw]%map_lookup_filter_Some. simpl in Hw. lia.
    + intros k w [Hk _]%map_lookup_filter_Some.
      apply Hcanon, Hfb. by exists w.
Qed.

Lemma detect_sections_ok text :
  exists m, detect_sections text = Ok m
            /\ weights_positive m /\ canonical_keys m.
Proof.
  unfold detect_sections.
  destruct (heading_pass_ok text) as (m & E & Hm). rewrite E, bind_Ok.
  destruct (_ || _).
  - apply keyword_fallback_ok.
  - eauto.
Qed.
End SectionDetection.

Lemma canonical_keys_size (m : gmap str Z) : canonical_keys m -> (size m <= 7)%nat.
Proof.
  intros Hm. rewrite <- size_dom.
  assert (Hsub : dom m ⊆ (list_to_set CANONICAL_SECTIONS : gset str)).
  { intros k [w Hk]%elem_of_dom. apply elem_of_list_to_set. eapply Hm, Hk. }
  apply subseteq_size in Hsub.
  assert (Hs : size (list_to_set CANONICAL_SECTIONS : gset str) = 7%nat)
    by (vm_compute; reflexivity).
  lia.
Qed.

(** ** The order on strings *)

Lemma str_leb_total a : forall b, Str.leb a b = true \/ Str.leb b a = true.
Proof.
  induction a as [|x a IH]; intros [|y b]; simpl; auto.
  destruct (N.ltb_spec x y), (N.ltb_spec y x), (N.eqb_spec x y), (N.eqb_spec y x);
    simpl; auto; lia.
Qed.

Lemma str_leb_trans a : forall b c,
  Str.leb a b = true -> Str.leb b c = true -> Str.leb a c = true.
Proof.
  induction a as [|x a IH]; intros [|y b] [|z c]; simpl; auto; try discriminate.
  destruct (N.ltb_spec x y), (N.ltb_spec y z), (N.ltb_spec x z),
    (N.eqb_spec x y), (N.eqb_spec y z), (N.eqb_spec x z);
    simpl; auto; try lia; try discriminate.
  all: try apply IH.
Qed.

#[global] Instance str_le_total : Total Str.le.
Proof. intros a b. apply str_leb_total. Qed.

#[global] Instance str_le_trans : Transitive Str.le.
Proof. intros a b c. apply str_leb_trans. Qed.

Lemma sorted_strongly xs : StronglySorted Str.le (sorted xs).
Proof. apply StronglySorted_merge_sort; apply _. Qed.

Lemma sorted_perm xs : sorted xs ≡ₚ xs.
Proof. apply merge_sort_Permutation. Qed.

Lemma StronglySorted_take {A} (R : relation A) n l :
  StronglySorted R l -> StronglySorted R (take n l).
Proof.
  intros H. rewrite <- (take_drop n l) in H.
  by apply StronglySorted_app_1_l in H.
Qed.

(** ** The ATS score *)

Section Ats.
Context {U : Unicode}.

Lemma elem_of_missing_of text kws k :
  k ∈ missing_of text kws <-> k ∈ kws /\ k ∉ simple_tokenize text.
Proof.
  unfold missing_of. rewrite sorted_perm, list_elem_of_filter, elem_of_elements.
  rewrite elem_of_list_to_set. tauto.
Qed.

Lemma missing_of_length text kws :
  0 <= len (missing_of text kws) <= Z.of_nat (size kws).
Proof.
  unfold missing_of, len. rewrite sorted_perm.
  pose proof (length_filter (fun k => k ∉ (list_to_set (simple_tokenize text) : gset str))
                (elements kws)) as H.
  change (length (elements kws)) with (size kws) in H. lia.
Qed.

Lemma coverage_of_ok text kws :
  exists ratio,
    Float.int_truediv (len (missing_of text kws)) (Z.max 1 (Z.of_nat (size kws)))
      = Ok ratio
    /\ coverage_of (missing_of text kws) kws
       = Ok (Float.sub (Float.of_Z 1) ratio)
    /\ mag_le 4 (Float.sub (Float.of_Z 1) ratio).
Proof.
  pose proof (missing_of_length text kws) as Hlen.
  destruct (int_truediv_ok (len (missing_of text kws))
              (Z.max 1 (Z.of_nat (size kws))) 1) as (ratio & E & Hm);
    [lia|lia| |lia|].
  { assert (Hab : 0 <= len (missing_of text kws)
                       <= Z.max 1 (Z.of_nat (size kws))) by lia.
    apply Zdigits2_mono in Hab. lia. }
  exists ratio. split; [exact E|]. unfold coverage_of. rewrite E, bind_Ok.
  split; [reflexivity|].
  apply (sub_bound 2); [vm_compute; discriminate|exact Hm|lia].
Qed.

(** The share of the sections, for the at most seven of them. *)
Lemma richness_ok (n : nat) :
  (n <= 7)%nat ->
  exists x, Float.of_int (Z.of_nat n) = Ok x
    /\ x = Float.of_Z (Z.of_nat n)
    /\ Float.truediv x (Float.of_Z 6) = Ok (Float.div x (Float.of_Z 6))
    /\ mag_le 11 (Float.mul (Float.of_Z 40)
                    (Float.min (Float.of_Z 1) (Float.div x (Float.of_Z 6)))).
Proof.
  intros Hn.
  do 8 (destruct n as [|n];
        [eexists; split; [vm_compute; reflexivity|];
         split; [vm_compute; reflexivity|];
         split; [vm_compute; reflexivity
                |vm_compute; first [exact I|discriminate]]|]).
  lia.
Qed.

Lemma compute_ats_score_ok text kws :
  exists r sections,
    compute_ats_score text kws = Ok r
    /\ detect_sections text = Ok sections
    /\ detected_sections r = sections
    /\ missing_keywords r = take 100 (missing_of text kws)
    /\ score r = score_formula (len (missing_of text kws))
                   (Z.of_nat (size kws)) (Z.of_nat (size sections)).
Proof.
  unfold compute_ats_score. cbv zeta.
  destruct (coverage_of_ok text kws) as (ratio & Er & Ec & Hc).
  rewrite Ec, bind_Ok.
  destruct (detect_sections_ok text) as (sections & Es & _ & Hcanon).
  rewrite Es, bind_Ok.
  destruct (richness_ok (size sections) (canonical_keys_size _ Hcanon))
    as (x & Ex & -> & Et & Hrich).
  rewrite Ex, bind_Ok, Et, bind_Ok.
  set (v := Float.add _ _).
  assert (Hv : mag_le 13 v).
  { subst v. apply (add_bound 11); [|exact Hrich|lia].
    apply (mul_bound 6 4); [vm_compute; discriminate|exact Hc|lia]. }
  destruct (to_int_ok _ _ Hv) as [z Ez]. rewrite Ez, bind_Ok.
  eexists _, sections. repeat split; simpl.
  unfold score_formula. cbv zeta.
  assert (Hd : Float.div (Float.exact (len (missing_of text kws)))
                 (Float.exact (Z.max 1 (Z.of_nat (size kws)))) = ratio).
  { unfold Float.int_truediv in Er.
    destruct (_ =? 0); [discriminate|].
    destruct (Float.is_finite _); [|discriminate]. by injection Er. }
  rewrite Hd. fold v. unfold Float.trunc. by rewrite Ez.
Qed.
End Ats.

(** The fraction is dropped from the binary64 value, which can lie just
    below the exact one: with 4 of 5 keywords missing and no section the
    exact value is 12 and the score is 11. *)
Lemma score_below_exact_value :
  score_formula 4 5 0 = 11 /\ Qeq (exact_value 4 5 0) (inject_Z 12).
Proof. split; vm_compute; reflexivity. Qed.

Lemma near_floor_upto_spec (K : nat) :
  near_floor_upto K = true ->
  forall m k n : nat, (k <= K)%nat -> (m <= k)%nat -> (n <= 7)%nat ->
    near_floor (Z.of_nat m) (Z.of_nat k) (Z.of_nat n) = true.
Proof.
  unfold near_floor_upto. intros H m k n Hk Hm Hn.
  rewrite List.forallb_forall in H.
  specialize (H k ltac:(apply List.in_seq; lia)).
  rewrite List.forallb_forall in H.
  specialize (H m ltac:(apply List.in_seq; lia)).
  rewrite List.forallb_forall in H.
  apply H, List.in_seq. lia.
Qed.

Lemma near_floor_upto_60 : near_floor_upto 60 = true.
Proof. vm_compute. reflexivity. Qed.

(** On the keyword sets that [role_keywords_for] can return, of at most 60
    entries, that is the only deviation from the floor of the exact value. *)
Lemma score_near_exact_floor (m k n : nat) :
  (k <= 60)%nat -> (m <= k)%nat -> (n <= 7)%nat ->
  near_floor (Z.of_nat m) (Z.of_nat k) (Z.of_nat n) = true.
Proof. exact (near_floor_upto_spec 60 near_floor_upto_60 m k n). Qed.

(** ** Strings *)

Lemma join_truthy sep p ps : p <> [] -> truthy (Str.join sep (p :: ps)) = true.
Proof. destruct p; [done|]. intros _. by destruct ps. Qed.

Lemma truthy_true (s : str) : truthy s = true <-> s <> [].
Proof. destruct s; simpl; split; congruence. Qed.

(** ** Recruiter scan *)

Section RecruiterScan.

Lemma first_lines_nonempty text : Forall (fun l => l <> []) (first_lines text).
Proof.
  unfold first_lines. apply Forall_forall. intros l Hl.
  apply list_elem_of_In, List.in_map_iff in Hl as (l0 & <- & Hin).
  apply List.filter_In in Hin as [_ Hin]. by apply truthy_true.
Qed.

Lemma first_lines_length text : (length (first_lines text) <= 20)%nat.
Proof.
  unfold first_lines. rewrite List.length_map.
  etransitivity; [apply List.filter_length_le|]. rewrite length_take. lia.
Qed.
End RecruiterScan.

(** ** Role keywords *)

Lemma preset_for_Forall {V} (P : V -> Prop) (presets : list (str * V)) role v :
  Forall (fun kv => P kv.2) presets ->
  preset_for presets role = Some v -> P v.
Proof.
  induction 1 as [|[k w] presets Hw _ IH]; simpl; [done|].
  destruct (Str.contains k role); [by intros [= <-]|exact IH].
Qed.

Lemma list_to_set_nonempty (x : str) (l : list str) :
  (list_to_set (x :: l) : gset str) <> ∅.
Proof. simpl. set_solver. Qed.

Lemma role_presets_nonempty : Forall (fun kv => kv.2 <> ∅) ROLE_PRESETS.
Proof. unfold ROLE_PRESETS. repeat constructor; apply list_to_set_nonempty. Qed.

Lemma list_to_set_empty_iff (l : list str) :
  (list_to_set l : gset str) = ∅ <-> l = [].
Proof.
  split; [|by intros ->]. destruct l as [|x l]; [done|].
  intros H. by apply list_to_set_nonempty in H.
Qed.

Lemma counter_incr_nonempty k c : Counter.incr k c <> [].
Proof. destruct c as [|[k' n] c]; simpl; [done|]. by destruct (decide (k = k')). Qed.

Lemma counter_fold_nonempty tokens : forall c,
  c <> [] -> fold_left (fun c t => Counter.incr t c) tokens c <> [].
Proof.
  induction tokens as [|t ts IH]; simpl; intros c Hc; [done|].
  apply IH, counter_incr_nonempty.
Qed.

Lemma counter_of_list_empty_iff tokens : Counter.of_list tokens = [] <-> tokens = [].
Proof.
  split; [|by intros ->]. unfold Counter.of_list.
  destruct tokens as [|t ts]; [done|]. simpl. intros H. exfalso.
  revert H. by apply counter_fold_nonempty.
Qed.

Lemma counter_insert_nonempty x l : Counter.insert x l <> [].
Proof. destruct l as [|y l]; simpl; [done|]. by destruct (x.2 <? y.2). Qed.

Lemma most_common_empty_iff n c :
  Counter.most_common (S n) c = [] <-> c = [].
Proof.
  split; [|by intros ->]. unfold Counter.most_common.
  destruct c as [|x c]; [done|]. simpl.
  pose proof (counter_insert_nonempty x (foldr Counter.insert [] c)) as Hne.
  by destruct (Counter.insert x _).
Qed.

Lemma keywords_of_tokens_empty_iff n tokens :
  (list_to_set (Counter.most_common (S n) (Counter.of_list tokens)).*1 : gset str) = ∅
  <-> tokens = [].
Proof.
  split; [|by intros ->]. intros H.
  apply list_to_set_empty_iff, fmap_nil_inv, most_common_empty_iff in H.
  by apply counter_of_list_empty_iff.
Qed.

Lemma filter_long_empty_iff (tokens : list str) :
  List.filter (fun t => 3 <=? len t) tokens = []
  <-> Forall (fun t => len t < 3) tokens.
Proof.
  induction tokens as [|t ts IH]; simpl.
  - split; [constructor|done].
  - destruct (Z.leb_spec 3 (len t)).
    + split; [done|]. intros [Ht _]%Forall_cons. lia.
    + rewrite IH, Forall_cons. intuition.
Qed.

(** ** The bullet pattern *)

Lemma span_spec p s :
  s = (Re.span p s).1 ++ (Re.span p s).2
  /\ Forall (fun c => p c = true) (Re.span p s).1
  /\ ((Re.span p s).2 = []
      \/ exists c rest, (Re.span p s).2 = c :: rest /\ p c = false).
Proof.
  induction s as [|c s (IH1 & IH2 & IH3)]; simpl.
  - split; [done|]. split; [constructor|by left].
  - destruct (p c) eqn:Hc.
    + destruct (Re.span p s) as [a b]. simpl in *. split; [by f_equal|].
      split; [by constructor|exact IH3].
    + simpl. split; [done|]. split; [constructor|]. right. by exists c, s.
Qed.

Lemma dot_plus_spec s group rest :
  Re.dot_plus s = Some (group, rest) ->
  s = group ++ rest /\ line_tail group rest.
Proof.
  unfold Re.dot_plus. destruct (span_spec Re.dot s) as (H1 & H2 & H3).
  destruct (Re.span Re.dot s) as [a b]. simpl in *.
  destruct a as [|c a]; [done|]. intros [= <- <-].
  split; [done|]. split; [done|]. split.
  - intros Hin. eapply Forall_forall in H2; [|exact Hin].
    unfold Re.dot in H2. by rewrite N.eqb_refl in H2.
  - destruct H3 as [->|(c' & rest' & -> & Hc')]; [by left|right].
    exists rest'. f_equal. unfold Re.dot in Hc'.
    apply negb_false_iff, N.eqb_eq in Hc'. done.
Qed.

Lemma spaces_line_spec s : forall group rest,
  Re.spaces_line s = Some (group, rest) ->
  exists ws,
    s = ws ++ group ++ rest /\ spaces ws
    /\ line_tail group rest.
Proof.
  induction s as [|c s IH]; intros group rest; simpl; [done|].
  assert (Hhere : Re.dot_plus (c :: s) = Some (group, rest) ->
                  exists ws, c :: s = ws ++ group ++ rest
                    /\ spaces ws
                    /\ line_tail group rest).
  { intros (E & H)%dot_plus_spec. exists []. split; [done|].
    split; [apply Forall_nil_2|exact H]. }
  destruct (Char.isspace c) eqn:Hc; [|exact Hhere].
  destruct (Re.spaces_line s) as [[g r]|] eqn:Hs; [|exact Hhere].
  intros [= <- <-]. destruct (IH _ _ eq_refl) as (ws & -> & Hws & H).
  exists (c :: ws). split; [done|]. split; [by apply Forall_cons_2|exact H].
Qed.

Lemma glyph_spaces_line_spec s group rest :
  Re.glyph_spaces_line s = Some (group, rest) ->
  exists g ws,
    s = g :: ws ++ group ++ rest /\ Re.glyph g = true
    /\ ws <> [] /\ spaces ws
    /\ line_tail group rest.
Proof.
  unfold Re.glyph_spaces_line. destruct s as [|g [|c s]]; try done.
  destruct (Re.glyph g) eqn:Hg, (Char.isspace c) eqn:Hc; try done. simpl.
  intros (ws & -> & Hws & H)%spaces_line_spec.
  exists g, (c :: ws). split; [done|]. split; [done|]. split; [done|].
  split; [by apply Forall_cons_2|exact H].
Qed.

Lemma bullet_at_spec at_start s group rest :
  Re.bullet_at at_start s = Some (group, rest) ->
  exists before g ws,
    s = before ++ g :: ws ++ group ++ rest
    /\ (before = [] /\ at_start = true \/ before = [Char.LF])
    /\ Re.glyph g = true
    /\ ws <> [] /\ spaces ws
    /\ line_tail group rest.
Proof.
  unfold Re.bullet_at.
  destruct (if at_start then Re.glyph_spaces_line s else None)
    as [[g0 r0]|] eqn:E.
  - intros [= <- <-]. destruct at_start; [|done].
    apply glyph_spaces_line_spec in E as (g & ws & -> & H).
    exists [], g, ws. split; [done|]. split; [by left|exact H].
  - destruct s as [|c s]; [done|]. destruct (N.eqb_spec c Char.LF) as [->|]; [|done].
    intros (g & ws & -> & H)%glyph_spaces_line_spec.
    exists [Char.LF], g, ws. split; [done|]. split; [by right|exact H].
Qed.

Lemma findall_bullets_sound s : forall skip at_start bullet,
  bullet ∈ Re.findall_bullets skip at_start s ->
  exists before g ws after,
    s = before ++ g :: ws ++ bullet ++ after
    /\ (before = [] /\ at_start = true
        \/ exists before', before = before' ++ [Char.LF])
    /\ Re.glyph g = true
    /\ ws <> [] /\ spaces ws
    /\ line_tail bullet after.
Proof.
  induction s as [|c s IH]; intros skip at_start bullet; simpl.
  { by intros ?%elem_of_nil. }
  assert (Hlater : forall k, bullet ∈ Re.findall_bullets k false s ->
    exists before g ws after,
      c :: s = before ++ g :: ws ++ bullet ++ after
      /\ (before = [] /\ at_start = true
          \/ exists before', before = before' ++ [Char.LF])
      /\ Re.glyph g = true
      /\ ws <> [] /\ spaces ws
      /\ line_tail bullet after).
  { intros k (before & g & ws & after & -> & Hb & H)%IH.
    exists (c :: before), g, ws, after. split; [done|]. split; [|exact H].
    right. destruct Hb as [[_ ?]|[before' ->]]; [done|]. by exists (c :: before'). }
  destruct skip as [|k]; [|apply Hlater].
  destruct (Re.bullet_at at_start (c :: s)) as [[group rest]|] eqn:E;
    [|apply Hlater].
  intros Hin. apply elem_of_cons in Hin as [->|Hin]; [|by apply Hlater in Hin].
  apply bullet_at_spec in E as (before & g & ws & E & Hb & H).
  exists before, g, ws, rest. split; [done|]. split; [|exact H].
  destruct Hb as [Hb | ->]; [by left|right]. by exists [].
Qed.

(** ** Words of a stripped string *)

Lemma split_from_snoc_space c s : forall cur,
  Char.isspace c = true -> Str.split_from cur (s ++ [c]) = Str.split_from cur s.
Proof.
  induction s as [|x s IH]; intros cur Hc; simpl.
  - rewrite Hc. by destruct cur.
  - destruct (Char.isspace x); [destruct cur|]; by rewrite IH.
Qed.

Lemma split_lstrip s : Str.split (Str.lstrip s) = Str.split s.
Proof.
  unfold Str.split. induction s as [|c s IH]; simpl; [done|].
  destruct (Char.isspace c) eqn:Hc; [exact IH|]. simpl. by rewrite Hc.
Qed.

Lemma split_rstrip s : Str.split (Str.rstrip s) = Str.split s.
Proof.
  unfold Str.rstrip. induction s as [|c s IH] using rev_ind; [done|].
  rewrite reverse_snoc. simpl. destruct (Char.isspace c) eqn:Hc.
  - rewrite IH. unfold Str.split. by rewrite split_from_snoc_space.
  - by rewrite reverse_cons, reverse_involutive.
Qed.

Lemma split_strip s : Str.split (Str.strip s) = Str.split s.
Proof. unfold Str.strip. by rewrite split_rstrip, split_lstrip. Qed.

(** ** The loop of the flagger *)

Lemma fold_left_append {A B} (keep : A -> bool) (make : A -> B) xs : forall acc,
  fold_left (fun acc x => if keep x then acc ++ [make x] else acc) xs acc
  = acc ++ List.map make (List.filter keep xs).
Proof.
  induction xs as [|x xs IH]; intros acc; simpl; [by rewrite app_nil_r|].
  rewrite IH. destruct (keep x); [|done]. by rewrite <- app_assoc.
Qed.

Lemma filter_sublist {A} (f : A -> bool) (l : list A) : List.filter f l `sublist_of` l.
Proof.
  induction l as [|x l IH]; simpl; [done|].
  destruct (f x); by constructor.
Qed.

Lemma map_sublist {A B} (f : A -> B) (l k : list A) :
  l `sublist_of` k -> List.map f l `sublist_of` List.map f k.
Proof. induction 1; simpl; by constructor. Qed.

Section Flagger.
Context {U : Unicode}.

Lemma suggest_unfold text :
  suggest_quantified_achievements text
  = take 20 (List.map
               (fun b => {| original := Str.strip b; suggestion := REWRITE_ADVICE |})
               (List.filter flagged (take 60 (Re.findall_bullets 0 true text)))).
Proof.
  unfold suggest_quantified_achievements.
  by rewrite (fold_left_append flagged
    (fun b => {| original := Str.strip b; suggestion := REWRITE_ADVICE |})).
Qed.

Lemma bullets_occur text :
  Forall (bullet_occurrence text) (Re.findall_bullets 0 true text).
Proof.
  apply Forall_forall. intros b Hb.
  apply findall_bullets_sound in Hb as (before & g & ws & after & E & Hb & H).
  exists before, g, ws, after. split; [done|]. split; [|exact H].
  destruct Hb as [[-> _]|Hb]; [by left|by right].
Qed.
End Flagger.

(** ** Totality of the remaining functions *)

Lemma findall_tokens_length s : forall cur,
  (length (Re.findall_tokens cur s)
   <= length s + match cur with Some _ => 1 | None => 0 end)%nat.
Proof.
  induction s as [|c s IH]; intros cur; simpl.
  - destruct cur; simpl; lia.
  - destruct cur as [t|].
    + destruct (Re.token_char c).
      * specialize (IH (Some (c :: t))). simpl in IH. lia.
      * specialize (IH None). simpl in *. lia.
    + destruct (Re.token_start c).
      * specialize (IH (Some [c])). simpl in IH. lia.
      * specialize (IH None). simpl in *. lia.
Qed.

Section Totality.
Context {U : Unicode}.

Lemma word_count_bound text :
  len (lower text) <= PY_SSIZE_T_MAX ->
  0 <= len (simple_tokenize text) /\ Zdigits2 (len (simple_tokenize text)) <= 63.
Proof.
  unfold PY_SSIZE_T_MAX, simple_tokenize, len. intros H.
  pose proof (findall_tokens_length (lower text) None) as Hl. simpl in Hl.
  split; [lia|]. apply Zdigits2_le; lia.
Qed.

Lemma analyze_visual_insights_ok text kws :
  len (lower text) <= PY_SSIZE_T_MAX ->
  exists v, analyze_visual_insights text kws = Ok v.
Proof.
  intros Hlen. destruct (word_count_bound text Hlen) as [Hw0 Hwd].
  unfold analyze_visual_insights. cbv zeta.
  destruct (detect_sections_ok text) as (sections & Es & _). rewrite Es, bind_Ok.
  set (words := len (simple_tokenize text)) in *.
  set (sentences := Z.max 1 _).
  assert (Hs : 0 < sentences) by (subst sentences; lia).
  destruct (int_truediv_ok words sentences 63) as (avg & Ea & Ha);
    [lia|lia| |lia|].
  { pose proof (Zdigits2_mono 1 sentences ltac:(lia)) as Hd.
    change (Zdigits2 1) with 1 in Hd. lia. }
  rewrite Ea, bind_Ok.
  destruct (round2_ok 64 avg Ha ltac:(lia)) as [avg2 Er]. rewrite Er, bind_Ok.
  destruct (of_int_ok words 63 Hwd ltac:(lia)) as (w & Ew & Hw).
  rewrite Ew, bind_Ok.
  assert (Et : Float.truediv w (Float.of_Z 200) = Ok (Float.div w (Float.of_Z 200)))
    by reflexivity.
  rewrite Et, bind_Ok.
  assert (Hm : mag_le (57 + 1) (Float.div w (Float.of_Z 200))).
  { change (Float.of_Z 200) with (S754_finite false 7036874417766400 (-45)).
    unfold Float.div. apply (div_bound 64 8); simpl; [exact Hw|lia..]. }
  destruct (round2_ok _ _ Hm ltac:(lia)) as [t2 Et2]. rewrite Et2, bind_Ok.
  eauto.
Qed.

Lemma append_to_ok (cats : gmap str (list str)) bucket k :
  is_Some (cats !! bucket) ->
  exists cats', append_to cats bucket k = Ok cats'
                /\ forall b, is_Some (cats !! b) -> is_Some (cats' !! b).
Proof.
  intros [l Hl]. unfold append_to, dict_get. rewrite Hl, bind_Ok.
  eexists. split; [reflexivity|]. intros b Hb.
  rewrite lookup_insert. by case_decide.
Qed.

Lemma categorize_keywords_ok job_role kws :
  exists cats, categorize_keywords job_role kws = Ok cats.
Proof.
  unfold categorize_keywords. cbv zeta.
  match goal with
  | |- context [for_each ?body ?xs ?s] =>
      edestruct (for_each_invariant
        (fun cats : gmap str (list str) =>
           Forall (fun b => is_Some (cats !! b))
                  [SOFT_SKILLS; TOOLS_TECH; DOMAIN; OTHER])
        body xs s) as (cats & E & _); [| |eauto]
  end.
  - repeat constructor; eexists; vm_compute; reflexivity.
  - intros cats k _ Hc.
    assert (Hstep : forall bucket,
              bucket ∈ [SOFT_SKILLS; TOOLS_TECH; DOMAIN; OTHER] ->
              exists cats', append_to cats bucket k = Ok cats'
                /\ Forall (fun b => is_Some (cats' !! b))
                     [SOFT_SKILLS; TOOLS_TECH; DOMAIN; OTHER]).
    { intros bucket Hb.
      destruct (append_to_ok cats bucket k) as (cats' & E & Hkeep).
      - by eapply Forall_forall in Hc.
      - exists cats'. split; [done|]. eapply Forall_impl; [exact Hc|]. apply Hkeep. }
    repeat case_decide; apply Hstep; solve [repeat first [left|right]].
Qed.
End Totality.

(** The guard of [detect_sections] is a test on the total weight alone: an
    empty map has total weight 0. *)
Lemma detect_sections_guard `{U : Unicode} (text : str) :
  detect_sections text
  = (non_other ← heading_pass text;
     if sum (values non_other) <? 3 then keyword_fallback text else Ok non_other).
Proof.
  unfold detect_sections. destruct (heading_pass text) as [m|e]; [|done].
  rewrite !bind_Ok. case_bool_decide as Hm; [|done].
  subst m. reflexivity.
Qed.

(** ** Substrings *)

Lemma startswith_app p s : Str.startswith p s = true -> exists t, s = p ++ t.
Proof.
  revert s. induction p as [|a p IH]; intros s H; simpl in *; [by exists s|].
  destruct s as [|c s]; [discriminate|].
  apply andb_true_iff in H as [Hac H]. apply N.eqb_eq in Hac as ->.
  destruct (IH s H) as [t ->]. by exists t.
Qed.

Lemma startswith_prefix p t : Str.startswith p (p ++ t) = true.
Proof. induction p as [|a p IH]; simpl; [done|]. by rewrite N.eqb_refl, IH. Qed.

Lemma contains_startswith sub s :
  Str.startswith sub s = true -> Str.contains sub s = true.
Proof. intros H. destruct s; simpl; by rewrite H. Qed.

Lemma contains_infix sub pre post : Str.contains sub (pre ++ sub ++ post) = true.
Proof.
  induction pre as [|c pre IH].
  - rewrite app_nil_l. apply contains_startswith, startswith_prefix.
  - simpl. rewrite IH. apply orb_true_r.
Qed.

(** ** The bullet pattern, step by step *)

Lemma span_dot_line b rest :
  (Char.LF ∉ b) -> rest = [] \/ (exists r, rest = Char.LF :: r) ->
  Re.span Re.dot (b ++ rest) = (b, rest).
Proof.
  intros Hb Hrest. induction b as [|c b IH]; simpl.
  - destruct Hrest as [->|[r ->]]; reflexivity.
  - apply not_elem_of_cons in Hb as [Hc Hb].
    assert (Hd : Re.dot c = true).
    { unfold Re.dot. destruct (N.eqb_spec c Char.LF); [congruence|done]. }
    rewrite Hd, IH by done. reflexivity.
Qed.

Lemma findall_bullets_skip pre : forall rest a,
  pre <> [] ->
  Re.findall_bullets (length pre) a (pre ++ rest) = Re.findall_bullets 0 false rest.
Proof.
  induction pre as [|x pre IH]; intros rest a Hne; [done|].
  destruct pre as [|y pre]; [reflexivity|].
  change (Re.findall_bullets (length (x :: y :: pre)) a ((x :: y :: pre) ++ rest))
    with (Re.findall_bullets (length (y :: pre)) false ((y :: pre) ++ rest)).
  by apply IH.
Qed.

Lemma findall_bullets_here a c s :
  Re.findall_bullets 0 a (c :: s)
  = match Re.bullet_at a (c :: s) with
    | Some (group, rest) =>
        group :: Re.findall_bullets (length s - length rest) false s
    | None => Re.findall_bullets 0 false s
    end.
Proof. reflexivity. Qed.

(** ** The matches of the bullet pattern *)

Lemma isspace_LF : Char.isspace Char.LF = true.
Proof. reflexivity. Qed.

Lemma dot_plus_None c s : Re.dot_plus (c :: s) = None -> c = Char.LF.
Proof.
  unfold Re.dot_plus. simpl. unfold Re.dot at 1.
  destruct (N.eqb_spec c Char.LF) as [->|Hne]; [done|]. simpl.
  by destruct (Re.span Re.dot s).
Qed.

(** Where [\s*(.+)] fails, every run of whitespace ends at a line feed or
    at the end of the text. *)
Lemma spaces_line_None v :
  Re.spaces_line v = None ->
  forall x c t, v = x ++ c :: t -> spaces x -> c = Char.LF.
Proof.
  induction v as [|a v IH]; intros Hv x c t E Hx.
  - by destruct x.
  - simpl in Hv. destruct (Char.isspace a) eqn:Ha.
    + destruct (Re.spaces_line v) as [r|] eqn:Hs; [done|].
      destruct x as [|a' x].
      * injection E as -> ->. by apply dot_plus_None in Hv.
      * injection E as -> ->. apply Forall_cons in Hx as [_ Hx].
        by apply (IH eq_refl x c t).
    + apply dot_plus_None in Hv. subst a. by rewrite isspace_LF in Ha.
Qed.

Lemma dot_plus_greedy c s group rest :
  Re.dot_plus (c :: s) = Some (group, rest) ->
  (Char.isspace c = true -> Re.spaces_line s = None) ->
  greedy (group ++ rest).
Proof.
  intros Hd Hnone x c' t E Hne Hx.
  apply dot_plus_spec in Hd as [Es _]. rewrite <- Es in E.
  destruct x as [|a x]; [done|]. injection E as -> ->.
  apply Forall_cons in Hx as [Ha Hx].
  by apply (spaces_line_None _ (Hnone Ha) x c' t).
Qed.

(** [\s*(.+)] takes the longest run of whitespace that leaves a group. *)
Lemma spaces_line_greedy s : forall group rest,
  Re.spaces_line s = Some (group, rest) ->
  exists ws,
    s = ws ++ group ++ rest /\ spaces ws
    /\ line_tail group rest /\ greedy (group ++ rest).
Proof.
  induction s as [|c s IH]; intros group rest; simpl; [done|].
  destruct (Char.isspace c) eqn:Hc.
  - destruct (Re.spaces_line s) as [[g r]|] eqn:Hs.
    + intros [= <- <-]. destruct (IH _ _ eq_refl) as (ws & -> & Hws & H).
      exists (c :: ws). split; [done|]. split; [by apply Forall_cons_2|exact H].
    + intros Hd. pose proof (dot_plus_spec _ _ _ Hd) as [E H].
      exists []. split; [done|]. split; [apply Forall_nil_2|]. split; [exact H|].
      by apply (dot_plus_greedy c s).
  - intros Hd. pose proof (dot_plus_spec _ _ _ Hd) as [E H].
    exists []. split; [done|]. split; [apply Forall_nil_2|]. split; [exact H|].
    apply (dot_plus_greedy c s); [done|]. by rewrite Hc.
Qed.

Lemma dot_plus_line group rest :
  line_tail group rest -> Re.dot_plus (group ++ rest) = Some (group, rest).
Proof.
  intros (Hne & Hlf & Hrest). unfold Re.dot_plus.
  rewrite span_dot_line by done. by destruct group.
Qed.

Lemma spaces_line_complete ws : forall group rest,
  spaces ws -> line_tail group rest -> greedy (group ++ rest) ->
  Re.spaces_line (ws ++ group ++ rest) = Some (group, rest).
Proof.
  induction ws as [|w ws IH]; intros group rest Hws Hl Hg.
  - pose proof Hl as (Hne & _). destruct group as [|c group]; [done|].
    simpl. destruct (Char.isspace c) eqn:Hc; [|by apply (dot_plus_line (c :: group))].
    destruct (Re.spaces_line (group ++ rest)) as [[g r]|] eqn:Hs;
      [|by apply (dot_plus_line (c :: group))].
    exfalso. apply spaces_line_greedy in Hs as (x & E & Hx & (Hg0 & Hlf & _) & _).
    destruct g as [|c' g]; [done|].
    assert (Hc' : c' = Char.LF).
    { apply (Hg (c :: x) c' (g ++ r)); [simpl; by rewrite E| done |].
      by apply Forall_cons_2. }
    subst c'. apply Hlf. left.
  - apply Forall_cons in Hws as [Hw Hws]. simpl. rewrite Hw.
    by rewrite IH.
Qed.

Lemma glyph_spaces_line_match s group rest :
  Re.glyph_spaces_line s = Some (group, rest)
  <-> exists g ws,
        s = g :: ws ++ group ++ rest /\ Re.glyph g = true
        /\ ws <> [] /\ spaces ws
        /\ line_tail group rest /\ greedy (group ++ rest).
Proof.
  split.
  - unfold Re.glyph_spaces_line. destruct s as [|g [|c s]]; try done.
    destruct (Re.glyph g) eqn:Hg, (Char.isspace c) eqn:Hc; try done. simpl.
    intros (ws & -> & Hws & H)%spaces_line_greedy.
    exists g, (c :: ws). split; [done|]. split; [done|]. split; [done|].
    split; [by apply Forall_cons_2|exact H].
  - intros (g & ws & -> & Hg & Hne & Hws & Hl & Hgr).
    destruct ws as [|w ws]; [done|]. apply Forall_cons in Hws as [Hw Hws].
    simpl. rewrite Hg, Hw. simpl. by apply spaces_line_complete.
Qed.

(** The matcher finds the match of the pattern at a position, and only
    that. *)
Lemma bullet_at_match at_start s group rest :
  Re.bullet_at at_start s = Some (group, rest) <-> bullet_match at_start s group rest.
Proof.
  unfold Re.bullet_at, bullet_match. split.
  - destruct (if at_start then Re.glyph_spaces_line s else None)
      as [[g0 r0]|] eqn:E.
    + intros [= <- <-]. destruct at_start; [|done].
      apply glyph_spaces_line_match in E as (g & ws & -> & H).
      exists [], g, ws. split; [done|]. split; [by left|exact H].
    + destruct s as [|c s]; [done|].
      destruct (N.eqb_spec c Char.LF) as [->|]; [|done].
      intros (g & ws & -> & H)%glyph_spaces_line_match.
      exists [Char.LF], g, ws. split; [done|]. split; [by right|exact H].
  - intros (before & g & ws & -> & [[-> ->]| ->] & H).
    + assert (E : Re.glyph_spaces_line ([] ++ g :: ws ++ group ++ rest)
                  = Some (group, rest))
        by (apply glyph_spaces_line_match; by exists g, ws).
      by rewrite E.
    + assert (E : Re.glyph_spaces_line (g :: ws ++ group ++ rest)
                  = Some (group, rest))
        by (apply glyph_spaces_line_match; by exists g, ws).
      assert (E0 : (if at_start
                    then Re.glyph_spaces_line ([Char.LF] ++ g :: ws ++ group ++ rest)
                    else None) = None).
      { destruct at_start; reflexivity. }
      rewrite E0. simpl. exact E.
Qed.

Lemma bullet_match_length at_start s group rest :
  bullet_match at_start s group rest ->
  exists c pre, s = c :: pre ++ rest /\ pre <> [].
Proof.
  intros (before & g & ws & -> & Hb & _ & Hne & _).
  destruct Hb as [[-> _]| ->].
  - exists g, (ws ++ group). split; [by rewrite <- app_assoc|]. by destruct ws.
  - exists Char.LF, (g :: ws ++ group). split; [simpl; by rewrite <- app_assoc|done].
Qed.

(** After a match the function reads on where the match ended. *)
Lemma findall_bullets_match at_start s group rest :
  bullet_match at_start s group rest ->
  Re.findall_bullets 0 at_start s = group :: Re.findall_bullets 0 false rest.
Proof.
  intros Hm. destruct (bullet_match_length _ _ _ _ Hm) as (c & pre & -> & Hpre).
  apply bullet_at_match in Hm. rewrite findall_bullets_here, Hm. f_equal.
  replace (length (pre ++ rest) - length rest)%nat with (length pre)
    by (rewrite length_app; lia).
  by apply findall_bullets_skip.
Qed.

Lemma findall_bullets_no_match at_start c s :
  (forall group rest, ~ bullet_match at_start (c :: s) group rest) ->
  Re.findall_bullets 0 at_start (c :: s) = Re.findall_bullets 0 false s.
Proof.
  intros Hno. rewrite findall_bullets_here.
  destruct (Re.bullet_at at_start (c :: s)) as [[group rest]|] eqn:E; [|done].
  apply bullet_at_match in E. by apply Hno in E.
Qed.

Lemma findall_bullets_from n : forall s at_start,
  (length s <= n)%nat -> bullets_from at_start s (Re.findall_bullets 0 at_start s).
Proof.
  induction n as [|n IH]; intros s at_start Hlen.
  - destruct s; [constructor|simpl in Hlen; lia].
  - destruct s as [|c s]; [constructor|]. simpl in Hlen.
    destruct (Re.bullet_at at_start (c :: s)) as [[group rest]|] eqn:E.
    + apply bullet_at_match in E.
      rewrite (findall_bullets_match _ _ _ _ E).
      apply (bullets_here _ _ _ rest); [exact E|].
      apply IH. destruct (bullet_match_length _ _ _ _ E) as (c' & pre & Es & _).
      injection Es as -> ->. rewrite length_app in Hlen. lia.
    + rewrite findall_bullets_no_match.
      * apply bullets_skip; [|apply IH; lia].
        intros group rest Hm%bullet_at_match. congruence.
      * intros group rest Hm%bullet_at_match. congruence.
Qed.

(** [re.findall] of the bullet pattern returns the matches of the pattern,
    read from left to right, and nothing else does. *)
Lemma bullets_from_findall at_start s bs :
  bullets_from at_start s bs <-> bs = Re.findall_bullets 0 at_start s.
Proof.
  split.
  - induction 1 as [a|a c s bs Hno _ IH|a s group rest bs Hm _ IH].
    + reflexivity.
    + by rewrite findall_bullets_no_match.
    + rewrite (findall_bullets_match _ _ _ _ Hm). by f_equal.
  - intros ->. by apply (findall_bullets_from (length s)).
Qed.

(** ** The vague phrases of a stripped bullet *)

Lemma lstrip_margin s : exists ws, s = ws ++ Str.lstrip s /\ spaces ws.
Proof.
  induction s as [|c s (ws & E & Hws)]; simpl.
  - exists []. split; [done|apply Forall_nil_2].
  - destruct (Char.isspace c) eqn:Hc.
    + exists (c :: ws). split; [simpl; by rewrite <- E|by apply Forall_cons_2].
    + exists []. split; [done|apply Forall_nil_2].
Qed.

Lemma rstrip_margin s : exists ws, s = Str.rstrip s ++ ws /\ spaces ws.
Proof.
  unfold Str.rstrip. destruct (lstrip_margin (reverse s)) as (ws & E & Hws).
  exists (reverse ws). split; [|by apply Forall_reverse].
  apply (f_equal reverse) in E. by rewrite reverse_involutive, reverse_app in E.
Qed.

Lemma strip_margins s :
  exists ws1 ws2, s = ws1 ++ Str.strip s ++ ws2 /\ spaces ws1 /\ spaces ws2.
Proof.
  unfold Str.strip. destruct (lstrip_margin s) as (ws1 & E1 & H1).
  destruct (rstrip_margin (Str.lstrip s)) as (ws2 & E2 & H2).
  exists ws1, ws2. split; [|done]. by rewrite <- E2.
Qed.

Lemma contains_cons_other sub c w s :
  c <> w -> Str.contains (c :: sub) (w :: s) = Str.contains (c :: sub) s.
Proof.
  intros Hne. simpl. destruct (N.eqb_spec c w); [done|]. simpl.
  by destruct s.
Qed.

Lemma contains_decompose sub s :
  Str.contains sub s = true -> exists pre post, s = pre ++ sub ++ post.
Proof.
  induction s as [|c s IH]; simpl.
  - rewrite orb_false_r. intros [t Ht]%startswith_app. by exists [], t.
  - intros [[t Ht]%startswith_app|H]%orb_true_iff.
    + by exists [], t.
    + destruct (IH H) as (pre & post & ->). by exists (c :: pre), post.
Qed.

Lemma list_snoc_cases {A} (l : list A) : l = [] \/ exists l' x, l = l' ++ [x].
Proof. induction l as [|x l _] using rev_ind; [by left|right; eauto]. Qed.

Lemma contains_snoc_other sub c w s :
  c <> w -> Str.contains (sub ++ [c]) (s ++ [w]) = true ->
  Str.contains (sub ++ [c]) s = true.
Proof.
  intros Hne (pre & post & E)%contains_decompose.
  destruct (list_snoc_cases post) as [->|(post' & x & ->)].
  - rewrite app_nil_r, app_assoc in E. apply app_inj_tail in E as [_ ->]. done.
  - assert (Es : s = pre ++ (sub ++ [c]) ++ post').
    { apply (app_inj_tail s (pre ++ (sub ++ [c]) ++ post') w x).
      rewrite E, <- !app_assoc. reflexivity. }
    rewrite Es. apply contains_infix.
Qed.

(** A phrase that begins and ends with a character that is no whitespace
    lies within a text when it lies within that text and its margins. *)
Lemma contains_within_margins pat ws1 m ws2 :
  match pat with c :: _ => Char.isspace c = false | [] => False end ->
  match reverse pat with c :: _ => Char.isspace c = false | [] => False end ->
  spaces ws1 -> spaces ws2 ->
  Str.contains pat (ws1 ++ m ++ ws2) = true -> Str.contains pat m = true.
Proof.
  intros Hhead Hlast H1 H2.
  induction H1 as [|w ws1 Hw _ IH1].
  - clear Hhead. rewrite app_nil_l.
    destruct (list_snoc_cases pat) as [->|(p & c & ->)]; [done|].
    rewrite reverse_app in Hlast. simpl in Hlast.
    revert H2. induction ws2 as [|w ws2 IH2] using rev_ind; intros H2.
    + by rewrite app_nil_r.
    + apply Forall_app in H2 as [H2 Hw]. apply Forall_cons in Hw as [Hw _].
      rewrite app_assoc. intros H%contains_snoc_other; [by apply IH2|].
      intros ->. congruence.
  - destruct pat as [|c pat]; [done|].
    change ((w :: ws1) ++ m ++ ws2) with (w :: ws1 ++ m ++ ws2).
    rewrite contains_cons_other by (intros ->; congruence). exact IH1.
Qed.

Lemma vague_patterns_margins :
  Forall (fun pat =>
            match pat with c :: _ => Char.isspace c = false | [] => False end
            /\ match reverse pat with c :: _ => Char.isspace c = false | [] => False end)
         vague_patterns.
Proof. unfold vague_patterns. repeat apply Forall_cons_2; try apply Forall_nil_2; by split. Qed.

Lemma is_vague_strip `{U : Unicode} (b : str) :
  lower_keeps_margins U -> is_vague b = true -> is_vague (Str.strip b) = true.
Proof.
  intros Hlaw. unfold is_vague. cbv zeta. rewrite !List.existsb_exists.
  intros (pat & Hin & Hc). exists pat. split; [exact Hin|].
  destruct (strip_margins b) as (ws1 & ws2 & E & H1 & H2).
  rewrite E, Hlaw in Hc by done.
  pose proof vague_patterns_margins as Hm.
  apply list_elem_of_In in Hin. eapply Forall_forall in Hm; [|exact Hin].
  destruct Hm as [Hhead Hlast].
  by apply (contains_within_margins pat ws1 _ ws2).
Qed.

Lemma basic_latin_lower_space c :
  Char.isspace c = true -> BasicLatin.lower_char c = c.
Proof.
  intros H. unfold BasicLatin.lower_char.
  destruct (Char.isupper_ascii c) eqn:E; [|done]. exfalso.
  unfold Char.isupper_ascii, Char.between in E.
  apply andb_true_iff in E as [E1 E2]. apply N.leb_le in E1. apply N.leb_le in E2.
  unfold Char.isspace, Char.between in H.
  repeat (apply orb_true_iff in H as [H|H]);
    try (apply andb_true_iff in H as [H H']; apply N.leb_le in H; apply N.leb_le in H');
    try apply N.eqb_eq in H; lia.
Qed.

Lemma basic_latin_keeps_margins : lower_keeps_margins BasicLatin.db.
Proof.
  intros ws1 m ws2 H1 H2. simpl. unfold BasicLatin.lower.
  assert (Hid : forall ws, spaces ws -> List.map BasicLatin.lower_char ws = ws).
  { induction 1 as [|w ws Hw _ IH]; simpl; [done|].
    by rewrite basic_latin_lower_space, IH. }
  by rewrite !List.map_app, (Hid ws1), (Hid ws2).
Qed.

(** * The claims *)

(** C1, as amended.  The score returned by [compute_ats_score] is
    [score_formula] of the number of missing keywords (before the cap), the
    size of the keyword set and the number of sections that
    [detect_sections] returns on the text: 60 x coverage + 40 x min(1, n / 6)
    in binary64 arithmetic with coverage = 1.0 - missing / max(1, keywords),
    cut to its integer part by [int] and clamped to 0..100.  The function
    does not raise. *)
Theorem ats_score_is_truncated_formula `{U : Unicode} (text : str) (kws : gset str) :
  exists r sections,
    compute_ats_score text kws = Ok r
    /\ detect_sections text = Ok sections
    /\ detected_sections r = sections
    /\ score r = score_formula (len (missing_of text kws))
                   (Z.of_nat (size kws)) (Z.of_nat (size sections)).
Proof.
  destruct (compute_ats_score_ok text kws) as (r & sections & E & Es & Ed & _ & Hs).
  exists r, sections. auto.
Qed.

(** C1, as stated, fails on the example of the specification: 18 of the 18
    keywords are missing and one section is detected, so the value is
    40 / 6 = 6.67; the code returns 6 and rounding to the nearest integer
    gives 7. *)
Lemma ats_score_not_rounded_to_nearest :
  exists r sections,
    @compute_ats_score BasicLatin.db example_resume software_engineer_preset = Ok r
    /\ @detect_sections BasicLatin.db example_resume = Ok sections
    /\ score r = 6
    /\ specified_score
         (len (@missing_of BasicLatin.db example_resume software_engineer_preset))
         (Z.of_nat (size software_engineer_preset)) (Z.of_nat (size sections)) = 7.
Proof.
  eexists _, _. split; [vm_compute; reflexivity|].
  split; [vm_compute; reflexivity|]. split; vm_compute; reflexivity.
Qed.

(** C2, as amended.  [detect_sections] returns the fallback map when pass 1
    yields no section or a combined weight below 3, and the map of pass 1
    otherwise.  An empty map has weight 0: the trigger is the combined
    weight alone, and a single section of weight 3 or more is kept. *)
Theorem fallback_when_empty_or_light `{U : Unicode} (text : str) :
  exists pass1 pass2,
    heading_pass text = Ok pass1
    /\ keyword_fallback text = Ok pass2
    /\ detect_sections text
       = Ok (if bool_decide (pass1 = ∅) || (sum (values pass1) <? 3)
             then pass2 else pass1)
    /\ (pass1 = ∅ -> sum (values pass1) < 3).
Proof.
  destruct (heading_pass_ok text) as (pass1 & E1 & _).
  destruct (keyword_fallback_ok text) as (pass2 & E2 & _).
  exists pass1, pass2. split; [exact E1|]. split; [exact E2|]. split.
  - unfold detect_sections. rewrite E1, bind_Ok.
    by destruct (bool_decide (pass1 = ∅) || (sum (values pass1) <? 3)).
  - intros ->. reflexivity.
Qed.

(** C2, as stated, fails on a resume of three short lines without any
    heading: pass 1 yields a single section, of weight 3.  That is fewer
    than two sections, so that the trigger of the specification fires and
    gives the fallback map, which holds two other sections here; the code
    returns the map of pass 1. *)
Lemma single_section_skips_fallback :
  @heading_pass BasicLatin.db headless_resume = Ok {[ py "summary" := 3 ]}
  /\ @keyword_fallback BasicLatin.db headless_resume
     = Ok {[ py "skills" := 1; py "projects" := 1 ]}
  /\ @detect_sections BasicLatin.db headless_resume = Ok {[ py "summary" := 3 ]}
  /\ @specified_detect_sections BasicLatin.db headless_resume
     = Ok {[ py "skills" := 1; py "projects" := 1 ]}.
Proof. split; [|split; [|split]]; vm_compute; reflexivity. Qed.

(** C3.  On the example of the specification the resolver returns the
    software-engineer preset and the flagger returns one rewrite, whose
    original is the text of the bullet; the detector returns the single
    section "summary" with weight 5, without "experience".  The fallback
    pass, which the detector does not run here, yields both sections. *)
Theorem example_resume_analysis :
  @role_keywords_for BasicLatin.db (Some (py "Software Engineer")) None
     example_resume = software_engineer_preset
  /\ @suggest_quantified_achievements BasicLatin.db example_resume
     = [ {| original := py "responsible for managing a team of five people";
            suggestion := REWRITE_ADVICE |} ]
  /\ @detect_sections BasicLatin.db example_resume = Ok {[ py "summary" := 5 ]}
  /\ @keyword_fallback BasicLatin.db example_resume
     = Ok {[ py "summary" := 1; py "experience" := 1 ]}.
Proof. split; [|split; [|split]]; vm_compute; reflexivity. Qed.

(** C7.  The score returned by [compute_ats_score] lies in 0..100 for every
    text and every keyword set, the function never raises, and on the empty
    keyword set the coverage is 1.0: nothing is missing and the divisor is
    max(1, 0) = 1. *)
Theorem ats_score_in_range `{U : Unicode} (text : str) (kws : gset str) :
  (exists r, compute_ats_score text kws = Ok r /\ 0 <= score r <= 100)
  /\ coverage_of (missing_of text ∅) ∅ = Ok (Float.of_Z 1).
Proof.
  split.
  - destruct (compute_ats_score_ok text kws) as (r & sections & E & _ & _ & _ & Hs).
    exists r. split; [exact E|]. rewrite Hs. unfold score_formula. lia.
  - assert (Hm : missing_of text ∅ = []) by (unfold missing_of; by rewrite elements_empty).
    rewrite Hm. vm_compute. reflexivity.
Qed.

(** C8.  The list of missing keywords returned by [compute_ats_score] has at
    most 100 entries, is sorted in ascending order of code points without
    repetition, and holds only keywords of the role that are no token of the
    text. *)
Theorem missing_keywords_capped_sorted_absent `{U : Unicode}
    (text : str) (kws : gset str) :
  exists r,
    compute_ats_score text kws = Ok r
    /\ (length (missing_keywords r) <= 100)%nat
    /\ StronglySorted Str.le (missing_keywords r)
    /\ NoDup (missing_keywords r)
    /\ forall k, k ∈ missing_keywords r ->
                 k ∈ kws /\ k ∉ simple_tokenize text.
Proof.
  destruct (compute_ats_score_ok text kws) as (r & sections & E & _ & _ & Hm & _).
  exists r. split; [exact E|]. rewrite Hm. split; [|split; [|split]].
  - rewrite length_take. lia.
  - apply StronglySorted_take, sorted_strongly.
  - eapply sublist_NoDup; [|apply sublist_take]. unfold missing_of.
    rewrite sorted_perm. apply NoDup_filter, NoDup_elements.
  - intros k Hk. apply elem_of_missing_of.
    by apply (sublist_subseteq _ _ (sublist_take _ 100)).
Qed.

(** C10.  Every section in the map returned by [detect_sections] has weight
    at least 1, and so has every section of the pass-1 map and of the
    fallback map. *)
Theorem section_weights_at_least_one `{U : Unicode} (text : str) :
  exists m m1 m2,
    detect_sections text = Ok m
    /\ heading_pass text = Ok m1
    /\ keyword_fallback text = Ok m2
    /\ (forall k w, m !! k = Some w -> 1 <= w)
    /\ (forall k w, m1 !! k = Some w -> 1 <= w)
    /\ (forall k w, m2 !! k = Some w -> 1 <= w).
Proof.
  destruct (detect_sections_ok text) as (m & E & H & _).
  destruct (heading_pass_ok text) as (m1 & E1 & H1 & _).
  destruct (keyword_fallback_ok text) as (m2 & E2 & H2 & _).
  exists m, m1, m2. auto 10.
Qed.

(** C4, as amended.  The recruiter scan selects the non-blank lines among
    the first 20 lines of the document, stripped of surrounding whitespace;
    there are at most 20 of them and none is empty.  Its highlights are the
    first 8 selected lines joined by a line feed, or the placeholder when no
    line is selected; its ignored part is the other selected lines joined by
    a line feed, or the placeholder when 8 or fewer lines are selected. *)
Theorem recruiter_scan_first_twenty_lines (text : str) :
  let selected := first_lines text in
  selected = List.map Str.strip
               (List.filter (fun l => truthy (Str.strip l))
                            (take 20 (Str.splitlines text)))
  /\ (length selected <= 20)%nat
  /\ Forall (fun l => l <> []) selected
  /\ highlights (analyze_recruiter_scan text)
     = match selected with
       | [] => NO_HIGHLIGHTS
       | _ => Str.join [Char.LF] (take 8 selected)
       end
  /\ ignored (analyze_recruiter_scan text)
     = if len selected <=? 8 then SHORT_HEADER
       else Str.join [Char.LF] (drop 8 selected).
Proof.
  intros selected. split; [reflexivity|].
  split; [apply first_lines_length|].
  assert (Hne : Forall (fun l : str => l <> []) selected)
    by apply first_lines_nonempty.
  split; [exact Hne|].
  unfold analyze_recruiter_scan. change (first_lines text) with selected.
  clearbody selected. simpl. split.
  - destruct selected as [|l ls]; [reflexivity|].
    apply Forall_cons in Hne as [Hl _].
    change (take 8 (l :: ls)) with (l :: take 7 ls).
    by rewrite join_truthy.
  - destruct (Z.ltb_spec 8 (len selected)), (Z.leb_spec (len selected) 8);
      try reflexivity; lia.
Qed.

(** C4, as stated, fails on a page of 20 empty lines followed by a name and
    a title: that line is the first non-blank line of the document, and the
    code reports no highlight. *)
Lemma recruiter_scan_misses_line_21 :
  highlights (analyze_recruiter_scan name_after_blank_page) = NO_HIGHLIGHTS
  /\ highlights (specified_recruiter_scan name_after_blank_page)
     = py "Jane Doe, Senior Site Reliability Engineer".
Proof. split; vm_compute; reflexivity. Qed.

(** C6, as amended.  [role_keywords_for] is a total function.  Its result is
    empty exactly when no preset key occurs in the lowercased role label
    and, if a job description is given, that description has no token of
    three or more characters (the resume is then not consulted), or, if no
    job description is given, the resume has no token at all. *)
Theorem role_keywords_empty_iff `{U : Unicode}
    (job_role job_desc : option str) (resume_text : str) :
  role_keywords_for job_role job_desc resume_text = ∅
  <-> preset_for ROLE_PRESETS (lower (default [] job_role)) = None
      /\ (if truthy (default [] job_desc)
          then Forall (fun t => len t < 3) (simple_tokenize (default [] job_desc))
          else simple_tokenize resume_text = []).
Proof.
  unfold role_keywords_for.
  destruct (preset_for ROLE_PRESETS _) as [vocab|] eqn:E.
  - pose proof (preset_for_Forall (fun v : gset str => v <> ∅) _ _ _
                  role_presets_nonempty E) as Hne.
    simpl in Hne. split; [done|]. by intros [? _].
  - destruct (truthy (default [] job_desc)).
    + rewrite keywords_of_tokens_empty_iff, filter_long_empty_iff. tauto.
    + rewrite keywords_of_tokens_empty_iff. tauto.
Qed.

(** C6, as stated, fails: with a role label that matches no preset and a
    job description whose only token is short, the result is empty although
    none of the three inputs is. *)
Lemma role_keywords_empty_on_nonempty_inputs :
  @role_keywords_for BasicLatin.db (Some (py "Chef")) (Some (py "QA"))
     (py "Python developer with ten years of experience") = ∅.
Proof. vm_compute. reflexivity. Qed.

(** C5, as amended.  The bullets of [suggest_quantified_achievements] are
    the matches of its pattern and nothing else, read from left to right
    without overlap: a glyph that is the first character of the text or
    directly follows a line feed (no whitespace may precede it), one or more
    whitespace characters, as many as can be taken, and the non-empty rest
    of the line.  Of the first 60 bullets the function keeps those whose
    lowercased text contains a vague phrase and that have at least 4 words,
    in the order of the document, and returns the first 20 of them, each
    with its stripped text as original; every original has at least 4 words
    and, [str.lower] leaving the whitespace around a text in place, contains
    a vague phrase itself. *)
Theorem flagged_bullets_of_first_sixty `{U : Unicode} (text : str) :
  let bullets := Re.findall_bullets 0 true text in
  let rewrites := suggest_quantified_achievements text in
  (forall bs, bullets_from true text bs <-> bs = bullets)
  /\ Forall (bullet_occurrence text) bullets
  /\ rewrites
     = take 20 (List.map
                  (fun b => {| original := Str.strip b; suggestion := REWRITE_ADVICE |})
                  (List.filter flagged (take 60 bullets)))
  /\ (length rewrites <= 20)%nat
  /\ Forall (fun p => exists b,
               b ∈ take 60 bullets /\ original p = Str.strip b
               /\ is_vague b = true /\ 4 <= len (Str.split (original p)))
            rewrites
  /\ List.map original rewrites `sublist_of` List.map Str.strip bullets
  /\ (lower_keeps_margins U ->
      Forall (fun p => is_vague (original p) = true) rewrites).
Proof.
  intros bullets rewrites. subst rewrites. rewrite suggest_unfold. fold bullets.
  split; [intros bs; apply bullets_from_findall|].
  split; [apply bullets_occur|]. split; [reflexivity|].
  split; [rewrite length_take; lia|].
  assert (Hflagged : forall p,
            p ∈ take 20 (List.map
                  (fun b => {| original := Str.strip b; suggestion := REWRITE_ADVICE |})
                  (List.filter flagged (take 60 bullets))) ->
            exists b, b ∈ take 60 bullets /\ original p = Str.strip b
                      /\ is_vague b = true /\ 4 <= len (Str.split (original p))).
  { intros p Hp.
    apply (sublist_subseteq _ _ (sublist_take _ 20)) in Hp.
    apply list_elem_of_In, List.in_map_iff in Hp as (b & <- & Hb).
    apply List.filter_In in Hb as [Hb Hf]. apply list_elem_of_In in Hb.
    unfold flagged in Hf. apply andb_true_iff in Hf as [Hv Hw].
    exists b. simpl. rewrite split_strip. repeat split; [done..|lia]. }
  split; [by apply Forall_forall|]. split.
  - etransitivity; [apply map_sublist, sublist_take|].
    rewrite List.map_map. simpl. apply map_sublist.
    etransitivity; [apply filter_sublist|apply sublist_take].
  - intros Hlaw. apply Forall_forall. intros p Hp.
    destruct (Hflagged p Hp) as (b & _ & -> & Hv & _).
    by apply is_vague_strip.
Qed.

(** The theorem of C5 on a bullet with whitespace after its text: the
    Basic Latin database keeps the margins, and the original, which has
    lost that whitespace, holds the vague phrase. *)
Lemma flagged_bullets_of_first_sixty_example :
  lower_keeps_margins BasicLatin.db
  /\ @suggest_quantified_achievements BasicLatin.db padded_bullet
     = [ {| original := py "helped with the quarterly sales report";
            suggestion := REWRITE_ADVICE |} ]
  /\ Forall (fun p => @is_vague BasicLatin.db (original p) = true)
            (@suggest_quantified_achievements BasicLatin.db padded_bullet).
Proof.
  split; [exact basic_latin_keeps_margins|].
  split; [vm_compute; reflexivity|].
  destruct (@flagged_bullets_of_first_sixty BasicLatin.db padded_bullet)
    as (_ & _ & _ & _ & _ & _ & H).
  exact (H basic_latin_keeps_margins).
Defined.

(** C5, as stated, fails on an indented bullet: the line begins, after two
    spaces, with a glyph, a space and content that has six words and a
    vague phrase, and the code returns nothing for it, while it flags the
    same line without the two spaces. *)
Lemma indented_bullet_ignored :
  specified_bullet_like indented_bullet
  = [py "worked on the customer data pipeline"]
  /\ @flagged BasicLatin.db (py "worked on the customer data pipeline") = true
  /\ @suggest_quantified_achievements BasicLatin.db indented_bullet = []
  /\ @suggest_quantified_achievements BasicLatin.db (drop 2 indented_bullet)
     = [ {| original := py "worked on the customer data pipeline";
            suggestion := REWRITE_ADVICE |} ].
Proof. split; [|split; [|split]]; vm_compute; reflexivity. Qed.

(** C9.  On every input the eight analysis functions return a result.  The
    four that use an operation that can raise (a division, a dictionary
    subscript, the conversions between [int] and [float], [int()] and
    [round]) end in [Ok]; the four others use no such operation and are
    total functions of the embedding.  The length of a Python string is at
    most [sys.maxsize], which is assumed of the lowercased resume, whose
    number of tokens is converted to a float. *)
Theorem core_functions_total `{U : Unicode}
    (job_role job_desc : option str) (resume_text : str) (role_keywords : gset str) :
  len (lower resume_text) <= PY_SSIZE_T_MAX ->
  (exists tokens, simple_tokenize resume_text = tokens)
  /\ (exists kws, role_keywords_for job_role job_desc resume_text = kws)
  /\ (exists cats, categorize_keywords job_role role_keywords = Ok cats)
  /\ (exists sections, detect_sections resume_text = Ok sections)
  /\ (exists ats, compute_ats_score resume_text role_keywords = Ok ats)
  /\ (exists scan, analyze_recruiter_scan resume_text = scan)
  /\ (exists insights, analyze_visual_insights resume_text role_keywords = Ok insights)
  /\ (exists rewrites, suggest_quantified_achievements resume_text = rewrites).
Proof.
  intros Hlen.
  split; [eauto|]. split; [eauto|].
  split; [apply categorize_keywords_ok|].
  split; [destruct (detect_sections_ok resume_text) as (m & E & _); eauto|].
  split; [destruct (compute_ats_score_ok resume_text role_keywords)
            as (r & s & E & _); eauto|].
  split; [eauto|].
  split; [by apply analyze_visual_insights_ok|eauto].
Qed.

(** The theorem of C9 on the example of the specification. *)
Lemma core_functions_total_example :
  len (@lower BasicLatin.db example_resume) <= PY_SSIZE_T_MAX
  /\ ((exists tokens, @simple_tokenize BasicLatin.db example_resume = tokens)
      /\ (exists kws, @role_keywords_for BasicLatin.db
                        (Some (py "Software Engineer")) None example_resume = kws)
      /\ (exists cats, @categorize_keywords BasicLatin.db
                         (Some (py "Software Engineer")) software_engineer_preset
                       = Ok cats)
      /\ (exists sections, @detect_sections BasicLatin.db example_resume
                           = Ok sections)
      /\ (exists ats, @compute_ats_score BasicLatin.db example_resume
                        software_engineer_preset = Ok ats)
      /\ (exists scan, analyze_recruiter_scan example_resume = scan)
      /\ (exists insights, @analyze_visual_insights BasicLatin.db example_resume
                             software_engineer_preset = Ok insights)
      /\ (exists rewrites, @suggest_quantified_achievements BasicLatin.db
                             example_resume = rewrites)).
Proof.
  assert (Hlen : len (@lower BasicLatin.db example_resume) <= PY_SSIZE_T_MAX)
    by (vm_compute; discriminate).
  split; [exact Hlen|].
  exact (@core_functions_total BasicLatin.db (Some (py "Software Engineer"))
           None example_resume software_engineer_preset Hlen).
Defined.

(** * Further properties of the analysis functions *)

(** ** Tokens *)

Lemma token_start_char c : Re.token_start c = true -> Re.token_char c = true.
Proof. unfold Re.token_start, Re.token_char. by intros ->. Qed.

Lemma is_token_snoc t c :
  is_token t = true -> Re.token_char c = true -> is_token (t ++ [c]) = true.
Proof.
  destruct t as [|x t]; [done|]. simpl.
  intros [Hx Ht]%andb_true_iff Hc. rewrite Hx. simpl.
  rewrite List.forallb_app, Ht. simpl. by rewrite Hc.
Qed.

Lemma findall_tokens_shape s : forall cur,
  (forall t, cur = Some t -> is_token (reverse t) = true) ->
  Forall (fun t => is_token t = true) (Re.findall_tokens cur s).
Proof.
  induction s as [|c s IH]; intros cur Hcur; simpl.
  - destruct cur as [t|]; [|constructor].
    constructor; [by apply Hcur|constructor].
  - destruct cur as [t|].
    + destruct (Re.token_char c) eqn:Hc.
      * apply IH. intros t' [= <-]. rewrite reverse_cons.
        apply is_token_snoc; [by apply Hcur|done].
      * constructor; [by apply Hcur|]. by apply IH.
    + destruct (Re.token_start c) eqn:Hc.
      * apply IH. intros t' [= <-]. simpl. rewrite Hc. done.
      * by apply IH.
Qed.

(** X1.  Every token that [simple_tokenize] returns is a full match of the
    token pattern: it is not empty, begins with an ASCII letter and holds
    only ASCII letters, digits and the characters [-], [+], [#] and [/]. *)
Theorem tokens_match_pattern `{U : Unicode} (text : str) :
  Forall (fun t => is_token t = true) (simple_tokenize text).
Proof. by apply findall_tokens_shape. Qed.

(** ** Coverage *)

Section Coverage.
Context {U : Unicode}.

Lemma missing_of_nil text kws :
  (forall k, k ∈ kws -> k ∈ simple_tokenize text) -> missing_of text kws = [].
Proof.
  intros Hall. destruct (missing_of text kws) as [|k ks] eqn:E; [done|].
  assert (Hk : k ∈ missing_of text kws) by (rewrite E; left).
  apply elem_of_missing_of in Hk as [Hin Hout]. by apply Hall in Hin.
Qed.

Lemma coverage_full (k : Z) :
  Float.sub (Float.of_Z 1) (Float.div (Float.exact 0) (Float.exact (Z.max 1 k)))
  = Float.of_Z 1.
Proof.
  destruct (Z.max 1 k) as [|p|p] eqn:E; [lia| |lia]. reflexivity.
Qed.

Lemma score_formula_full (k : Z) (n : nat) :
  (n <= 7)%nat ->
  60 <= score_formula 0 k (Z.of_nat n)
  /\ ((6 <= n)%nat -> score_formula 0 k (Z.of_nat n) = 100).
Proof.
  intros Hn. unfold score_formula. cbv zeta. rewrite coverage_full.
  do 8 (destruct n as [|n]; [vm_compute; split; [discriminate|];
                             first [reflexivity|intros H; exfalso; revert H; apply Nat.lt_nge; repeat constructor]|]).
  lia.
Qed.
End Coverage.

(** X2.  When every role keyword is a token of the resume,
    [compute_ats_score] reports no missing keyword and a score of at least
    60, and of exactly 100 once six sections are detected. *)
Theorem full_coverage_score `{U : Unicode} (text : str) (kws : gset str) :
  (forall k, k ∈ kws -> k ∈ simple_tokenize text) ->
  exists r,
    compute_ats_score text kws = Ok r
    /\ missing_keywords r = []
    /\ 60 <= score r
    /\ ((6 <= size (detected_sections r))%nat -> score r = 100).
Proof.
  intros Hall.
  destruct (compute_ats_score_ok text kws) as (r & sections & E & Es & Ed & Hm & Hs).
  destruct (detect_sections_ok text) as (m & Em & _ & Hcanon).
  rewrite Em in Es. injection Es as <-.
  exists r. split; [exact E|]. rewrite Hm, Hs, Ed, (missing_of_nil _ _ Hall).
  split; [done|]. apply score_formula_full. by apply canonical_keys_size.
Qed.

Lemma full_coverage_score_example :
  (forall k, k ∈ ({[ py "engineer"; py "team" ]} : gset str) ->
             k ∈ @simple_tokenize BasicLatin.db example_resume)
  /\ exists r,
       @compute_ats_score BasicLatin.db example_resume
         {[ py "engineer"; py "team" ]} = Ok r
       /\ missing_keywords r = []
       /\ 60 <= score r
       /\ ((6 <= size (detected_sections r))%nat -> score r = 100).
Proof.
  assert (H : forall k, k ∈ ({[ py "engineer"; py "team" ]} : gset str) ->
                        k ∈ @simple_tokenize BasicLatin.db example_resume).
  { intros k [->%elem_of_singleton | ->%elem_of_singleton]%elem_of_union;
      apply (bool_decide_unpack _); vm_compute; exact I. }
  split; [exact H|].
  exact (@full_coverage_score BasicLatin.db example_resume _ H).
Defined.

(** X3.  A role keyword that is no full match of the token pattern, such as
    a phrase with a space, can never be found in a resume: whatever the
    text, it is reported missing (the keyword set having at most 100
    entries, so that the cap does not cut it off). *)
Theorem non_token_keyword_missing `{U : Unicode}
    (text : str) (kws : gset str) (k : str) :
  k ∈ kws -> is_token k = false -> (size kws <= 100)%nat ->
  exists r, compute_ats_score text kws = Ok r /\ k ∈ missing_keywords r.
Proof.
  intros Hk Hshape Hsize.
  destruct (compute_ats_score_ok text kws) as (r & sections & E & _ & _ & Hm & _).
  exists r. split; [exact E|]. rewrite Hm, take_ge.
  - apply elem_of_missing_of. split; [exact Hk|]. intros Hin.
    pose proof (tokens_match_pattern text) as Hall.
    eapply Forall_forall in Hall; [|exact Hin]. congruence.
  - pose proof (missing_of_length text kws) as Hl. unfold len in Hl. lia.
Qed.

Lemma non_token_keyword_missing_example :
  py "unit testing" ∈ software_engineer_preset
  /\ is_token (py "unit testing") = false
  /\ (size software_engineer_preset <= 100)%nat
  /\ exists r,
       @compute_ats_score BasicLatin.db example_resume software_engineer_preset
       = Ok r
       /\ py "unit testing" ∈ missing_keywords r.
Proof.
  assert (H1 : py "unit testing" ∈ software_engineer_preset)
    by (apply (bool_decide_unpack _); vm_compute; exact I).
  assert (H2 : is_token (py "unit testing") = false) by reflexivity.
  assert (H3 : (size software_engineer_preset <= 100)%nat)
    by (vm_compute; repeat constructor).
  split; [exact H1|]. split; [exact H2|]. split; [exact H3|].
  exact (@non_token_keyword_missing BasicLatin.db example_resume _ _ H1 H2 H3).
Defined.

(** ** Counters *)

Lemma occurrences_cons k t ts :
  occurrences k (t :: ts) = (if decide (t = k) then 1 else 0) + occurrences k ts.
Proof.
  unfold occurrences, len. rewrite filter_cons.
  destruct (decide (t = k)); simpl; lia.
Qed.

Lemma occurrences_nonneg k ts : 0 <= occurrences k ts.
Proof. unfold occurrences, len. lia. Qed.

Lemma occurrences_pos k ts : 0 < occurrences k ts <-> k ∈ ts.
Proof.
  induction ts as [|t ts IH]; [rewrite elem_of_nil; unfold occurrences, len; simpl; lia|].
  rewrite occurrences_cons, elem_of_cons.
  pose proof (occurrences_nonneg k ts).
  destruct (decide (t = k)) as [->|Hne].
  - split; [auto|lia].
  - rewrite Z.add_0_l, IH. split; [auto|]. intros [->|?]; [done|auto].
Qed.

Lemma counter_get_incr k k' c :
  Counter.get (Counter.incr k c) k'
  = Counter.get c k' + (if decide (k = k') then 1 else 0).
Proof.
  induction c as [|[k0 n] c IH]; simpl.
  - destruct (decide (k' = k)), (decide (k = k')); congruence || lia.
  - destruct (decide (k = k0)) as [->|Hne]; simpl.
    + destruct (decide (k' = k0)), (decide (k0 = k')); congruence || lia.
    + destruct (decide (k' = k0)) as [->|Hne']; [|exact IH].
      destruct (decide (k = k0)); [done|lia].
Qed.

Lemma counter_get_fold ts : forall c k,
  Counter.get (fold_left (fun c t => Counter.incr t c) ts c) k
  = Counter.get c k + occurrences k ts.
Proof.
  induction ts as [|t ts IH]; intros c k; simpl.
  - unfold occurrences, len. simpl. lia.
  - rewrite IH, counter_get_incr, occurrences_cons. lia.
Qed.

(** [Counter(tokens).get(k, 0)] is the number of occurrences of [k]. *)
Lemma counter_get_of_list ts k :
  Counter.get (Counter.of_list ts) k = occurrences k ts.
Proof. unfold Counter.of_list. by rewrite counter_get_fold. Qed.

Lemma counter_incr_keys k c k' :
  k' ∈ (Counter.incr k c).*1 <-> k' = k \/ k' ∈ c.*1.
Proof.
  induction c as [|[k0 n] c IH]; simpl.
  - rewrite list_elem_of_singleton, elem_of_nil. tauto.
  - destruct (decide (k = k0)) as [->|Hne]; simpl.
    + rewrite elem_of_cons. tauto.
    + rewrite !elem_of_cons, IH. tauto.
Qed.

Lemma counter_incr_NoDup k c : NoDup c.*1 -> NoDup (Counter.incr k c).*1.
Proof.
  induction c as [|[k0 n] c IH]; simpl; intros Hnd.
  - apply NoDup_singleton.
  - apply NoDup_cons in Hnd as [Hk0 Hnd].
    destruct (decide (k = k0)) as [->|Hne]; simpl.
    + by apply NoDup_cons.
    + apply NoDup_cons. split; [|auto].
      rewrite counter_incr_keys. intros [?|?]; [congruence|done].
Qed.

Lemma counter_fold_keys ts : forall c k,
  k ∈ (fold_left (fun c t => Counter.incr t c) ts c).*1 <-> k ∈ ts \/ k ∈ c.*1.
Proof.
  induction ts as [|t ts IH]; intros c k; simpl.
  - rewrite elem_of_nil. tauto.
  - rewrite IH, counter_incr_keys, elem_of_cons. tauto.
Qed.

Lemma counter_fold_NoDup ts : forall c,
  NoDup c.*1 -> NoDup (fold_left (fun c t => Counter.incr t c) ts c).*1.
Proof.
  induction ts as [|t ts IH]; intros c Hnd; simpl; [done|].
  by apply IH, counter_incr_NoDup.
Qed.

Lemma counter_of_list_keys ts k : k ∈ (Counter.of_list ts).*1 <-> k ∈ ts.
Proof.
  unfold Counter.of_list. rewrite counter_fold_keys, elem_of_nil. tauto.
Qed.

Lemma counter_of_list_NoDup ts : NoDup (Counter.of_list ts).*1.
Proof. apply counter_fold_NoDup. constructor. Qed.

(** An entry of a counter holds the count of its key. *)
Lemma counter_entry_get c k n : NoDup c.*1 -> (k, n) ∈ c -> Counter.get c k = n.
Proof.
  induction c as [|[k0 n0] c IH]; simpl; intros Hnd Hin.
  - by apply elem_of_nil in Hin.
  - apply NoDup_cons in Hnd as [Hk0 Hnd].
    apply elem_of_cons in Hin as [Heq|Hin].
    + injection Heq as -> ->. by rewrite decide_True.
    + destruct (decide (k = k0)) as [->|Hne]; [|auto].
      exfalso. apply Hk0. apply list_elem_of_fmap. by exists (k0, n).
Qed.

Lemma counter_insert_perm x l : Counter.insert x l ≡ₚ x :: l.
Proof.
  induction l as [|y l IH]; simpl; [done|].
  destruct (x.2 <? y.2); [|done].
  rewrite IH. apply Permutation_swap.
Qed.

Lemma counter_ranked_perm c : foldr Counter.insert [] c ≡ₚ c.
Proof.
  induction c as [|x c IH]; simpl; [done|].
  by rewrite counter_insert_perm, IH.
Qed.

Lemma counter_insert_sorted x l :
  StronglySorted by_count l -> StronglySorted by_count (Counter.insert x l).
Proof.
  induction l as [|y l IH]; simpl; intros Hs.
  - repeat constructor.
  - apply StronglySorted_inv in Hs as [Hs Hy].
    destruct (Z.ltb_spec x.2 y.2) as [Hlt|Hge].
    + constructor; [auto|].
      rewrite counter_insert_perm. constructor; [unfold by_count; lia|done].
    + constructor; [by constructor|].
      constructor; [done|].
      eapply Forall_impl; [exact Hy|]. unfold by_count. simpl. lia.
Qed.

Lemma counter_ranked_sorted c : StronglySorted by_count (foldr Counter.insert [] c).
Proof.
  induction c as [|x c IH]; simpl; [constructor|].
  by apply counter_insert_sorted.
Qed.

Lemma StronglySorted_take_drop {A} (R : relation A) n l x y :
  StronglySorted R l -> x ∈ take n l -> y ∈ drop n l -> R x y.
Proof.
  revert n. induction l as [|a l IH]; intros n Hs Hx Hy.
  - rewrite take_nil in Hx. by apply elem_of_nil in Hx.
  - destruct n as [|n]; [by apply elem_of_nil in Hx|]. simpl in Hx, Hy.
    apply StronglySorted_inv in Hs as [Hs Ha].
    apply elem_of_cons in Hx as [->|Hx].
    + eapply Forall_forall in Ha; [exact Ha|].
      by apply (sublist_subseteq _ _ (sublist_drop _ n)).
    + eauto.
Qed.

(** The keys of [Counter(ts).most_common(n)], as a set: they are tokens,
    there are [n] of them or as many as there are distinct tokens, and no
    token left out occurs more often than one taken. *)
Lemma most_common_keys (n : nat) (ts : list str) :
  let kws : gset str := list_to_set (Counter.most_common n (Counter.of_list ts)).*1 in
  kws ⊆ list_to_set ts
  /\ size kws = (n `min` size (list_to_set ts : gset str))%nat
  /\ forall k t, k ∈ kws -> t ∈ ts -> t ∉ kws ->
                 occurrences t ts <= occurrences k ts.
Proof.
  intros kws. subst kws. unfold Counter.most_common.
  set (c := Counter.of_list ts). set (r := foldr Counter.insert [] c).
  assert (Hperm : r ≡ₚ c) by apply counter_ranked_perm.
  assert (Hnd : NoDup r.*1).
  { rewrite Hperm. apply counter_of_list_NoDup. }
  assert (Hkeys : forall k, k ∈ r.*1 <-> k ∈ ts).
  { intros k. rewrite Hperm. apply counter_of_list_keys. }
  split; [|split].
  - intros k. rewrite !elem_of_list_to_set, <- Hkeys, fmap_take.
    apply (sublist_subseteq _ _ (sublist_take _ n)).
  - rewrite fmap_take, size_list_to_set
      by (eapply sublist_NoDup; [|apply sublist_take]; exact Hnd).
    rewrite length_take. f_equal.
    rewrite <- (size_list_to_set (C := gset str) r.*1) by exact Hnd.
    f_equal. apply set_eq. intros k. by rewrite !elem_of_list_to_set.
  - intros k t Hk Ht Hnt.
    rewrite elem_of_list_to_set in Hk. rewrite elem_of_list_to_set in Hnt.
    apply list_elem_of_fmap in Hk as ([k' nk] & -> & Hk). simpl.
    apply Hkeys in Ht. apply list_elem_of_fmap in Ht as ([t' nt] & -> & Ht). simpl in *.
    rewrite <- (take_drop n r) in Ht. apply elem_of_app in Ht as [Ht|Ht].
    { exfalso. apply Hnt. apply list_elem_of_fmap. by exists (t', nt). }
    pose proof (StronglySorted_take_drop by_count n r _ _
                  (counter_ranked_sorted c) Hk Ht) as Hle.
    unfold by_count in Hle. simpl in Hle.
    assert (Hk' : (k', nk) ∈ c)
      by (rewrite <- Hperm; by apply (sublist_subseteq _ _ (sublist_take _ n))).
    assert (Ht' : (t', nt) ∈ c)
      by (rewrite <- Hperm; by apply (sublist_subseteq _ _ (sublist_drop _ n))).
    apply counter_entry_get in Hk'; [|apply counter_of_list_NoDup].
    apply counter_entry_get in Ht'; [|apply counter_of_list_NoDup].
    unfold c in Hk', Ht'. rewrite counter_get_of_list in Hk', Ht'. lia.
Qed.

Lemma preset_for_first {V} (presets : list (str * V)) role i key vocab :
  presets !! i = Some (key, vocab) ->
  Str.contains key role = true ->
  (forall j kv, (j < i)%nat -> presets !! j = Some kv ->
                Str.contains kv.1 role = false) ->
  preset_for presets role = Some vocab.
Proof.
  revert i. induction presets as [|[k0 v0] presets IH]; intros i Hi Hin Hfirst.
  - by rewrite lookup_nil in Hi.
  - simpl. destruct i as [|i].
    + injection Hi as -> ->. by rewrite Hin.
    + assert (H0 : Str.contains k0 role = false)
        by (apply (Hfirst 0%nat (k0, v0)); [lia|done]).
      rewrite H0. apply (IH i); [done..|].
      intros j kv Hj Hkv. apply (Hfirst (S j) kv); [lia|done].
Qed.

Lemma preset_for_None {V} (presets : list (str * V)) role :
  preset_for presets role = None
  <-> Forall (fun kv => Str.contains kv.1 role = false) presets.
Proof.
  induction presets as [|[k0 v0] presets IH]; simpl.
  - split; [constructor|done].
  - rewrite Forall_cons. simpl. destruct (Str.contains k0 role); [|tauto].
    split; [done|]. by intros [? _].
Qed.

Section RoleKeywords.
Context {U : Unicode}.

(** X4.  A role label that holds several preset names resolves to the
    preset that comes first in the catalogue, wherever the names stand in
    the label; the job description and the resume are then not consulted. *)
Theorem role_preset_first_in_catalogue
    (job_role job_desc : option str) (resume_text : str)
    (i : nat) (key : str) (vocab : gset str) :
  ROLE_PRESETS !! i = Some (key, vocab) ->
  Str.contains key (lower (default [] job_role)) = true ->
  (forall j kv, (j < i)%nat -> ROLE_PRESETS !! j = Some kv ->
                Str.contains kv.1 (lower (default [] job_role)) = false) ->
  role_keywords_for job_role job_desc resume_text = vocab.
Proof.
  intros Hi Hin Hfirst. unfold role_keywords_for.
  by rewrite (preset_for_first _ _ _ _ _ Hi Hin Hfirst).
Qed.

(** X5.  When no preset name occurs in the role label, the keywords are
    drawn from the tokens of three or more characters of the job
    description, or, without a description, from the tokens of the resume:
    every keyword is such a token, their number is the number of distinct
    tokens capped at 60 (40 for the resume), and no token left out occurs
    more often than a keyword. *)
Theorem role_keywords_most_frequent
    (job_role job_desc : option str) (resume_text : str) :
  preset_for ROLE_PRESETS (lower (default [] job_role)) = None ->
  let tokens :=
    if truthy (default [] job_desc)
    then List.filter (fun t => 3 <=? len t) (simple_tokenize (default [] job_desc))
    else simple_tokenize resume_text in
  let cap := if truthy (default [] job_desc) then 60%nat else 40%nat in
  let kws := role_keywords_for job_role job_desc resume_text in
  kws ⊆ list_to_set tokens
  /\ size kws = (cap `min` size (list_to_set tokens : gset str))%nat
  /\ forall k t, k ∈ kws -> t ∈ tokens -> t ∉ kws ->
                 occurrences t tokens <= occurrences k tokens.
Proof.
  intros Hnone tokens cap kws. subst tokens cap kws.
  unfold role_keywords_for. rewrite Hnone.
  destruct (truthy (default [] job_desc)); apply most_common_keys.
Qed.
End RoleKeywords.

Lemma role_preset_first_in_catalogue_example :
  ROLE_PRESETS !! 1%nat = Some (py "data analyst", data_analyst_preset)
  /\ Str.contains (py "data analyst") (@lower BasicLatin.db two_roles) = true
  /\ Str.contains (py "software engineer") (@lower BasicLatin.db two_roles) = true
  /\ @role_keywords_for BasicLatin.db (Some two_roles) None example_resume
     = data_analyst_preset.
Proof.
  assert (H1 : ROLE_PRESETS !! 1%nat = Some (py "data analyst", data_analyst_preset))
    by reflexivity.
  assert (H2 : Str.contains (py "data analyst") (@lower BasicLatin.db two_roles)
               = true) by reflexivity.
  split; [exact H1|]. split; [exact H2|]. split; [reflexivity|].
  apply (@role_preset_first_in_catalogue BasicLatin.db (Some two_roles) None
           example_resume 1%nat _ _ H1 H2).
  intros j kv Hj Hkv. destruct j as [|j]; [|lia].
  injection Hkv as <-. reflexivity.
Defined.

Lemma role_keywords_most_frequent_example :
  preset_for ROLE_PRESETS (@lower BasicLatin.db (default [] (Some (py "Chef")))) = None
  /\ let tokens :=
       if truthy (default [] (Some chef_description))
       then List.filter (fun t => 3 <=? len t)
              (@simple_tokenize BasicLatin.db (default [] (Some chef_description)))
       else @simple_tokenize BasicLatin.db example_resume in
     let cap := if truthy (default [] (Some chef_description)) then 60%nat else 40%nat in
     let kws := @role_keywords_for BasicLatin.db (Some (py "Chef"))
                  (Some chef_description) example_resume in
     kws ⊆ list_to_set tokens
     /\ size kws = (cap `min` size (list_to_set tokens : gset str))%nat
     /\ forall k t, k ∈ kws -> t ∈ tokens -> t ∉ kws ->
                    occurrences t tokens <= occurrences k tokens.
Proof.
  assert (H : preset_for ROLE_PRESETS
                (@lower BasicLatin.db (default [] (Some (py "Chef")))) = None)
    by (vm_compute; reflexivity).
  split; [exact H|].
  exact (@role_keywords_most_frequent BasicLatin.db (Some (py "Chef"))
           (Some chef_description) example_resume H).
Defined.

(** ** Visual insights *)

Lemma sum_map_add {A} (g h : A -> Z) (l : list A) :
  sum (List.map (fun k => g k + h k) l) = sum (List.map g l) + sum (List.map h l).
Proof. induction l as [|a l IH]; simpl; lia. Qed.

Lemma sum_indicator (t : str) (ks : list str) :
  NoDup ks ->
  0 <= sum (List.map (fun k => if decide (t = k) then 1 else 0) ks) <= 1.
Proof.
  induction ks as [|k ks IH]; simpl; intros Hnd; [lia|].
  apply NoDup_cons in Hnd as [Hk Hnd]. specialize (IH Hnd).
  destruct (decide (t = k)) as [->|Hne]; [|lia].
  assert (E : sum (List.map (fun k0 => if decide (k = k0) then 1 else 0) ks) = 0).
  { clear IH Hnd. induction ks as [|k' ks IH]; simpl; [done|].
    apply not_elem_of_cons in Hk as [Hne Hk].
    rewrite decide_False by done. rewrite IH by done. lia. }
  lia.
Qed.

(** Distinct keys share the tokens among them. *)
Lemma sum_occurrences (ks ts : list str) :
  NoDup ks -> sum (List.map (fun k => occurrences k ts) ks) <= len ts.
Proof.
  intros Hnd. induction ts as [|t ts IH].
  - assert (E : sum (List.map (fun k => occurrences k []) ks) = 0)
      by (clear Hnd; induction ks as [|k ks IH]; simpl; [done|]; rewrite IH; done).
    rewrite E. done.
  - erewrite (List.map_ext _ (fun k => (if decide (t = k) then 1 else 0)
                                        + occurrences k ts))
      by (intros k; apply occurrences_cons).
    rewrite sum_map_add. pose proof (sum_indicator t ks Hnd).
    unfold len in *. simpl length. lia.
Qed.

Section VisualInsights.
Context {U : Unicode}.

Lemma analyze_visual_insights_fields text kws :
  len (lower text) <= PY_SSIZE_T_MAX ->
  exists v sections,
    analyze_visual_insights text kws = Ok v
    /\ detect_sections text = Ok sections
    /\ section_balance v = sections
    /\ keyword_density v
       = List.map (fun k => (k, Counter.get (Counter.of_list (simple_tokenize text)) k))
                  (take 25 (sorted (elements kws)))
    /\ word_count (readability_metrics v) = len (simple_tokenize text).
Proof.
  intros Hlen. destruct (word_count_bound text Hlen) as [Hw0 Hwd].
  unfold analyze_visual_insights. cbv zeta.
  destruct (detect_sections_ok text) as (sections & Es & _). rewrite Es, bind_Ok.
  set (words := len (simple_tokenize text)) in *.
  set (sentences := Z.max 1 _).
  assert (Hs : 0 < sentences) by (subst sentences; lia).
  destruct (int_truediv_ok words sentences 63) as (avg & Ea & Ha);
    [lia|lia| |lia|].
  { pose proof (Zdigits2_mono 1 sentences ltac:(lia)) as Hd.
    change (Zdigits2 1) with 1 in Hd. lia. }
  rewrite Ea, bind_Ok.
  destruct (round2_ok 64 avg Ha ltac:(lia)) as [avg2 Er]. rewrite Er, bind_Ok.
  destruct (of_int_ok words 63 Hwd ltac:(lia)) as (w & Ew & Hw).
  rewrite Ew, bind_Ok.
  assert (Et : Float.truediv w (Float.of_Z 200) = Ok (Float.div w (Float.of_Z 200)))
    by reflexivity.
  rewrite Et, bind_Ok.
  assert (Hm : mag_le (57 + 1) (Float.div w (Float.of_Z 200))).
  { change (Float.of_Z 200) with (S754_finite false 7036874417766400 (-45)).
    unfold Float.div. apply (div_bound 64 8); simpl; [exact Hw|lia..]. }
  destruct (round2_ok _ _ Hm ltac:(lia)) as [t2 Et2]. rewrite Et2, bind_Ok.
  eexists _, sections. split; [reflexivity|]. split; [reflexivity|].
  split; [reflexivity|]. split; reflexivity.
Qed.

(** X6.  The keyword density of [analyze_visual_insights] lists the first
    25 role keywords in ascending order, each with the number of its
    occurrences among the tokens of the resume; the word count is the number
    of tokens, and the counts of the chart add up to no more than it. *)
Theorem keyword_density_counts (text : str) (kws : gset str) :
  len (lower text) <= PY_SSIZE_T_MAX ->
  exists v,
    analyze_visual_insights text kws = Ok v
    /\ (keyword_density v).*1 = take 25 (sorted (elements kws))
    /\ Forall (fun kc => kc.2 = occurrences kc.1 (simple_tokenize text))
              (keyword_density v)
    /\ word_count (readability_metrics v) = len (simple_tokenize text)
    /\ sum (keyword_density v).*2 <= word_count (readability_metrics v).
Proof.
  intros Hlen.
  destruct (analyze_visual_insights_fields text kws Hlen)
    as (v & sections & E & _ & _ & Hd & Hw).
  exists v. split; [exact E|]. rewrite Hd, Hw.
  set (ks := take 25 (sorted (elements kws))).
  split; [|split; [|split; [done|]]].
  - rewrite <- list_fmap_compose. apply list_fmap_id.
  - apply Forall_forall. intros kc Hkc.
    apply list_elem_of_In, List.in_map_iff in Hkc as (k & <- & _). simpl.
    apply counter_get_of_list.
  - change (fmap snd) with (List.map (@snd str Z)).
    rewrite List.map_map. simpl.
    erewrite List.map_ext by (intros k; apply counter_get_of_list).
    apply sum_occurrences. subst ks.
    eapply sublist_NoDup; [|apply sublist_take].
    rewrite sorted_perm. apply NoDup_elements.
Qed.

(** X7.  The section balance of [analyze_visual_insights] is the map of
    detected sections of [compute_ats_score] on the same resume, whatever
    the two keyword sets are: when the score reports no section, the
    application gains nothing by asking the visual insights again. *)
Theorem section_balance_is_detected_sections (text : str) (kws kws' : gset str) :
  len (lower text) <= PY_SSIZE_T_MAX ->
  exists r v,
    compute_ats_score text kws = Ok r
    /\ analyze_visual_insights text kws' = Ok v
    /\ section_balance v = detected_sections r.
Proof.
  intros Hlen.
  destruct (compute_ats_score_ok text kws) as (r & s & Er & Es & Ed & _).
  destruct (analyze_visual_insights_fields text kws' Hlen)
    as (v & s' & Ev & Es' & Eb & _).
  exists r, v. split; [exact Er|]. split; [exact Ev|]. congruence.
Qed.
End VisualInsights.

Lemma keyword_density_counts_example :
  len (@lower BasicLatin.db example_resume) <= PY_SSIZE_T_MAX
  /\ exists v,
       @analyze_visual_insights BasicLatin.db example_resume software_engineer_preset
       = Ok v
       /\ (keyword_density v).*1 = take 25 (sorted (elements software_engineer_preset))
       /\ Forall (fun kc => kc.2 = occurrences kc.1
                                     (@simple_tokenize BasicLatin.db example_resume))
                 (keyword_density v)
       /\ word_count (readability_metrics v)
          = len (@simple_tokenize BasicLatin.db example_resume)
       /\ sum (keyword_density v).*2 <= word_count (readability_metrics v).
Proof.
  assert (Hlen : len (@lower BasicLatin.db example_resume) <= PY_SSIZE_T_MAX)
    by (vm_compute; discriminate).
  split; [exact Hlen|].
  exact (@keyword_density_counts BasicLatin.db example_resume
           software_engineer_preset Hlen).
Defined.

Lemma section_balance_is_detected_sections_example :
  len (@lower BasicLatin.db example_resume) <= PY_SSIZE_T_MAX
  /\ exists r v,
       @compute_ats_score BasicLatin.db example_resume software_engineer_preset = Ok r
       /\ @analyze_visual_insights BasicLatin.db example_resume data_analyst_preset
          = Ok v
       /\ section_balance v = detected_sections r.
Proof.
  assert (Hlen : len (@lower BasicLatin.db example_resume) <= PY_SSIZE_T_MAX)
    by (vm_compute; discriminate).
  split; [exact Hlen|].
  exact (@section_balance_is_detected_sections BasicLatin.db example_resume
           software_engineer_preset data_analyst_preset Hlen).
Defined.

(** ** Keyword categories *)

Lemma bucket_names_distinct :
  SOFT_SKILLS <> TOOLS_TECH /\ SOFT_SKILLS <> DOMAIN /\ SOFT_SKILLS <> OTHER
  /\ TOOLS_TECH <> DOMAIN /\ TOOLS_TECH <> OTHER /\ DOMAIN <> OTHER.
Proof. repeat split; discriminate. Qed.

Ltac solve_bucket Hdom :=
  unfold buckets;
  rewrite dom_insert_lookup_L by eauto;
  rewrite ?lookup_insert_eq;
  rewrite ?lookup_insert_ne by (assumption || (apply not_eq_sym; assumption));
  auto.

Lemma append_to_soft cats a b c d k :
  buckets cats a b c d ->
  exists cats', append_to cats SOFT_SKILLS k = Ok cats'
                /\ buckets cats' (a ++ [k]) b c d.
Proof.
  destruct bucket_names_distinct as (N1 & N2 & N3 & N4 & N5 & N6).
  intros (Hdom & Ha & Hb & Hc & Hd).
  unfold append_to, dict_get. rewrite Ha, bind_Ok.
  eexists. split; [reflexivity|]. solve_bucket Hdom.
Qed.

Lemma append_to_tools cats a b c d k :
  buckets cats a b c d ->
  exists cats', append_to cats TOOLS_TECH k = Ok cats'
                /\ buckets cats' a (b ++ [k]) c d.
Proof.
  destruct bucket_names_distinct as (N1 & N2 & N3 & N4 & N5 & N6).
  intros (Hdom & Ha & Hb & Hc & Hd).
  unfold append_to, dict_get. rewrite Hb, bind_Ok.
  eexists. split; [reflexivity|]. solve_bucket Hdom.
Qed.

Lemma append_to_domain cats a b c d k :
  buckets cats a b c d ->
  exists cats', append_to cats DOMAIN k = Ok cats'
                /\ buckets cats' a b (c ++ [k]) d.
Proof.
  destruct bucket_names_distinct as (N1 & N2 & N3 & N4 & N5 & N6).
  intros (Hdom & Ha & Hb & Hc & Hd).
  unfold append_to, dict_get. rewrite Hc, bind_Ok.
  eexists. split; [reflexivity|]. solve_bucket Hdom.
Qed.

Lemma append_to_other cats a b c d k :
  buckets cats a b c d ->
  exists cats', append_to cats OTHER k = Ok cats'
                /\ buckets cats' a b c (d ++ [k]).
Proof.
  destruct bucket_names_distinct as (N1 & N2 & N3 & N4 & N5 & N6).
  intros (Hdom & Ha & Hb & Hc & Hd).
  unfold append_to, dict_get. rewrite Hd, bind_Ok.
  eexists. split; [reflexivity|]. solve_bucket Hdom.
Qed.

Lemma categorize_loop (soft tools domain : gset str) ks : forall cats a b c d,
  buckets cats a b c d ->
  exists cats',
    for_each
      (fun cats k =>
         if decide (k ∈ soft) then append_to cats SOFT_SKILLS k
         else if decide (k ∈ tools) then append_to cats TOOLS_TECH k
         else if decide (k ∈ domain) then append_to cats DOMAIN k
         else append_to cats OTHER k)
      ks cats = Ok cats'
    /\ buckets cats'
         (a ++ filter (fun k => k ∈ soft) ks)
         (b ++ filter (fun k => (k ∉ soft) /\ k ∈ tools) ks)
         (c ++ filter (fun k => (k ∉ soft) /\ (k ∉ tools) /\ k ∈ domain) ks)
         (d ++ filter (fun k => (k ∉ soft) /\ (k ∉ tools) /\ (k ∉ domain)) ks).
Proof.
  induction ks as [|k ks IH]; intros cats a b c d Hb.
  - exists cats. split; [reflexivity|]. by rewrite !filter_nil, !app_nil_r.
  - simpl for_each.
    destruct (decide (k ∈ soft)) as [Hs|Hs];
      [|destruct (decide (k ∈ tools)) as [Ht|Ht];
        [|destruct (decide (k ∈ domain)) as [Hd|Hd]]].
    + destruct (append_to_soft _ _ _ _ _ k Hb) as (cats1 & E & Hb1).
      rewrite E, bind_Ok.
      destruct (IH _ _ _ _ _ Hb1) as (cats' & E' & Hb').
      exists cats'. split; [exact E'|].
      rewrite filter_cons_True by assumption.
      rewrite !(filter_cons_False _ k) by tauto.
      by rewrite <- app_assoc in Hb'.
    + destruct (append_to_tools _ _ _ _ _ k Hb) as (cats1 & E & Hb1).
      rewrite E, bind_Ok.
      destruct (IH _ _ _ _ _ Hb1) as (cats' & E' & Hb').
      exists cats'. split; [exact E'|].
      rewrite (filter_cons_True (fun k => (k ∉ soft) /\ k ∈ tools)) by tauto.
      rewrite !(filter_cons_False _ k) by tauto.
      by rewrite <- app_assoc in Hb'.
    + destruct (append_to_domain _ _ _ _ _ k Hb) as (cats1 & E & Hb1).
      rewrite E, bind_Ok.
      destruct (IH _ _ _ _ _ Hb1) as (cats' & E' & Hb').
      exists cats'. split; [exact E'|].
      rewrite (filter_cons_True
                 (fun k => (k ∉ soft) /\ (k ∉ tools) /\ k ∈ domain)) by tauto.
      rewrite !(filter_cons_False _ k) by tauto.
      by rewrite <- app_assoc in Hb'.
    + destruct (append_to_other _ _ _ _ _ k Hb) as (cats1 & E & Hb1).
      rewrite E, bind_Ok.
      destruct (IH _ _ _ _ _ Hb1) as (cats' & E' & Hb').
      exists cats'. split; [exact E'|].
      rewrite (filter_cons_True
                 (fun k => (k ∉ soft) /\ (k ∉ tools) /\ (k ∉ domain))) by tauto.
      rewrite !(filter_cons_False _ k) by tauto.
      by rewrite <- app_assoc in Hb'.
Qed.

Lemma StronglySorted_filter {A} (R : relation A) (P : A -> Prop)
    `{forall x, Decision (P x)} (l : list A) :
  StronglySorted R l -> StronglySorted R (filter P l).
Proof.
  induction 1 as [|a l Hs IH Ha]; [constructor|].
  rewrite filter_cons. destruct (decide (P a)); [|exact IH].
  constructor; [exact IH|].
  apply Forall_forall. intros x [_ Hx]%list_elem_of_filter.
  by eapply Forall_forall in Ha.
Qed.

(** Three tests tried in turn split a list four ways. *)
Lemma filter_cascade {A} (P Q R : A -> Prop)
    `{forall x, Decision (P x)} `{forall x, Decision (Q x)}
    `{forall x, Decision (R x)} (l : list A) :
  filter P l
  ++ filter (fun x => ~ P x /\ Q x) l
  ++ filter (fun x => ~ P x /\ ~ Q x /\ R x) l
  ++ filter (fun x => ~ P x /\ ~ Q x /\ ~ R x) l
  ≡ₚ l.
Proof.
  induction l as [|x l IH]; [done|].
  destruct (decide (P x)) as [HP|HP];
    [|destruct (decide (Q x)) as [HQ|HQ];
      [|destruct (decide (R x)) as [HR|HR]]].
  - rewrite (filter_cons_True P) by done.
    rewrite !(filter_cons_False _ x) by tauto.
    simpl. by rewrite IH.
  - rewrite (filter_cons_True (fun x => ~ P x /\ Q x)) by tauto.
    rewrite !(filter_cons_False _ x) by tauto.
    rewrite <- app_comm_cons. repeat rewrite <- Permutation_middle.
    by rewrite IH.
  - rewrite (filter_cons_True (fun x => ~ P x /\ ~ Q x /\ R x)) by tauto.
    rewrite !(filter_cons_False _ x) by tauto.
    rewrite <- app_comm_cons. repeat rewrite <- Permutation_middle.
    by rewrite IH.
  - rewrite (filter_cons_True (fun x => ~ P x /\ ~ Q x /\ ~ R x)) by tauto.
    rewrite !(filter_cons_False _ x) by tauto.
    repeat rewrite <- Permutation_middle.
    by rewrite IH.
Qed.

Section Categories.
Context {U : Unicode}.

Lemma categorize_keywords_spec (job_role : option str) (keywords : gset str) :
  let domain : gset str :=
    default ∅ (preset_for DOMAIN_PRESETS (lower (default [] job_role))) in
  let ks := sorted (elements keywords) in
  exists cats,
    categorize_keywords job_role keywords = Ok cats
    /\ buckets cats
         (filter (fun k => k ∈ soft) ks)
         (filter (fun k => (k ∉ soft) /\ k ∈ tools) ks)
         (filter (fun k => (k ∉ soft) /\ (k ∉ tools) /\ k ∈ domain) ks)
         (filter (fun k => (k ∉ soft) /\ (k ∉ tools) /\ (k ∉ domain)) ks).
Proof.
  intros domain ks. unfold categorize_keywords. cbv zeta. fold domain. fold ks.
  match goal with
  | |- context [for_each _ ks ?cats0] =>
      destruct (categorize_loop soft tools domain ks cats0 [] [] [] [])
        as (cats & E & Hb)
  end.
  - destruct bucket_names_distinct as (N1 & N2 & N3 & N4 & N5 & N6).
    unfold buckets. split.
    + rewrite !dom_insert_L, dom_empty_L. unfold BUCKETS.
      apply set_eq. intros x. rewrite !elem_of_union, !elem_of_singleton, elem_of_empty.
      tauto.
    + rewrite ?lookup_insert_eq;
        rewrite ?lookup_insert_ne by (assumption || (apply not_eq_sym; assumption));
        rewrite ?lookup_insert_eq;
        rewrite ?lookup_insert_ne by (assumption || (apply not_eq_sym; assumption));
        rewrite ?lookup_insert_eq;
        rewrite ?lookup_insert_ne by (assumption || (apply not_eq_sym; assumption));
        rewrite ?lookup_insert_eq. auto.
  - exists cats. split; [exact E|]. exact Hb.
Qed.

(** X8.  [categorize_keywords] returns a map with exactly the four category
    names.  Over the keywords in ascending order, "Soft skills" holds those
    of the soft-skill vocabulary, "Tools/Tech" those of the tool vocabulary
    that are no soft skill, "Domain" those of the domain preset of the role
    that are neither, and "Other" the rest. *)
Theorem categorize_keywords_buckets (job_role : option str) (keywords : gset str) :
  let domain : gset str :=
    default ∅ (preset_for DOMAIN_PRESETS (lower (default [] job_role))) in
  let ks := sorted (elements keywords) in
  exists cats,
    categorize_keywords job_role keywords = Ok cats
    /\ dom cats = BUCKETS
    /\ cats !! SOFT_SKILLS = Some (filter (fun k => k ∈ soft) ks)
    /\ cats !! TOOLS_TECH = Some (filter (fun k => (k ∉ soft) /\ k ∈ tools) ks)
    /\ cats !! DOMAIN
       = Some (filter (fun k => (k ∉ soft) /\ (k ∉ tools) /\ k ∈ domain) ks)
    /\ cats !! OTHER
       = Some (filter (fun k => (k ∉ soft) /\ (k ∉ tools) /\ (k ∉ domain)) ks).
Proof. apply categorize_keywords_spec. Qed.

Lemma categorize_keywords_partition (job_role : option str) (keywords : gset str) :
  exists cats a b c d,
    categorize_keywords job_role keywords = Ok cats
    /\ cats !! SOFT_SKILLS = Some a /\ cats !! TOOLS_TECH = Some b
    /\ cats !! DOMAIN = Some c /\ cats !! OTHER = Some d
    /\ a ++ b ++ c ++ d ≡ₚ elements keywords
    /\ Forall (StronglySorted Str.le) [a; b; c; d].
Proof.
  destruct (categorize_keywords_spec job_role keywords)
    as (cats & E & _ & Ha & Hb & Hc & Hd).
  eexists cats, _, _, _, _. split; [exact E|].
  split; [exact Ha|]. split; [exact Hb|]. split; [exact Hc|]. split; [exact Hd|].
  split.
  - rewrite <- (sorted_perm (elements keywords)) at 5.
    apply (filter_cascade (fun k => k ∈ soft) (fun k => k ∈ tools)).
  - pose proof (sorted_strongly (elements keywords)) as Hs.
    repeat apply Forall_cons_2; try apply Forall_nil_2;
      by apply StronglySorted_filter.
Qed.

(** X9.  The four lists of [categorize_keywords] partition the keywords:
    put end to end they are a rearrangement of the keyword set, so every
    keyword is filed once and under one category, and each list is in
    ascending order. *)
Theorem categories_partition (job_role : option str) (keywords : gset str) :
  exists cats a b c d,
    categorize_keywords job_role keywords = Ok cats
    /\ cats !! SOFT_SKILLS = Some a /\ cats !! TOOLS_TECH = Some b
    /\ cats !! DOMAIN = Some c /\ cats !! OTHER = Some d
    /\ a ++ b ++ c ++ d ≡ₚ elements keywords
    /\ Forall (StronglySorted Str.le) [a; b; c; d].
Proof. apply categorize_keywords_partition. Qed.

(** X23.  The application files the missing keywords of the score under the
    four categories: every missing keyword that [compute_ats_score] reports
    comes up once in the lists of [categorize_keywords], and nothing else
    does. *)
Theorem missing_keywords_categorized
    (job_role : option str) (text : str) (kws : gset str) :
  exists r cats a b c d,
    compute_ats_score text kws = Ok r
    /\ categorize_keywords job_role (list_to_set (missing_keywords r)) = Ok cats
    /\ cats !! SOFT_SKILLS = Some a /\ cats !! TOOLS_TECH = Some b
    /\ cats !! DOMAIN = Some c /\ cats !! OTHER = Some d
    /\ a ++ b ++ c ++ d ≡ₚ missing_keywords r.
Proof.
  destruct (compute_ats_score_ok text kws) as (r & sections & E & _ & _ & Hm & _).
  destruct (categorize_keywords_partition job_role (list_to_set (missing_keywords r)))
    as (cats & a & b & c & d & Ec & Ha & Hb & Hc & Hd & Hp & _).
  exists r, cats, a, b, c, d. split; [exact E|]. split; [exact Ec|].
  split; [exact Ha|]. split; [exact Hb|]. split; [exact Hc|]. split; [exact Hd|].
  rewrite Hp. apply elements_list_to_set.
  rewrite Hm. eapply sublist_NoDup; [|apply sublist_take].
  unfold missing_of. rewrite sorted_perm. apply NoDup_filter, NoDup_elements.
Qed.
End Categories.

(** ** Section weights *)

Lemma sum_perm (l l' : list Z) : l ≡ₚ l' -> sum l = sum l'.
Proof. induction 1; simpl; lia. Qed.

Lemma sum_values_insert (m : gmap str Z) k w :
  sum (values (<[k := default 0 (m !! k) + w]> m)) = sum (values m) + w.
Proof.
  unfold values. destruct (m !! k) as [v|] eqn:E; simpl.
  - rewrite <- (insert_delete_eq m).
    rewrite (sum_perm _ ((v + w) :: (map_to_list (delete k m)).*2)).
    2:{ rewrite map_to_list_insert by apply lookup_delete_eq. done. }
    rewrite <- (insert_delete_id m k v E) at 2.
    rewrite (sum_perm ((map_to_list (<[k:=v]> (delete k m))).*2)
                      (v :: (map_to_list (delete k m)).*2)).
    2:{ rewrite map_to_list_insert by apply lookup_delete_eq. done. }
    simpl. lia.
  - rewrite (sum_perm _ ((0 + w) :: (map_to_list m).*2)).
    2:{ rewrite map_to_list_insert by done. done. }
    simpl. lia.
Qed.

Lemma alias_sections_canonical : Forall (fun kv => kv.2 ∈ CANONICAL_SECTIONS) SECTION_ALIASES.
Proof.
  unfold SECTION_ALIASES, CANONICAL_SECTIONS.
  repeat (apply Forall_cons_2; [simpl; solve [repeat first [left|right]]|]).
  apply Forall_nil_2.
Qed.

Lemma line_weight_pos line : 1 <= line_weight line.
Proof. unfold line_weight. lia. Qed.

Lemma sum_line_weights lines : len lines <= sum (List.map line_weight lines).
Proof.
  unfold len. induction lines as [|l lines IH]; simpl; [lia|].
  pose proof (line_weight_pos l). simpl length. lia.
Qed.

Section SectionWeights.
Context {U : Unicode}.

Lemma match_heading_canonical lowered sec :
  match_heading lowered = Ok (Some sec) -> sec ∈ CANONICAL_SECTIONS.
Proof.
  unfold match_heading.
  destruct (List.find _ alias_patterns) as [alias|] eqn:E; [|discriminate].
  apply List.find_some in E as [Hin _]. apply list_elem_of_In in Hin.
  destruct (getitem_ok SECTION_ALIASES alias Hin) as (sec' & Es & Hs).
  rewrite Es. simpl. intros [= <-].
  pose proof alias_sections_canonical as Hc.
  eapply Forall_forall in Hc; [|exact Hs]. exact Hc.
Qed.

Lemma heading_step_weight st line :
  st.1 ∈ CANONICAL_SECTIONS -> canonical_keys st.2 ->
  exists st',
    heading_step st line = Ok st'
    /\ st'.1 ∈ CANONICAL_SECTIONS /\ canonical_keys st'.2
    /\ sum (values st'.2) = sum (values st.2) + line_weight line.
Proof.
  destruct st as [current lengths]. simpl. intros Hcur Hkeys.
  unfold heading_step.
  destruct (match_heading_ok (lower line)) as [matched E].
  rewrite E, bind_Ok. cbn beta zeta.
  eexists. split; [reflexivity|]. simpl.
  set (current' := match matched with
                   | Some sec => if truthy sec && (len line <=? 120) then sec else current
                   | None => current
                   end).
  assert (Hcur' : current' ∈ CANONICAL_SECTIONS).
  { subst current'. destruct matched as [sec|]; [|done].
    destruct (truthy sec && _); [|done].
    by apply (match_heading_canonical (lower line)). }
  split; [exact Hcur'|]. split.
  - intros k w. rewrite lookup_insert. case_decide as Hk; [by subst k|apply Hkeys].
  - apply sum_values_insert.
Qed.

Lemma heading_loop lines : forall st,
  st.1 ∈ CANONICAL_SECTIONS -> canonical_keys st.2 ->
  exists st',
    for_each heading_step lines st = Ok st'
    /\ canonical_keys st'.2
    /\ sum (values st'.2) = sum (values st.2) + sum (List.map line_weight lines).
Proof.
  induction lines as [|line lines IH]; intros st Hcur Hkeys; simpl.
  - exists st. split; [done|]. split; [done|lia].
  - destruct (heading_step_weight st line Hcur Hkeys) as (st1 & E1 & Hc1 & Hk1 & Hs1).
    rewrite E1, bind_Ok.
    destruct (IH st1 Hc1 Hk1) as (st' & E' & Hk' & Hs').
    exists st'. split; [exact E'|]. split; [exact Hk'|]. lia.
Qed.

Lemma heading_pass_weight text :
  exists m,
    heading_pass text = Ok m
    /\ sum (values m) = sum (List.map line_weight (content_lines text)).
Proof.
  unfold heading_pass. fold (content_lines text).
  destruct (heading_loop (content_lines text) (py "summary", ∅))
    as (st & E & Hk & Hs).
  - simpl. unfold CANONICAL_SECTIONS. left.
  - simpl. intros k w. by rewrite lookup_empty.
  - rewrite E, bind_Ok. eexists. split; [reflexivity|].
    rewrite map_filter_id.
    + rewrite Hs. simpl. unfold values. rewrite map_to_list_empty. simpl. lia.
    + intros k w Hkw. simpl. eapply Hk, Hkw.
Qed.

(** X10.  [detect_sections] returns only canonical section names, hence at
    most seven sections. *)
Theorem detected_sections_canonical (text : str) :
  exists m,
    detect_sections text = Ok m
    /\ dom m ⊆ (list_to_set CANONICAL_SECTIONS : gset str)
    /\ (size m <= 7)%nat.
Proof.
  destruct (detect_sections_ok text) as (m & E & _ & Hc).
  exists m. split; [exact E|]. split.
  - intros k [w Hk]%elem_of_dom. apply elem_of_list_to_set. eapply Hc, Hk.
  - by apply canonical_keys_size.
Qed.

(** X11.  Pass 1 loses no line: the weights of its sections add up to the
    weights of the non-blank lines, each line counting for
    [max(1, len(line) // 60)] under the heading it follows.  In particular
    no line is filed under a name that the canonical filter would drop. *)
Theorem heading_pass_conserves_weight (text : str) :
  exists m,
    heading_pass text = Ok m
    /\ sum (values m) = sum (List.map line_weight (content_lines text))
    /\ len (content_lines text) <= sum (values m).
Proof.
  destruct (heading_pass_weight text) as (m & E & Hs).
  exists m. split; [exact E|]. split; [exact Hs|].
  rewrite Hs. apply sum_line_weights.
Qed.

(** X12.  A resume with three or more non-blank lines never reaches the
    keyword fallback: [detect_sections] returns the map of pass 1. *)
Theorem three_lines_skip_fallback (text : str) :
  3 <= len (content_lines text) ->
  exists m,
    heading_pass text = Ok m /\ detect_sections text = Ok m
    /\ 3 <= sum (values m).
Proof.
  intros Hlines.
  destruct (heading_pass_weight text) as (m & E & Hs).
  pose proof (sum_line_weights (content_lines text)) as Hw.
  exists m. split; [exact E|].
  rewrite detect_sections_guard, E, bind_Ok.
  destruct (Z.ltb_spec (sum (values m)) 3); [lia|]. split; [reflexivity|lia].
Qed.
End SectionWeights.

Lemma three_lines_skip_fallback_example :
  3 <= len (content_lines headless_resume)
  /\ exists m,
       @heading_pass BasicLatin.db headless_resume = Ok m
       /\ @detect_sections BasicLatin.db headless_resume = Ok m
       /\ 3 <= sum (values m).
Proof.
  assert (H : 3 <= len (content_lines headless_resume))
    by (vm_compute; discriminate).
  split; [exact H|].
  exact (@three_lines_skip_fallback BasicLatin.db headless_resume H).
Defined.

(** ** The keyword fallback *)

Lemma heuristic_sums_lookup (f : list str -> Z) (l : list (str * list str)) :
  NoDup l.*1 ->
  forall (m0 : gmap str Z) k v,
    fold_left (fun fb '(sec, kws) => <[sec := f kws]> fb) l m0 !! k = Some v
    <-> (exists kws, (k, kws) ∈ l /\ v = f kws)
        \/ (k ∉ l.*1) /\ m0 !! k = Some v.
Proof.
  induction l as [|[sec kws] l IH]; simpl; intros Hnd m0 k v.
  - split.
    + intros H. right. split; [apply not_elem_of_nil|done].
    + intros [(kws & Hin & _)|[_ H]]; [by apply elem_of_nil in Hin|done].
  - apply NoDup_cons in Hnd as [Hsec Hnd]. rewrite (IH Hnd). split.
    + intros [(kws' & Hin & ->)|[Hk Hv]].
      * left. exists kws'. split; [by right|done].
      * rewrite lookup_insert in Hv. case_decide as Hd.
        -- injection Hv as <-. subst k. left. exists kws. split; [left|done].
        -- right. split; [|done]. apply not_elem_of_cons. split; [congruence|done].
    + intros [(kws' & Hin & ->)|[Hk Hv]].
      * apply elem_of_cons in Hin as [Heq|Hin].
        -- injection Heq as -> ->. right. split; [done|].
           by rewrite lookup_insert_eq.
        -- left. by exists kws'.
      * apply not_elem_of_cons in Hk as [Hne Hk]. right. split; [done|].
        rewrite lookup_insert_ne by congruence. done.
Qed.

(** The loop that halves the weights, over keys that are all distinct. *)
Lemma halving_loop (xs : list str) : forall fb : gmap str Z,
  NoDup xs -> (forall k, k ∈ xs -> is_Some (fb !! k)) ->
  exists fb',
    for_each
      (fun fb k =>
         v ← dict_get fb k;
         if 0 <? v then q ← floordiv v 2; Ok (<[k := Z.max 1 q]> fb)
         else Ok fb)
      xs fb = Ok fb'
    /\ forall k,
         fb' !! k = if decide (k ∈ xs)
                    then (fun v => if 0 <? v then Z.max 1 (v / 2) else v) <$> fb !! k
                    else fb !! k.
Proof.
  induction xs as [|x xs IH]; intros fb Hnd Hin; simpl for_each.
  - exists fb. split; [done|]. intros k.
    destruct (decide (k ∈ [])) as [Hk|]; [by apply elem_of_nil in Hk|done].
  - apply NoDup_cons in Hnd as [Hx Hnd].
    destruct (Hin x ltac:(left)) as [v Hv].
    assert (Eg : dict_get fb x = Ok v) by (unfold dict_get; by rewrite Hv).
    rewrite Eg, bind_Ok.
    assert (Hstep : exists fb1,
              (if 0 <? v then Ok (<[x := Z.max 1 (v / 2)]> fb) else Ok fb) = Ok fb1
              /\ fb1 !! x = Some (if 0 <? v then Z.max 1 (v / 2) else v)
              /\ forall k, k <> x -> fb1 !! k = fb !! k).
    { destruct (0 <? v).
      - eexists. split; [reflexivity|].
        split; [by rewrite lookup_insert_eq|].
        intros k Hk. by rewrite lookup_insert_ne.
      - exists fb. auto. }
    destruct Hstep as (fb1 & E1 & Hx1 & Hother). rewrite E1, bind_Ok.
    destruct (IH fb1 Hnd) as (fb' & E' & Hfb').
    { intros k Hk. rewrite Hother; [apply Hin; by right|]. intros ->. done. }
    exists fb'. split; [exact E'|]. intros k. rewrite Hfb'.
    destruct (decide (k = x)) as [->|Hne].
    + rewrite decide_False by done. rewrite decide_True by left.
      by rewrite Hx1, Hv.
    + rewrite Hother by done.
      destruct (decide (k ∈ xs)) as [Hk|Hk].
      * rewrite decide_True by (by right). done.
      * rewrite decide_False; [done|]. apply not_elem_of_cons. done.
Qed.

Lemma heuristics_NoDup : NoDup heuristics.*1.
Proof. apply (bool_decide_unpack _). vm_compute. exact I. Qed.

Section Fallback.
Context {U : Unicode}.

(** X13.  The keyword fallback gives a section to every heuristic with at
    least one of its keywords among the tokens of the text, and to no other:
    the weight is half the number of such tokens, rounded down, and 1 when
    there is a single one. *)
Theorem keyword_fallback_weights (text : str) :
  exists m,
    keyword_fallback text = Ok m
    /\ forall sec w,
         m !! sec = Some w
         <-> exists kws,
               (sec, kws) ∈ heuristics
               /\ 0 < heuristic_total (simple_tokenize text) kws
               /\ w = Z.max 1 (heuristic_total (simple_tokenize text) kws / 2).
Proof.
  unfold keyword_fallback. cbv zeta.
  set (counts := Counter.of_list (simple_tokenize text)).
  set (fb0 := fold_left _ heuristics ∅).
  assert (Hfb0 : forall k v,
            fb0 !! k = Some v
            <-> exists kws, (k, kws) ∈ heuristics
                  /\ v = heuristic_total (simple_tokenize text) kws).
  { intros k v. subst fb0.
    rewrite (heuristic_sums_lookup
               (fun kws => sum (List.map (Counter.get counts) kws))
               heuristics heuristics_NoDup ∅ k v).
    rewrite lookup_empty. split.
    - intros [(kws & Hin & ->)|[_ ?]]; [|done]. exists kws. split; [done|].
      unfold heuristic_total. f_equal. apply List.map_ext. intros a.
      apply counter_get_of_list.
    - intros (kws & Hin & ->). left. exists kws. split; [done|].
      unfold heuristic_total. f_equal. apply List.map_ext. intros a.
      symmetry. apply counter_get_of_list. }
  destruct (halving_loop (keys fb0) fb0) as (fb & E & Hfb).
  { apply NoDup_fst_map_to_list. }
  { intros k Hk. by apply elem_of_keys. }
  rewrite E, bind_Ok. eexists. split; [reflexivity|].
  assert (Hfb' : forall k,
            fb !! k = (fun v => if 0 <? v then Z.max 1 (v / 2) else v) <$> fb0 !! k).
  { intros k. rewrite Hfb. case_decide as Hk; [done|].
    destruct (fb0 !! k) as [v|] eqn:Ek; [|done].
    exfalso. apply Hk, elem_of_keys. by exists v. }
  intros sec w. rewrite map_lookup_filter_Some, Hfb'. simpl. split.
  - intros [Hw Hpos]. destruct (fb0 !! sec) as [v|] eqn:Ev; [|done].
    simpl in Hw. injection Hw as <-.
    apply Hfb0 in Ev as (kws & Hin & ->). exists kws. split; [done|].
    destruct (Z.ltb_spec 0 (heuristic_total (simple_tokenize text) kws));
      [split; [lia|reflexivity]|lia].
  - intros (kws & Hin & Hpos & ->).
    assert (Ev : fb0 !! sec = Some (heuristic_total (simple_tokenize text) kws))
      by (apply Hfb0; eauto).
    rewrite Ev. simpl.
    destruct (Z.ltb_spec 0 (heuristic_total (simple_tokenize text) kws)); [|lia].
    split; [reflexivity|lia].
Qed.
End Fallback.

(** ** Stripping *)

Lemma lstrip_head s :
  match Str.lstrip s with [] => True | c :: _ => Char.isspace c = false end.
Proof.
  induction s as [|c s IH]; simpl; [done|].
  destruct (Char.isspace c) eqn:E; [exact IH|exact E].
Qed.

Lemma lstrip_fix c s : Char.isspace c = false -> Str.lstrip (c :: s) = c :: s.
Proof. intros E. simpl. by rewrite E. Qed.

Lemma lstrip_idem s : Str.lstrip (Str.lstrip s) = Str.lstrip s.
Proof.
  pose proof (lstrip_head s) as H. destruct (Str.lstrip s) as [|c r]; [done|].
  by apply lstrip_fix.
Qed.

Lemma lstrip_snoc c s :
  Char.isspace c = false -> Str.lstrip (s ++ [c]) = Str.lstrip s ++ [c].
Proof.
  intros E. induction s as [|a s IH]; simpl; [by rewrite E|].
  by destruct (Char.isspace a).
Qed.

Lemma rstrip_cons c s :
  Char.isspace c = false -> Str.rstrip (c :: s) = c :: Str.rstrip s.
Proof.
  intros E. unfold Str.rstrip.
  by rewrite reverse_cons, lstrip_snoc, reverse_app.
Qed.

Lemma rstrip_idem s : Str.rstrip (Str.rstrip s) = Str.rstrip s.
Proof. unfold Str.rstrip. by rewrite reverse_involutive, lstrip_idem. Qed.

(** A stripped string is empty or begins with a character that is no
    whitespace, and stripping it again changes nothing. *)
Lemma strip_shape s :
  Str.strip s = []
  \/ exists c r, Str.lstrip s = c :: r /\ Char.isspace c = false
                 /\ Str.strip s = c :: Str.rstrip r.
Proof.
  unfold Str.strip. pose proof (lstrip_head s) as H.
  destruct (Str.lstrip s) as [|c r]; [by left|].
  right. exists c, r. split; [done|]. split; [done|]. by apply rstrip_cons.
Qed.

Lemma strip_idem s : Str.strip (Str.strip s) = Str.strip s.
Proof.
  destruct (strip_shape s) as [E|(c & r & _ & Hc & E)]; rewrite E; [done|].
  unfold Str.strip. rewrite lstrip_fix by done.
  rewrite rstrip_cons by done. by rewrite rstrip_idem.
Qed.

Lemma Forall_lstrip (P : N -> Prop) s : Forall P s -> Forall P (Str.lstrip s).
Proof.
  induction 1 as [|c s Hc Hs IH]; simpl; [constructor|].
  destruct (Char.isspace c); [exact IH|by constructor].
Qed.

Lemma Forall_strip (P : N -> Prop) s : Forall P s -> Forall P (Str.strip s).
Proof.
  intros H. unfold Str.strip, Str.rstrip.
  by apply Forall_reverse, Forall_lstrip, Forall_reverse, Forall_lstrip.
Qed.

(** ** Lines *)

Lemma splitlines_from_one_line s : forall after_cr cur,
  one_line cur -> Forall one_line (Str.splitlines_from after_cr cur s).
Proof.
  unfold one_line.
  induction s as [|c s IH]; intros after_cr cur Hcur; simpl.
  - destruct cur; [constructor|].
    apply Forall_cons_2; [by apply Forall_reverse|constructor].
  - destruct (after_cr && (c =? Char.LF)%N); [by apply IH|].
    destruct (Char.islinebreak c) eqn:E.
    + apply Forall_cons_2; [by apply Forall_reverse|]. apply IH. constructor.
    + apply IH. by constructor.
Qed.

Lemma splitlines_one_line s : Forall one_line (Str.splitlines s).
Proof. apply splitlines_from_one_line. constructor. Qed.

(** Reading one line that ends with a line feed. *)
Lemma splitlines_from_line l : forall cur rest,
  one_line l ->
  Str.splitlines_from false cur (l ++ Char.LF :: rest)
  = (reverse cur ++ l) :: Str.splitlines_from false [] rest.
Proof.
  induction l as [|c l IH]; intros cur rest Hl.
  - simpl. by rewrite app_nil_r.
  - apply Forall_cons in Hl as [Hc Hl]. simpl. rewrite Hc.
    rewrite IH by done. by rewrite reverse_cons, <- app_assoc.
Qed.

(** Reading the last line. *)
Lemma splitlines_from_last l : forall cur,
  one_line l -> reverse cur ++ l <> [] ->
  Str.splitlines_from false cur l = [reverse cur ++ l].
Proof.
  induction l as [|c l IH]; intros cur Hl Hne.
  - simpl. rewrite app_nil_r in *. destruct cur; [done|reflexivity].
  - apply Forall_cons in Hl as [Hc Hl]. simpl. rewrite Hc.
    rewrite IH; [by rewrite reverse_cons, <- app_assoc|done|].
    rewrite reverse_cons, <- app_assoc. simpl. by destruct (reverse cur).
Qed.

(** [str.splitlines] undoes ["\n".join] on non-empty lines. *)
Lemma splitlines_join ls :
  Forall one_line ls -> Forall (fun l => l <> []) ls ->
  Str.splitlines (Str.join [Char.LF] ls) = ls.
Proof.
  unfold Str.splitlines.
  induction ls as [|l ls IH]; intros Hone Hne; [done|].
  apply Forall_cons in Hone as [Hl Hone]. apply Forall_cons in Hne as [Hn Hne].
  destruct ls as [|l' ls].
  - simpl. by rewrite splitlines_from_last.
  - change (Str.join [Char.LF] (l :: l' :: ls))
      with (l ++ Char.LF :: Str.join [Char.LF] (l' :: ls)).
    rewrite splitlines_from_line by done. by rewrite IH.
Qed.

Lemma join_app sep (a b : list str) :
  a <> [] -> b <> [] ->
  Str.join sep (a ++ b) = Str.join sep a ++ sep ++ Str.join sep b.
Proof.
  intros Ha Hb. induction a as [|x a IH]; [done|].
  destruct a as [|y a].
  - simpl. destruct b; [done|reflexivity].
  - change (Str.join sep ((x :: y :: a) ++ b))
      with (x ++ sep ++ Str.join sep ((y :: a) ++ b)).
    rewrite IH by done.
    change (Str.join sep (x :: y :: a)) with (x ++ sep ++ Str.join sep (y :: a)).
    by rewrite <- !app_assoc.
Qed.

(** ** The recruiter scan *)

Lemma first_lines_shape text :
  Forall (fun l => stripped l /\ one_line l) (first_lines text).
Proof.
  unfold first_lines. apply Forall_forall. intros l Hl.
  apply list_elem_of_In, List.in_map_iff in Hl as (l0 & <- & Hl0).
  apply List.filter_In in Hl0 as [Hin Ht].
  apply truthy_true in Ht. split; [split; [done|apply strip_idem]|].
  apply Forall_strip.
  pose proof (splitlines_one_line text) as Hone.
  eapply Forall_forall in Hone; [exact Hone|].
  apply (sublist_subseteq _ _ (sublist_take _ 20)). by apply list_elem_of_In.
Qed.

Lemma highlights_unfold text :
  highlights (analyze_recruiter_scan text)
  = match first_lines text with
    | [] => NO_HIGHLIGHTS
    | _ => Str.join [Char.LF] (take 8 (first_lines text))
    end.
Proof.
  unfold analyze_recruiter_scan. simpl.
  pose proof (first_lines_nonempty text) as Hne.
  destruct (first_lines text) as [|l ls]; [reflexivity|].
  apply Forall_cons in Hne as [Hl _].
  change (take 8 (l :: ls)) with (l :: take 7 ls).
  by rewrite join_truthy.
Qed.

Lemma ignored_unfold text :
  ignored (analyze_recruiter_scan text)
  = if 8 <? len (first_lines text)
    then Str.join [Char.LF] (drop 8 (first_lines text))
    else SHORT_HEADER.
Proof. reflexivity. Qed.

Lemma join_nonempty sep (ls : list str) :
  ls <> [] -> Forall (fun l => l <> []) ls -> Str.join sep ls <> [].
Proof.
  intros Hls Hne. destruct ls as [|l ls]; [done|].
  apply Forall_cons in Hne as [Hl _]. by apply truthy_true, join_truthy.
Qed.

Lemma drop_nonempty {A} (n : nat) (l : list A) : (n < length l)%nat -> drop n l <> [].
Proof.
  intros Hlt E. apply (f_equal length) in E. rewrite length_drop in E.
  simpl in E. lia.
Qed.

Lemma take_nonempty {A} (n : nat) (l : list A) : l <> [] -> take (S n) l <> [].
Proof. by destruct l. Qed.

(** Lines that are stripped come back from a scan of their join. *)
Lemma first_lines_join ls :
  Forall (fun l => stripped l /\ one_line l) ls -> (length ls <= 20)%nat ->
  first_lines (Str.join [Char.LF] ls) = ls.
Proof.
  intros Hls Hlen. unfold first_lines.
  rewrite splitlines_join.
  - rewrite take_ge by done. clear Hlen.
    induction Hls as [|l ls [[Hne Hs] _] _ IH]; [done|].
    simpl. rewrite Hs. apply truthy_true in Hne. rewrite Hne. simpl.
    by rewrite Hs, IH.
  - eapply Forall_impl; [exact Hls|]. by intros l [_ ?].
  - eapply Forall_impl; [exact Hls|]. by intros l [[? _] _].
Qed.

(** X14.  Neither field of the recruiter scan is ever empty: there is
    always something to show under both headings. *)
Theorem recruiter_scan_never_empty (text : str) :
  highlights (analyze_recruiter_scan text) <> []
  /\ ignored (analyze_recruiter_scan text) <> [].
Proof.
  pose proof (first_lines_nonempty text) as Hne.
  rewrite highlights_unfold, ignored_unfold. split.
  - destruct (first_lines text) as [|l ls] eqn:E; [discriminate|].
    apply join_nonempty; [done|].
    by apply Forall_take.
  - destruct (Z.ltb_spec 8 (len (first_lines text))) as [Hlt|_]; [|discriminate].
    apply join_nonempty.
    + apply drop_nonempty. unfold len in Hlt. lia.
    + by apply Forall_drop.
Qed.

(** X15.  When more than 8 lines are selected, the two fields together are
    the selected lines: the highlights, a line feed and the ignored part
    make up the join of all selected lines, so that no selected line is
    lost or shown twice. *)
Theorem recruiter_scan_lossless (text : str) :
  8 < len (first_lines text) ->
  highlights (analyze_recruiter_scan text) ++ [Char.LF]
    ++ ignored (analyze_recruiter_scan text)
  = Str.join [Char.LF] (first_lines text).
Proof.
  intros Hlt. rewrite highlights_unfold, ignored_unfold.
  destruct (Z.ltb_spec 8 (len (first_lines text))) as [_|?]; [|lia].
  unfold len in Hlt.
  destruct (first_lines text) as [|l ls] eqn:E; [simpl in Hlt; lia|].
  rewrite <- E in *. clear E l ls.
  rewrite <- (take_drop 8 (first_lines text)) at 3.
  rewrite join_app; [done| |apply drop_nonempty; lia].
  intros E. apply (f_equal length) in E. rewrite length_take in E.
  change (length (@nil (list N))) with 0%nat in E. lia.
Qed.

(** X16.  Split into lines again, the highlights are the first 8 selected
    lines, and the ignored part is the selected lines after them. *)
Theorem recruiter_scan_lines (text : str) :
  first_lines text <> [] ->
  Str.splitlines (highlights (analyze_recruiter_scan text))
  = take 8 (first_lines text)
  /\ (8 < len (first_lines text) ->
      Str.splitlines (ignored (analyze_recruiter_scan text))
      = drop 8 (first_lines text)).
Proof.
  intros Hne. pose proof (first_lines_shape text) as Hshape.
  rewrite highlights_unfold, ignored_unfold. split.
  - destruct (first_lines text) as [|l ls] eqn:E; [done|]. rewrite <- E in *.
    apply splitlines_join.
    + apply (Forall_take _ 8%nat) in Hshape.
      eapply Forall_impl; [exact Hshape|]. by intros ? [_ ?].
    + apply (Forall_take _ 8%nat) in Hshape.
      eapply Forall_impl; [exact Hshape|]. by intros ? [[? _] _].
  - intros Hlt. destruct (Z.ltb_spec 8 (len (first_lines text))) as [_|?]; [|lia].
    apply splitlines_join.
    + apply (Forall_drop _ 8%nat) in Hshape.
      eapply Forall_impl; [exact Hshape|]. by intros ? [_ ?].
    + apply (Forall_drop _ 8%nat) in Hshape.
      eapply Forall_impl; [exact Hshape|]. by intros ? [[? _] _].
Qed.

(** X17.  Scanning the highlights once more changes nothing: the
    highlights of the highlights are the highlights. *)
Theorem recruiter_scan_idempotent (text : str) :
  highlights (analyze_recruiter_scan (highlights (analyze_recruiter_scan text)))
  = highlights (analyze_recruiter_scan text).
Proof.
  pose proof (first_lines_shape text) as Hshape.
  rewrite (highlights_unfold text).
  destruct (first_lines text) as [|l ls] eqn:E; [vm_compute; reflexivity|].
  rewrite <- E in *.
  assert (Hne : take 8 (first_lines text) <> [])
    by (apply take_nonempty; by rewrite E).
  clear E l ls.
  rewrite highlights_unfold, first_lines_join.
  - destruct (take 8 (first_lines text)) eqn:E; [done|]. rewrite <- E.
    by rewrite take_take.
  - by apply Forall_take.
  - rewrite length_take. lia.
Qed.

Lemma recruiter_scan_lossless_example :
  8 < len (first_lines ten_lines)
  /\ highlights (analyze_recruiter_scan ten_lines) ++ [Char.LF]
       ++ ignored (analyze_recruiter_scan ten_lines)
     = Str.join [Char.LF] (first_lines ten_lines).
Proof.
  assert (H : 8 < len (first_lines ten_lines)) by (vm_compute; reflexivity).
  split; [exact H|]. exact (recruiter_scan_lossless ten_lines H).
Defined.

Lemma recruiter_scan_lines_example :
  first_lines ten_lines <> []
  /\ Str.splitlines (highlights (analyze_recruiter_scan ten_lines))
     = take 8 (first_lines ten_lines)
  /\ (8 < len (first_lines ten_lines) ->
      Str.splitlines (ignored (analyze_recruiter_scan ten_lines))
      = drop 8 (first_lines ten_lines)).
Proof.
  assert (H : first_lines ten_lines <> []) by (vm_compute; discriminate).
  split; [exact H|]. exact (recruiter_scan_lines ten_lines H).
Defined.

(** ** The bullet pattern on rendered bullets *)

Lemma glyph_spaces_line_rendered c r rest :
  Char.isspace c = false -> (Char.LF ∉ c :: r) ->
  rest = [] \/ (exists r', rest = Char.LF :: r') ->
  Re.glyph_spaces_line (Char.HYPHEN :: 32%N :: (c :: r) ++ rest)
  = Some (c :: r, rest).
Proof.
  intros Hc Hlf Hrest. unfold Re.glyph_spaces_line.
  change (Re.glyph Char.HYPHEN && Char.isspace 32) with true. cbv iota.
  change ((c :: r) ++ rest) with (c :: r ++ rest).
  unfold Re.spaces_line. rewrite Hc. unfold Re.dot_plus.
  change (c :: r ++ rest) with ((c :: r) ++ rest).
  by rewrite span_dot_line.
Qed.

Lemma join_concat (x : str) (xs : list str) :
  Str.join [Char.LF] (x :: xs) = x ++ concat (List.map (fun y => Char.LF :: y) xs).
Proof.
  revert x. induction xs as [|y xs IH]; intros x.
  - simpl. by rewrite app_nil_r.
  - change (Str.join [Char.LF] (x :: y :: xs))
      with (x ++ Char.LF :: Str.join [Char.LF] (y :: xs)).
    rewrite IH. reflexivity.
Qed.

Lemma concat_lines_head (xs : list str) :
  concat (List.map (fun y => Char.LF :: y) xs) = []
  \/ exists r, concat (List.map (fun y => Char.LF :: y) xs) = Char.LF :: r.
Proof. destruct xs as [|x xs]; [by left|right]. simpl. eauto. Qed.

Lemma stripped_head b :
  stripped b -> exists c r, b = c :: r /\ Char.isspace c = false.
Proof.
  intros [Hne Hs]. destruct (strip_shape b) as [E|(c & r & _ & Hc & E)].
  - congruence.
  - rewrite Hs in E. eauto.
Qed.

Lemma bullet_at_line_feed s : Re.bullet_at false (Char.LF :: s) = Re.glyph_spaces_line s.
Proof. reflexivity. Qed.

Lemma findall_bullets_following (bs : list str) :
  Forall (fun b => stripped b /\ (Char.LF ∉ b)) bs ->
  Re.findall_bullets 0 false
    (concat (List.map (fun y => Char.LF :: y)
                      (List.map (fun b => Char.HYPHEN :: 32%N :: b) bs)))
  = bs.
Proof.
  induction 1 as [|b bs [Hs Hlf] _ IH]; [reflexivity|].
  destruct (stripped_head b Hs) as (c & r & -> & Hc).
  cbn [List.map concat].
  set (T := concat _) in *.
  assert (HT : T = [] \/ exists r', T = Char.LF :: r') by apply concat_lines_head.
  change ((Char.LF :: Char.HYPHEN :: 32%N :: c :: r) ++ T)
    with (Char.LF :: Char.HYPHEN :: 32%N :: (c :: r) ++ T).
  rewrite findall_bullets_here, bullet_at_line_feed.
  rewrite glyph_spaces_line_rendered by done.
  f_equal.
  replace (length (Char.HYPHEN :: 32%N :: (c :: r) ++ T) - length T)%nat
    with (length (Char.HYPHEN :: 32%N :: c :: r))
    by (simpl; rewrite length_app; lia).
  change (Char.HYPHEN :: 32%N :: (c :: r) ++ T)
    with ((Char.HYPHEN :: 32%N :: c :: r) ++ T).
  rewrite findall_bullets_skip by done. exact IH.
Qed.

(** The pattern finds every line of a list of rendered bullets. *)
Lemma findall_bullets_rendered (bs : list str) :
  Forall (fun b => stripped b /\ (Char.LF ∉ b)) bs ->
  Re.findall_bullets 0 true
    (Str.join [Char.LF] (List.map (fun b => Char.HYPHEN :: 32%N :: b) bs))
  = bs.
Proof.
  intros Hbs. destruct Hbs as [|b bs [Hs Hlf] Hbs]; [reflexivity|].
  cbn [List.map]. rewrite join_concat.
  destruct (stripped_head b Hs) as (c & r & -> & Hc).
  set (T := concat _) in *.
  assert (HT : T = [] \/ exists r', T = Char.LF :: r') by apply concat_lines_head.
  change ((Char.HYPHEN :: 32%N :: c :: r) ++ T)
    with (Char.HYPHEN :: 32%N :: (c :: r) ++ T).
  rewrite findall_bullets_here. unfold Re.bullet_at.
  rewrite glyph_spaces_line_rendered by done.
  f_equal.
  replace (length (32%N :: (c :: r) ++ T) - length T)%nat
    with (length (32%N :: c :: r))
    by (simpl; rewrite length_app; lia).
  change (32%N :: (c :: r) ++ T) with ((32%N :: c :: r) ++ T).
  rewrite findall_bullets_skip by done.
  by apply findall_bullets_following.
Qed.

Section Rewrites.
Context {U : Unicode}.

Lemma rewrites_shape text :
  Forall (fun p => stripped (original p) /\ (Char.LF ∉ original p)
                   /\ suggestion p = REWRITE_ADVICE)
         (suggest_quantified_achievements text).
Proof.
  rewrite suggest_unfold. apply Forall_take, Forall_forall. intros p Hp.
  apply list_elem_of_In, List.in_map_iff in Hp as (b & <- & Hb).
  apply List.filter_In in Hb as [Hb Hf]. apply list_elem_of_In in Hb.
  apply (sublist_subseteq _ _ (sublist_take _ 60)) in Hb.
  unfold flagged in Hf. apply andb_true_iff in Hf as [_ Hw]. simpl.
  split; [split|split; [|reflexivity]].
  - intros E. rewrite <- split_strip, E in Hw. vm_compute in Hw. discriminate.
  - apply strip_idem.
  - pose proof (bullets_occur text) as Hocc.
    eapply Forall_forall in Hocc; [|exact Hb].
    destruct Hocc as (before & g & ws & after & _ & _ & _ & _ & _ & _ & Hlf & _).
    assert (HF : Forall (fun c => c <> Char.LF) (Str.strip b)).
    { apply Forall_strip, Forall_forall. intros c Hc ->. done. }
    intros Hin. eapply Forall_forall in HF; [|exact Hin]. done.
Qed.

(** X18.  Every original that [suggest_quantified_achievements] returns is
    not empty, has no whitespace at either end and lies within one line, and
    every suggestion is the same fixed advice. *)
Theorem rewrite_originals_stripped (text : str) :
  Forall (fun p => original p <> [] /\ Str.strip (original p) = original p
                   /\ (Char.LF ∉ original p)
                   /\ suggestion p = REWRITE_ADVICE)
         (suggest_quantified_achievements text).
Proof.
  eapply Forall_impl; [apply rewrites_shape|].
  intros p ([Hne Hs] & Hlf & Hsug). auto.
Qed.

(** X19.  A text without any of the three glyphs [-], [*] and the bullet
    U+2022 yields no suggestion, however vague its wording. *)
Theorem no_glyph_no_suggestion (text : str) :
  Forall (fun c => Re.glyph c = false) text ->
  suggest_quantified_achievements text = [].
Proof.
  intros Hno. rewrite suggest_unfold.
  destruct (Re.findall_bullets 0 true text) as [|b bs] eqn:E; [reflexivity|].
  exfalso.
  assert (Hb : b ∈ Re.findall_bullets 0 true text) by (rewrite E; left).
  apply findall_bullets_sound in Hb as (before & g & ws & after & Ht & _ & Hg & _).
  eapply Forall_forall in Hno; [rewrite Hg in Hno; discriminate|].
  rewrite Ht. apply elem_of_app. right. left.
Qed.

End Rewrites.

(** ** The bullets of the rewrite prompt *)

(** A rendered bullet, whole or cut, is a match of the pattern. *)
Lemma rendered_match a before b rest :
  before = [] /\ a = true \/ before = [Char.LF] ->
  (exists c r, b = c :: r /\ Char.isspace c = false) ->
  (Char.LF ∉ b) ->
  rest = [] \/ (exists r', rest = Char.LF :: r') ->
  bullet_match a (before ++ Char.HYPHEN :: 32%N :: b ++ rest) b rest.
Proof.
  intros Hb (c & r & -> & Hc) Hlf Hrest.
  exists before, Char.HYPHEN, [32%N]. split; [reflexivity|]. split; [exact Hb|].
  split; [reflexivity|]. split; [done|].
  split; [apply Forall_cons_2; [reflexivity|apply Forall_nil_2]|].
  split; [split; [done|split; done]|].
  intros x c' t E Hx Hsp. destruct x as [|w x]; [done|].
  injection E as <- _. apply Forall_cons in Hsp as [Hw _]. congruence.
Qed.

Lemma take_line_tail n (T : str) :
  T = [] \/ (exists r, T = Char.LF :: r) ->
  take n T = [] \/ exists r, take n T = Char.LF :: r.
Proof.
  intros [->|[r ->]]; [left; by rewrite take_nil|].
  destruct n as [|n]; [by left|right]. simpl. eauto.
Qed.

(** The text after the glyph and the space of a rendered bullet, cut after
    one character or more. *)
Lemma findall_bullets_cut_line a before b T m :
  before = [] /\ a = true \/ before = [Char.LF] ->
  stripped b -> (Char.LF ∉ b) ->
  T = [] \/ (exists r, T = Char.LF :: r) ->
  Re.findall_bullets 0 a (before ++ Char.HYPHEN :: 32%N :: take (S m) (b ++ T))
  = if decide (S m <= length b)%nat
    then [take (S m) b]
    else b :: Re.findall_bullets 0 false (take (S m - length b) T).
Proof.
  intros Hb Hs Hlf HT. destruct (stripped_head b Hs) as (c & r & -> & Hc).
  destruct (decide (S m <= length (c :: r))%nat) as [Hle|Hgt].
  - rewrite take_app_le by done.
    rewrite <- (app_nil_r (take (S m) (c :: r))) at 1.
    rewrite (findall_bullets_match a _ (take (S m) (c :: r)) []); [reflexivity|].
    apply rendered_match; [done|simpl; eauto| |by left].
    intros Hin. apply Hlf. by apply (sublist_subseteq _ _ (sublist_take _ (S m))).
  - rewrite take_app_ge by lia.
    rewrite (findall_bullets_match a _ (c :: r) (take (S m - length (c :: r)) T));
      [reflexivity|].
    apply rendered_match; [done|eauto|done|by apply take_line_tail].
Qed.

(** What the pattern reads back from a cut list of rendered bullets: the
    bullets, up to one that the cut has shortened. *)
Lemma findall_bullets_following_cut (bs : list str) :
  Forall (fun b => stripped b /\ (Char.LF ∉ b)) bs ->
  forall n, exists k tail,
    Re.findall_bullets 0 false
      (take n (concat (List.map (fun y => Char.LF :: y)
                                (List.map (fun b => Char.HYPHEN :: 32%N :: b) bs))))
    = take k bs ++ tail
    /\ (tail = []
        \/ exists o b, bs !! k = Some o /\ b `prefix_of` o /\ b <> [] /\ tail = [b]).
Proof.
  induction 1 as [|b bs [Hs Hlf] _ IH]; intros n.
  - exists 0%nat, []. cbn [List.map concat]. rewrite take_nil.
    split; [reflexivity|by left].
  - cbn [List.map concat].
    set (T := concat _) in *.
    assert (HT : T = [] \/ exists r, T = Char.LF :: r) by apply concat_lines_head.
    change ((Char.LF :: Char.HYPHEN :: 32%N :: b) ++ T)
      with (Char.LF :: Char.HYPHEN :: 32%N :: b ++ T).
    destruct n as [|[|[|[|m]]]];
      try (exists 0%nat, []; split; [reflexivity|by left]).
    change (take (S (S (S (S m)))) (Char.LF :: Char.HYPHEN :: 32%N :: b ++ T))
      with ([Char.LF] ++ Char.HYPHEN :: 32%N :: take (S m) (b ++ T)).
    rewrite (findall_bullets_cut_line false [Char.LF] b T m);
      [|by right|done|done|done].
    destruct (decide (S m <= length b)%nat) as [Hle|Hgt].
    + exists 0%nat, [take (S m) b]. split; [reflexivity|right].
      exists b, (take (S m) b). split; [reflexivity|].
      split; [exists (drop (S m) b); by rewrite take_drop|].
      split; [|reflexivity]. destruct (stripped_head b Hs) as (c & r & -> & _). done.
    + destruct (IH (S m - length b)%nat) as (k & tail & E & Htail).
      exists (S k), tail. rewrite E. split; [reflexivity|exact Htail].
Qed.

Lemma findall_bullets_rendered_cut (bs : list str) (n : nat) :
  Forall (fun b => stripped b /\ (Char.LF ∉ b)) bs ->
  exists k tail,
    Re.findall_bullets 0 true
      (take n (Str.join [Char.LF] (List.map (fun b => Char.HYPHEN :: 32%N :: b) bs)))
    = take k bs ++ tail
    /\ (tail = []
        \/ exists o b, bs !! k = Some o /\ b `prefix_of` o /\ b <> [] /\ tail = [b]).
Proof.
  intros Hbs. destruct Hbs as [|b bs [Hs Hlf] Hbs].
  - exists 0%nat, []. cbn [List.map Str.join]. rewrite take_nil.
    split; [reflexivity|by left].
  - cbn [List.map]. rewrite join_concat.
    set (T := concat _) in *.
    assert (HT : T = [] \/ exists r, T = Char.LF :: r) by apply concat_lines_head.
    change ((Char.HYPHEN :: 32%N :: b) ++ T) with (Char.HYPHEN :: 32%N :: b ++ T).
    destruct n as [|[|[|m]]];
      try (exists 0%nat, []; split; [reflexivity|by left]).
    change (take (S (S (S m))) (Char.HYPHEN :: 32%N :: b ++ T))
      with ([] ++ Char.HYPHEN :: 32%N :: take (S m) (b ++ T)).
    rewrite (findall_bullets_cut_line true [] b T m); [|by left|done|done|done].
    destruct (decide (S m <= length b)%nat) as [Hle|Hgt].
    + exists 0%nat, [take (S m) b]. split; [reflexivity|right].
      exists b, (take (S m) b). split; [reflexivity|].
      split; [exists (drop (S m) b); by rewrite take_drop|].
      split; [|reflexivity]. destruct (stripped_head b Hs) as (c & r & -> & _). done.
    + destruct (findall_bullets_following_cut bs Hbs (S m - length b)%nat)
        as (k & tail & E & Htail).
      subst T. exists (S k), tail. rewrite E. split; [reflexivity|exact Htail].
Qed.

Lemma format_three_fields l0 f1 l1 f2 l2 f3 l3 kwargs v1 v2 v3 :
  getitem kwargs f1 = Ok v1 -> getitem kwargs f2 = Ok v2 ->
  getitem kwargs f3 = Ok v3 ->
  format [Lit l0; Field f1; Lit l1; Field f2; Lit l2; Field f3; Lit l3] kwargs
  = Ok ((l0 ++ v1 ++ l1 ++ v2 ++ l2) ++ v3 ++ l3).
Proof.
  intros E1 E2 E3. simpl. rewrite E1, E2, E3. simpl.
  by rewrite app_nil_r, <- !app_assoc.
Qed.

Section PromptBullets.
Context {U : Unicode}.

(** X20.  The rewrite prompt ends with the bullets that the application
    renders, one line ["- " + original] for each suggestion, cut to 4000
    characters.  The pattern of the flagger reads the originals back from
    that text in their order, up to the one that the cut has shortened, and
    all of them when the rendered bullets fit in 4000 characters. *)
Theorem prompt_bullets_read_back (repr : rewrite -> str)
    (job_role job_desc : option str) (text : str) :
  let quantified := suggest_quantified_achievements text in
  let originals := List.map original quantified in
  let rendered := Str.join [Char.LF] (List.map (fun o => py "- " ++ o) originals) in
  let sent := take 4000 rendered in
  (exists head,
     prompt_q repr quantified job_role job_desc
     = Ok (head ++ sent ++ [Char.LF] ++ py ">>>"))
  /\ (exists k tail,
        Re.findall_bullets 0 true sent = take k originals ++ tail
        /\ (tail = []
            \/ exists o b, originals !! k = Some o /\ b `prefix_of` o
                           /\ b <> [] /\ tail = [b]))
  /\ (len rendered <= 4000 -> Re.findall_bullets 0 true sent = originals).
Proof.
  intros quantified originals rendered sent.
  pose proof (rewrites_shape text) as Hshape. fold quantified in Hshape.
  assert (E : List.map (fun q => py "- " ++ _orig repr q) quantified
              = List.map (fun o => py "- " ++ o) originals).
  { subst originals. rewrite List.map_map. apply List.map_ext_in. intros q Hq.
    apply list_elem_of_In in Hq. eapply Forall_forall in Hshape; [|exact Hq].
    destruct Hshape as ([Hne _] & _). unfold _orig.
    apply truthy_true in Hne. by rewrite Hne. }
  assert (Hok : Forall (fun b => stripped b /\ (Char.LF ∉ b)) originals).
  { apply Forall_forall. intros b Hb.
    apply list_elem_of_In, List.in_map_iff in Hb as (q & <- & Hq).
    apply list_elem_of_In in Hq. eapply Forall_forall in Hshape; [|exact Hq].
    destruct Hshape as (Hs & Hlf & _). auto. }
  split; [|split].
  - unfold prompt_q. cbv zeta. rewrite E. fold rendered. fold sent.
    unfold ACHIEVEMENT_REWRITE_PROMPT.
    erewrite format_three_fields; [eexists; reflexivity|reflexivity..].
  - subst sent rendered.
    change (fun o : list N => py "- " ++ o)
      with (fun b : list N => Char.HYPHEN :: 32%N :: b).
    by apply findall_bullets_rendered_cut.
  - intros Hfit. subst sent. rewrite take_ge by (unfold len in Hfit; lia).
    subst rendered.
    change (fun o : list N => py "- " ++ o)
      with (fun b : list N => Char.HYPHEN :: 32%N :: b).
    by apply findall_bullets_rendered.
Qed.
End PromptBullets.

Lemma no_glyph_no_suggestion_example :
  Forall (fun c => Re.glyph c = false) (py "Responsible for worked on reports")
  /\ @suggest_quantified_achievements BasicLatin.db
       (py "Responsible for worked on reports") = [].
Proof.
  assert (H : Forall (fun c => Re.glyph c = false)
                     (py "Responsible for worked on reports"))
    by (apply (bool_decide_unpack _); vm_compute; exact I).
  split; [exact H|].
  exact (@no_glyph_no_suggestion BasicLatin.db _ H).
Defined.

(** * The parser *)

Lemma endswith_app suffix s : endswith suffix s = true -> exists t, s = t ++ suffix.
Proof.
  unfold endswith. intros [t Ht]%startswith_app. exists (reverse t).
  apply (f_equal reverse) in Ht. by rewrite reverse_involutive, reverse_app,
    reverse_involutive in Ht.
Qed.

(** A name that ends with ".pdf" holds "pdf". *)
Lemma endswith_pdf_contains s :
  endswith (py ".pdf") s = true -> Str.contains (py "pdf") s = true.
Proof.
  intros [t ->]%endswith_app.
  change (py ".pdf") with ([46%N] ++ py "pdf" ++ []).
  rewrite app_assoc. apply contains_infix.
Qed.

Section ParserProperties.
Context {U : Unicode} {bytes : Type} (lib : libraries bytes).

Lemma first_text_stripped (fns : list (bytes -> option str)) (file_like : bytes) :
  Forall (fun fn => forall t, fn file_like = Some t -> Str.strip t = t) fns ->
  first_text fns file_like = [] \/ stripped (first_text fns file_like).
Proof.
  induction 1 as [|fn fns Hfn _ IH]; simpl; [by left|].
  destruct (fn file_like) as [t|] eqn:E; [|exact IH].
  destruct (truthy t && _) eqn:Ht; [|exact IH].
  apply andb_true_iff in Ht as [Ht _]. apply truthy_true in Ht.
  right. split; [done|by apply Hfn].
Qed.

(** X21.  [extract_text_from_pdf] returns the empty string or a text that
    is not blank and has no whitespace at either end, whatever the three
    libraries return or raise. *)
Theorem pdf_text_empty_or_stripped (file_like : bytes) :
  extract_text_from_pdf lib file_like = []
  \/ extract_text_from_pdf lib file_like <> []
     /\ Str.strip (extract_text_from_pdf lib file_like)
        = extract_text_from_pdf lib file_like.
Proof.
  apply first_text_stripped.
  repeat apply Forall_cons_2; try apply Forall_nil_2; intros t.
  - unfold _extract_pdf_text_pdfplumber.
    destruct (pdfplumber lib file_like); [|discriminate].
    intros [= <-]. apply strip_idem.
  - unfold _extract_pdf_text_pymupdf.
    destruct (fitz lib file_like); [|discriminate].
    intros [= <-]. apply strip_idem.
  - unfold _extract_pdf_text_pdfminer.
    destruct (pdfminer lib file_like); [|discriminate].
    intros [= <-]. apply strip_idem.
Qed.

(** X22.  [extract_text_from_any] takes the PDF route exactly when the
    lowercased type or name holds "pdf" anywhere: the test of the ".pdf"
    ending adds nothing, and a text file whose name holds "pdf" is never
    decoded as text. *)
Theorem pdf_route_by_substring (file_like : bytes) (mime_or_name : option str) :
  extract_text_from_any lib file_like mime_or_name
  = if Str.contains (py "pdf") (lower (default [] mime_or_name))
    then extract_text_from_pdf lib file_like
    else default [] (decode lib file_like).
Proof.
  unfold extract_text_from_any. cbv zeta.
  destruct (Str.contains (py "pdf") _) eqn:Ec; [by rewrite orb_true_r|].
  destruct (endswith (py ".pdf") _) eqn:Ee; [|reflexivity].
  apply endswith_pdf_contains in Ee. congruence.
Qed.
End ParserProperties.

(** ** Tokens and the text *)

Lemma findall_tokens_sublist s : forall cur,
  concat (Re.findall_tokens cur s) `sublist_of` reverse (default [] cur) ++ s.
Proof.
  induction s as [|c s IH]; intros cur; simpl.
  - destruct cur as [t|]; simpl; [by rewrite !app_nil_r|done].
  - destruct cur as [t|]; simpl.
    + destruct (Re.token_char c).
      * specialize (IH (Some (c :: t))). simpl in IH.
        by rewrite reverse_cons, <- app_assoc in IH.
      * simpl. apply sublist_app; [done|]. apply sublist_cons, (IH None).
    + destruct (Re.token_start c).
      * apply (IH (Some [c])).
      * apply sublist_cons, (IH None).
Qed.

(** X24.  The tokens of [simple_tokenize] are cut out of the lowercased
    text from left to right without overlap: put end to end they are a
    subsequence of that text. *)
Theorem tokens_within_text `{U : Unicode} (text : str) :
  concat (simple_tokenize text) `sublist_of` lower text.
Proof. apply (findall_tokens_sublist (lower text) None). Qed.

(** * The review of the application *)

Lemma format_length template kwargs : forall p,
  format template kwargs = Ok p ->
  len p
  = sum (List.map
           (fun pc => match pc with
                      | Lit s => len s
                      | Field name =>
                          match getitem kwargs name with
                          | Ok v => len v
                          | Raise _ => 0
                          end
                      end)
           template).
Proof.
  induction template as [|pc template IH]; intros p; simpl.
  - by intros [= <-].
  - destruct pc as [s|name].
    + destruct (format template kwargs) as [tail|] eqn:E; [|discriminate].
      simpl. intros [= <-]. rewrite <- (IH tail eq_refl).
      unfold len. rewrite length_app. lia.
    + destruct (getitem kwargs name) as [v|]; [|discriminate]. simpl.
      destruct (format template kwargs) as [tail|] eqn:E; [|discriminate].
      simpl. intros [= <-]. rewrite <- (IH tail eq_refl).
      unfold len. rewrite length_app. lia.
Qed.

Lemma format_feedback (role job_desc keywords resume_text : str) :
  exists prompt,
    format FEEDBACK_PROMPT_TEMPLATE
      [ (py "role", role); (py "job_desc", job_desc);
        (py "keywords", keywords); (py "resume_text", resume_text) ]
    = Ok prompt
    /\ len prompt
       = 487 + len role + len job_desc + len keywords + len resume_text.
Proof.
  destruct (format _ _) as [prompt|e] eqn:E.
  - exists prompt. split; [reflexivity|].
    apply format_length in E. rewrite E. clear E.
    unfold FEEDBACK_PROMPT_TEMPLATE. cbn [List.map sum foldr].
    change (getitem _ (py "role")) with (Ok role).
    change (getitem _ (py "job_desc")) with (Ok job_desc).
    change (getitem _ (py "keywords")) with (Ok keywords).
    change (getitem _ (py "resume_text")) with (Ok resume_text).
    repeat match goal with
           | |- context [len (?x ++ ?y)] =>
               let n := eval vm_compute in (len (x ++ y)) in
               change (len (x ++ y)) with n
           | |- context [len (py ?s)] =>
               let n := eval vm_compute in (len (py s)) in
               change (len (py s)) with n
           end.
    lia.
  - vm_compute in E. discriminate.
Qed.

Section ReviewProperties.
Context {U : Unicode} {F : Type}.

(** X25.  [run_review] returns a result on every resume, with the feedback
    that the client gives on one prompt.  That prompt holds at most 1500
    characters of the keyword list and 12000 of the resume: its length is
    at most 13987 plus the lengths of the role label and of the job
    description. *)
Theorem run_review_prompt_bounded (generate_structured_feedback : str -> F)
    (resume_text : str) (job_role job_desc : option str) :
  len (lower resume_text) <= PY_SSIZE_T_MAX ->
  exists r prompt,
    run_review generate_structured_feedback resume_text job_role job_desc = Ok r
    /\ feedback r = generate_structured_feedback prompt
    /\ len prompt
       <= 13987 + len (or_else job_role (py "(unspecified role)"))
          + len (or_else job_desc []).
Proof.
  intros Hlen. unfold run_review. cbv zeta.
  set (kws := role_keywords_for job_role job_desc resume_text).
  destruct (compute_ats_score_ok resume_text kws) as (a & s & Ea & _).
  rewrite Ea, bind_Ok.
  destruct (analyze_visual_insights_ok resume_text kws Hlen) as (v & Ev).
  rewrite Ev, bind_Ok.
  set (keywords := take 1500 _). set (resume := take (Z.to_nat 12000) _).
  destruct (format_feedback (or_else job_role (py "(unspecified role)"))
              (or_else job_desc []) keywords resume) as (prompt & Ef & Hp).
  rewrite Ef, bind_Ok. eexists _, prompt.
  split; [reflexivity|]. split; [reflexivity|]. rewrite Hp.
  assert (Hk : len keywords <= 1500)
    by (subst keywords; unfold len; rewrite length_take; lia).
  assert (Hr : len resume <= 12000)
    by (subst resume; unfold len; rewrite length_take; lia).
  lia.
Qed.
End ReviewProperties.

Lemma run_review_prompt_bounded_example :
  len (@lower BasicLatin.db example_resume) <= PY_SSIZE_T_MAX
  /\ exists r prompt,
       @run_review BasicLatin.db str (fun prompt => prompt) example_resume
         (Some (py "Software Engineer")) None = Ok r
       /\ feedback r = (fun prompt => prompt) prompt
       /\ len prompt
          <= 13987 + len (or_else (Some (py "Software Engineer"))
                                  (py "(unspecified role)"))
             + len (or_else None []).
Proof.
  assert (Hlen : len (@lower BasicLatin.db example_resume) <= PY_SSIZE_T_MAX)
    by (vm_compute; discriminate).
  split; [exact Hlen|].
  exact (@run_review_prompt_bounded BasicLatin.db str (fun prompt => prompt)
           example_resume (Some (py "Software Engineer")) None Hlen).
Defined.

(** * The score on the keyword sets of the resolver *)

Lemma role_presets_small : Forall (fun kv => (size kv.2 <= 60)%nat) ROLE_PRESETS.
Proof. apply (bool_decide_unpack _). vm_compute. exact I. Qed.

Lemma score_steps_up_spec (K : nat) :
  score_steps_up K = true ->
  forall m k n : nat, (k <= K)%nat -> (m <= k)%nat -> (n <= 7)%nat ->
    score_formula (Z.of_nat m) (Z.of_nat k) (Z.of_nat n)
      <= score_formula (Z.of_nat m) (Z.of_nat k) (Z.of_nat (S n))
    /\ score_formula (Z.of_nat m) (Z.of_nat k) (Z.of_nat n)
       <= score_formula (Z.of_nat (pred m)) (Z.of_nat k) (Z.of_nat n).
Proof.
  unfold score_steps_up. intros H m k n Hk Hm Hn.
  rewrite List.forallb_forall in H.
  specialize (H k ltac:(apply List.in_seq; lia)).
  rewrite List.forallb_forall in H.
  specialize (H m ltac:(apply List.in_seq; lia)).
  rewrite List.forallb_forall in H.
  specialize (H n ltac:(apply List.in_seq; lia)).
  cbv zeta in H. apply andb_true_iff in H as [H1 H2].
  apply Z.leb_le in H1. apply Z.leb_le in H2. auto.
Qed.

Lemma score_steps_up_60 : score_steps_up 60 = true.
Proof. vm_compute. reflexivity. Qed.

Lemma score_monotone_sections (m k n d : nat) :
  (k <= 60)%nat -> (m <= k)%nat -> (n + d <= 7)%nat ->
  score_formula (Z.of_nat m) (Z.of_nat k) (Z.of_nat n)
  <= score_formula (Z.of_nat m) (Z.of_nat k) (Z.of_nat (n + d)).
Proof.
  intros Hk Hm. induction d as [|d IH]; intros Hn.
  - rewrite Nat.add_0_r. lia.
  - etransitivity; [apply IH; lia|].
    replace (n + S d)%nat with (S (n + d)) by lia.
    apply (score_steps_up_spec 60 score_steps_up_60); lia.
Qed.

Lemma score_monotone_missing (m k n d : nat) :
  (k <= 60)%nat -> (m + d <= k)%nat -> (n <= 7)%nat ->
  score_formula (Z.of_nat (m + d)) (Z.of_nat k) (Z.of_nat n)
  <= score_formula (Z.of_nat m) (Z.of_nat k) (Z.of_nat n).
Proof.
  intros Hk Hm Hn. induction d as [|d IH].
  - rewrite Nat.add_0_r. lia.
  - etransitivity; [|apply IH; lia].
    replace (m + d)%nat with (pred (m + S d)) by lia.
    apply (score_steps_up_spec 60 score_steps_up_60); lia.
Qed.

Section ResolverScore.
Context {U : Unicode}.

Lemma role_keywords_size (job_role job_desc : option str) (resume_text : str) :
  (size (role_keywords_for job_role job_desc resume_text) <= 60)%nat.
Proof.
  unfold role_keywords_for.
  destruct (preset_for ROLE_PRESETS _) as [vocab|] eqn:E.
  - exact (preset_for_Forall (fun v : gset str => (size v <= 60)%nat) _ _ _
             role_presets_small E).
  - destruct (truthy (default [] job_desc)).
    + destruct (most_common_keys 60
                  (List.filter (fun t => 3 <=? len t)
                               (simple_tokenize (default [] job_desc))))
        as (_ & Hs & _).
      rewrite Hs. lia.
    + destruct (most_common_keys 40 (simple_tokenize resume_text)) as (_ & Hs & _).
      rewrite Hs. lia.
Qed.

(** X26.  [role_keywords_for] never returns more than 60 keywords, whether
    they come from a preset, from the job description or from the resume. *)
Theorem role_keywords_at_most_60
    (job_role job_desc : option str) (resume_text : str) :
  (size (role_keywords_for job_role job_desc resume_text) <= 60)%nat.
Proof. apply role_keywords_size. Qed.

(** X27.  On the keyword set that [role_keywords_for] returns, the score of
    [compute_ats_score] is the integer part of the exact value of
    60 x coverage + 40 x min(1, sections / 6), or one less than that value
    when it is an integer that the binary64 sum falls short of. *)
Theorem resolver_score_near_exact
    (job_role job_desc : option str) (resume_text : str) :
  let kws := role_keywords_for job_role job_desc resume_text in
  exists r,
    compute_ats_score resume_text kws = Ok r
    /\ let v := exact_value (len (missing_of resume_text kws))
                  (Z.of_nat (size kws)) (Z.of_nat (size (detected_sections r))) in
       score r = Qfloor v
       \/ score r = Qfloor v - 1 /\ Qeq v (inject_Z (Qfloor v)).
Proof.
  intros kws.
  destruct (compute_ats_score_ok resume_text kws) as (r & s & E & Es & Ed & _ & Hs).
  destruct (detect_sections_ok resume_text) as (s' & Es' & _ & Hc).
  rewrite Es in Es'. injection Es' as <-.
  exists r. split; [exact E|]. cbv zeta. rewrite Hs, Ed.
  pose proof (missing_of_length resume_text kws) as Hm.
  pose proof (role_keywords_size job_role job_desc resume_text) as Hk.
  fold kws in Hk.
  pose proof (canonical_keys_size s Hc) as Hn.
  pose proof (score_near_exact_floor
                (Z.to_nat (len (missing_of resume_text kws))) (size kws) (size s)
                Hk ltac:(lia) Hn) as H.
  rewrite Z2Nat.id in H by lia.
  unfold near_floor in H. cbv zeta in H.
  apply orb_true_iff in H as [H|H].
  - left. by apply Z.eqb_eq in H.
  - right. apply andb_true_iff in H as [H1 H2].
    apply Z.eqb_eq in H1. apply Qeq_bool_iff in H2. auto.
Qed.

(** X28.  For a keyword set of at most 60 entries, as the resolver returns
    them, a resume that misses no more of the keywords and shows no fewer
    sections than another does not score lower. *)
Theorem score_monotone (text text' : str) (kws : gset str) :
  (size kws <= 60)%nat ->
  len (missing_of text' kws) <= len (missing_of text kws) ->
  exists r r',
    compute_ats_score text kws = Ok r
    /\ compute_ats_score text' kws = Ok r'
    /\ ((size (detected_sections r) <= size (detected_sections r'))%nat ->
        score r <= score r').
Proof.
  intros Hk Hmiss.
  destruct (compute_ats_score_ok text kws) as (r & s & E & Es & Ed & _ & Hs).
  destruct (compute_ats_score_ok text' kws) as (r' & s' & E' & Es' & Ed' & _ & Hs').
  destruct (detect_sections_ok text) as (s0 & Es0 & _ & Hc).
  rewrite Es in Es0. injection Es0 as <-.
  destruct (detect_sections_ok text') as (s0' & Es0' & _ & Hc').
  rewrite Es' in Es0'. injection Es0' as <-.
  exists r, r'. split; [exact E|]. split; [exact E'|].
  rewrite Hs, Hs', Ed, Ed'. intros Hsec.
  pose proof (missing_of_length text kws) as Hm.
  pose proof (missing_of_length text' kws) as Hm'.
  pose proof (canonical_keys_size s Hc) as Hn.
  pose proof (canonical_keys_size s' Hc') as Hn'.
  set (m := Z.to_nat (len (missing_of text kws))).
  set (m' := Z.to_nat (len (missing_of text' kws))).
  rewrite <- (Z2Nat.id (len (missing_of text kws))) by lia.
  rewrite <- (Z2Nat.id (len (missing_of text' kws))) by lia.
  fold m m'.
  etransitivity.
  - replace m with (m' + (m - m'))%nat by lia.
    apply score_monotone_missing; lia.
  - replace (size s') with (size s + (size s' - size s))%nat by lia.
    apply score_monotone_sections; lia.
Qed.
End ResolverScore.

Lemma score_monotone_example :
  (size software_engineer_preset <= 60)%nat
  /\ len (@missing_of BasicLatin.db example_with_skills software_engineer_preset)
     <= len (@missing_of BasicLatin.db example_resume software_engineer_preset)
  /\ exists r r',
       @compute_ats_score BasicLatin.db example_resume software_engineer_preset = Ok r
       /\ @compute_ats_score BasicLatin.db example_with_skills
            software_engineer_preset = Ok r'
       /\ ((size (detected_sections r) <= size (detected_sections r'))%nat ->
           score r <= score r').
Proof.
  assert (H1 : (size software_engineer_preset <= 60)%nat)
    by (vm_compute; repeat constructor).
  assert (H2 : len (@missing_of BasicLatin.db example_with_skills
                      software_engineer_preset)
               <= len (@missing_of BasicLatin.db example_resume
                         software_engineer_preset))
    by (vm_compute; discriminate).
  split; [exact H1|]. split; [exact H2|].
  exact (@score_monotone BasicLatin.db example_resume example_with_skills
           software_engineer_preset H1 H2).
Defined.
